(** * Amplifier CLI: configuration merge, provenance tracking, session store

    A shallow embedding of three parts of the command-line front end:
    - [agent_config.py]       ([merge_configs]),
    - [commands/profile.py]   ([build_effective_config_with_sources]),
    - [session_store.py]      ([_atomic_write] and the [SessionStore] class),
    together with the properties the specification states about them. *)

From stdpp Require Import base option list strings gmap sorting.
From Stdlib Require Import ZArith.

#[local] Set Warnings "-register-all".

Local Open Scope string_scope.
Local Open Scope Z_scope.

(** ** Python values *)

Module Py.

(** The fragment of Python's object universe that configuration trees,
    messages and metadata are built from.  A [dict] keeps its insertion
    order, so it is an association list with string keys.  [VObject] is any
    other object (a provider SDK block, a tuple, ...): [json] is what
    [json.dumps] encodes it as, or [None] when [json.dumps] raises
    [TypeError]; [model_dump] is the result of its [model_dump()] method
    when it has one. *)
Inductive value : Type :=
| VNone
| VBool (b : bool)
| VInt (n : Z)
| VFloat (bits : Z)
| VStr (s : string)
| VList (l : list value)
| VDict (d : list (string * value))
| VObject (name : string) (json : option value)
          (model_dump : option (list (string * value))).

Definition dict : Type := list (string * value).

(** Structural induction that reaches the values nested in lists,
    dictionaries and objects. *)
Section value_induction.
Variable P : value → Prop.
Hypothesis HNone : P VNone.
Hypothesis HBool : ∀ b, P (VBool b).
Hypothesis HInt : ∀ n, P (VInt n).
Hypothesis HFloat : ∀ bits, P (VFloat bits).
Hypothesis HStr : ∀ s, P (VStr s).
Hypothesis HList : ∀ l, Forall P l → P (VList l).
Hypothesis HDict : ∀ d, Forall (λ kv, P kv.2) d → P (VDict d).
Hypothesis HObject : ∀ name json md,
  (∀ j, json = Some j → P j) →
  (∀ d, md = Some d → Forall (λ kv, P kv.2) d) →
  P (VObject name json md).

Fixpoint value_rect_nested (v : value) : P v :=
  let entries :=
    fix entries (d : list (string * value)) : Forall (λ kv, P kv.2) d :=
      match d with
      | [] => @List.Forall_nil _ _
      | kv :: rest => @List.Forall_cons _ _ kv rest (value_rect_nested kv.2) (entries rest)
      end in
  match v with
  | VNone => HNone
  | VBool b => HBool b
  | VInt n => HInt n
  | VFloat bits => HFloat bits
  | VStr s => HStr s
  | VList l =>
      HList l ((fix items (l : list value) : Forall P l :=
                  match l with
                  | [] => @List.Forall_nil _ _
                  | x :: rest => @List.Forall_cons _ _ x rest (value_rect_nested x) (items rest)
                  end) l)
  | VDict d => HDict d (entries d)
  | VObject name json md =>
      HObject name json md
        (λ j Hj, match json as o return o = Some j → P j with
                 | Some j' => λ H, eq_rect j' P (value_rect_nested j') j
                                       (f_equal (λ o, default j' o) H)
                 | None => λ H, match Some_ne_None _ (eq_sym H) with end
                 end Hj)
        (λ d Hd, match md as o return o = Some d → Forall (λ kv, P kv.2) d with
                 | Some d' => λ H, eq_rect d' (Forall (λ kv, P kv.2)) (entries d') d
                                       (f_equal (λ o, default d' o) H)
                 | None => λ H, match Some_ne_None _ (eq_sym H) with end
                 end Hd)
  end.
End value_induction.

(** Exceptions, by class, with their message.  [FileNotFoundError] and
    [FileExistsError] are subclasses of [OSError]; [JSONDecodeError] and
    [UnicodeDecodeError] are subclasses of [ValueError]. *)
Inductive exn : Type :=
| ValueError (msg : string)
| TypeError (msg : string)
| KeyError (key : string)
| AttributeError (msg : string)
| OSError (msg : string) (cause : option exn)
| FileNotFoundError (msg : string)
| FileExistsError (msg : string)
| JSONDecodeError (msg : string)
| UnicodeDecodeError (msg : string).

(** [str(e)] *)
Definition exn_str (e : exn) : string :=
  match e with
  | ValueError m | TypeError m | AttributeError m | OSError m _
  | FileNotFoundError m | FileExistsError m | JSONDecodeError m
  | UnicodeDecodeError m => m
  | KeyError k => "'" +:+ k +:+ "'"
  end.

(** [isinstance(e, OSError)] *)
Definition is_OSError (e : exn) : bool :=
  match e with
  | OSError _ _ | FileNotFoundError _ | FileExistsError _ => true
  | _ => false
  end.


(** The outcome of a call: a value, or a raised exception. *)
Inductive result (A : Type) : Type :=
| Ok (a : A)
| Raise (e : exn).
Arguments Ok {A} a.
Arguments Raise {A} e.

#[export] Instance result_ret : MRet result := λ A a, Ok a.
#[export] Instance result_bind : MBind result := λ A B k r,
  match r with
  | Ok a => k a
  | Raise e => Raise e
  end.

(** A loop whose body may raise. *)
Fixpoint fold_result {A S : Type} (f : S → A → result S) (s : S) (l : list A)
  : result S :=
  match l with
  | [] => Ok s
  | x :: rest => s' ← f s x; fold_result f s' rest
  end.

(** [d.get(k)] *)
Fixpoint dict_get {V : Type} (k : string) (d : list (string * V)) : option V :=
  match d with
  | [] => None
  | (k', v) :: rest => if decide (k = k') then Some v else dict_get k rest
  end.

(** [k in d] *)
Definition dict_has {V : Type} (k : string) (d : list (string * V)) : bool :=
  match dict_get k d with Some _ => true | None => false end.

(** [d[k] = v]: an existing key keeps its position, a new one goes last. *)
Fixpoint dict_set {V : Type} (k : string) (v : V) (d : list (string * V))
  : list (string * V) :=
  match d with
  | [] => [(k, v)]
  | (k', v') :: rest =>
      if decide (k = k') then (k, v) :: rest else (k', v') :: dict_set k v rest
  end.

(** What is left of [d] after [d.pop(k, None)]. *)
Definition dict_remove {V : Type} (k : string) (d : list (string * V))
  : list (string * V) :=
  filter (λ kv, kv.1 ≠ k) d.

(** [{k: v for k, v in d.items() if p(k)}] *)
Definition dict_filter_keys {V : Type} (p : string → bool)
  (d : list (string * V)) : list (string * V) :=
  filter (λ kv, p kv.1 = true) d.

(** A Python dictionary has each key once. *)
Definition unique_keys {V : Type} (d : list (string * V)) : Prop :=
  NoDup d.*1.

(** [needle in hay] for two strings. *)
Fixpoint string_contains (needle hay : string) : bool :=
  String.prefix needle hay ||
  match hay with
  | EmptyString => false
  | String _ rest => string_contains needle rest
  end.

(** [k in names] for a string [k] and a list: an element equal to [k]. *)
Definition name_in (names : list value) (k : string) : bool :=
  existsb (λ n, match n with VStr s => bool_decide (s = k) | _ => false end) names.

(** [k in container] for a string [k]: key membership in a mapping, element
    membership in a list, substring test in a string; anything else is not
    a container. *)
Definition py_contains (container : value) (k : string) : result bool :=
  match container with
  | VDict d => Ok (dict_has k d)
  | VList l => Ok (name_in l k)
  | VStr s => Ok (string_contains k s)
  | _ => Raise (TypeError "argument is not iterable")
  end.

End Py.

(** ** The generic merge of the profiles library *)

Module Merger.
Import Py.

(** The three top-level sections whose value is a list of module entries. *)
Definition module_sections : list string := ["providers"; "tools"; "hooks"].

Definition is_module_section (key : string) : bool :=
  bool_decide (key ∈ module_sections).

(** Modelled from the spec: the recursive merge of nested objects of
    section 4.1 (the body of [amplifier_profiles.merger] is not part of this
    repository).  Two mappings merge key by key, the overlay's keys
    overriding the parent's same-named keys and the parent's other keys
    surviving; in every other combination of representations the overlay's
    value wins wholesale. *)
Fixpoint merge_value (p c : value) {struct c} : value :=
  match p, c with
  | VDict pd, VDict cd =>
      VDict ((fix go (cd : list (string * value)) (merged : dict) : dict :=
                match cd with
                | [] => merged
                | (key, cv) :: rest =>
                    go rest
                       (match dict_get key merged with
                        | Some pv => dict_set key (merge_value pv cv) merged
                        | None => dict_set key cv merged
                        end)
                end) cd pd)
  | _, _ => c
  end.

(** The loop of [merge_value] over the overlay's entries, by name. *)
Fixpoint merge_entries (cd : list (string * value)) (merged : dict) : dict :=
  match cd with
  | [] => merged
  | (key, cv) :: rest =>
      merge_entries rest
        (match dict_get key merged with
         | Some pv => dict_set key (merge_value pv cv) merged
         | None => dict_set key cv merged
         end)
  end.

(** [m.get("module")] of a module entry: the entry is a mapping and its
    [module] a string (the identity key of section 3 of the spec).  An
    entry with any other [module] value is outside the data model and is
    treated as one without identity. *)
Definition module_of (item : value) : option string :=
  match item with
  | VDict d => match dict_get "module" d with
               | Some (VStr id) => Some id
               | _ => None
               end
  | _ => None
  end.

(** [next((m for m in items if isinstance(m, dict) and m.get("module") == id), None)] *)
Definition find_module (id : string) (items : list value) : option value :=
  List.find (λ m, bool_decide (module_of m = Some id)) items.

(** Replace the first entry with identity [id]. *)
Fixpoint replace_module (id : string) (new : value) (items : list value)
  : list value :=
  match items with
  | [] => []
  | m :: rest =>
      if bool_decide (module_of m = Some id) then new :: rest
      else m :: replace_module id new rest
  end.

(** One overlay entry merged into a module list. *)
Definition merge_module_item (merged : list value) (item : value) : list value :=
  match module_of item with
  | Some id =>
      match find_module id merged with
      | Some existing => replace_module id (merge_value existing item) merged
      | None => (merged ++ [item])%list
      end
  | None => (merged ++ [item])%list
  end.

(** Modelled from the spec: the module-list rule of section 4.1 (missing
    from this repository with the rest of [amplifier_profiles.merger]).
    Parent entries come first, in parent order; an overlay entry whose
    [module] matches a parent entry is merged into it field by field
    ([source] replaced only when the overlay gives one, [config] merged
    recursively), any other overlay entry is appended in overlay order.
    The spec leaves entries without a [module] key open; they are passed
    through here. *)
Definition merge_module_lists (parent child : list value) : list value :=
  fold_left merge_module_item child parent.

(** One top-level key of the overlay merged into the running result. *)
Definition merge_key (merged : dict) (kv : string * value) : dict :=
  match dict_get kv.1 merged with
  | None => dict_set kv.1 kv.2 merged
  | Some pv =>
      if is_module_section kv.1 then
        match pv, kv.2 with
        | VList pl, VList cl =>
            dict_set kv.1 (VList (merge_module_lists pl cl)) merged
        | _, _ => dict_set kv.1 kv.2 merged
        end
      else dict_set kv.1 (merge_value pv kv.2) merged
  end.

(** Modelled from the spec: [merge_profile_dicts(parent, child)], the
    generic merge of section 4.1, whose source is in the profiles library
    and not in this repository.  Scalars are overridden, nested objects
    merged recursively, module lists merged by [module] identity. *)
Definition merge_profile_dicts (parent child : dict) : dict :=
  fold_left merge_key child parent.

End Merger.

(** ** agent_config.py *)

Module AgentConfig.
Import Py Merger.

(** [merge_configs(parent, overlay)].  The overlay's [agents] entry is
    popped before the generic merge and applied afterwards as a filter over
    the parent's [agents] mapping.  [parent_agents.items()] raises when the
    parent's [agents] is not a mapping. *)
Definition merge_configs (parent overlay : dict) : result dict :=
  let agent_filter := default VNone (dict_get "agents" overlay) in
  let overlay_copy := dict_remove "agents" overlay in
  let result := merge_profile_dicts parent overlay_copy in
  match agent_filter with
  | VStr "none" => Ok (dict_set "agents" (VDict []) result)
  | VList names =>
      match default (VDict []) (dict_get "agents" parent) with
      | VDict parent_agents =>
          Ok (dict_set "agents"
                (VDict (dict_filter_keys (name_in names) parent_agents)) result)
      | _ => Raise (AttributeError "object has no attribute 'items'")
      end
  | _ => Ok result
  end.

(** [validate_agent_config(config)]: the warnings it logs and the value
    it returns.  [config.get("meta", {})] and [config.get("system", {})]
    are tested with [in], which raises for a value that is not a
    container; the test on [meta] is made before the name check, whether
    or not there is a top-level name. *)
Definition validate_agent_config (config : dict) : result (list string * bool) :=
  let has_top_level_name := dict_has "name" config in
  has_meta_name ←
    (if dict_has "meta" config
     then py_contains (default (VDict []) (dict_get "meta" config)) "name"
     else Ok false);
  if negb has_top_level_name && negb has_meta_name then
    Raise (ValueError
             "Agent config must have 'name' (either at top level or in 'meta' section)")
  else
    no_instruction ←
      (if dict_has "system" config
       then present ← py_contains (default (VDict []) (dict_get "system" config))
                        "instruction";
            Ok (negb present)
       else Ok false);
    Ok ((if no_instruction : bool
         then ["Agent has 'system' section but no 'instruction'"]
         else []),
        true).

End AgentConfig.

(** ** commands/profile.py: provenance tracking *)

Module Profile.
Import Py Merger.

(** A provenance value: a profile name, or the pair
    [(profile_name, old_source)] of an override.  [Unset] is the empty
    mapping the [agents] slot starts with. *)
Inductive source : Type :=
| Unset
| Label (name : string)
| Override (name : string) (previous : source).

(** [if isinstance(old_source, tuple): old_source = old_source[0]] *)
Definition first_of (old_source : source) : source :=
  match old_source with
  | Override name _ => Label name
  | _ => old_source
  end.

(** The [sources] dictionary.  [src_modules] holds the three entries
    [sources["providers"]], [sources["tools"]] and [sources["hooks"]];
    [src_config_modified_by] is [None] until the key is first set. *)
Record sources : Type := {
  src_session : gmap string source;
  src_modules : gmap string (gmap string source);
  src_agents : source;
  src_config_fields : gmap string (gmap string source);
  src_config_modified_by : option (gmap string (gmap string string));
}.

Definition initial_sources : sources := {|
  src_session := ∅;
  src_modules := {[ "providers" := ∅; "tools" := ∅; "hooks" := ∅ ]};
  src_agents := Unset;
  src_config_fields := ∅;
  src_config_modified_by := None;
|}.

Definition set_session (f : gmap string source → gmap string source)
  (s : sources) : sources :=
  {| src_session := f (src_session s);
     src_modules := src_modules s;
     src_agents := src_agents s;
     src_config_fields := src_config_fields s;
     src_config_modified_by := src_config_modified_by s |}.

(** [sources[section][module_id] = v] *)
Definition set_module (section module_id : string) (v : source)
  (s : sources) : sources :=
  {| src_session := src_session s;
     src_modules :=
       <[section := <[module_id := v]> (src_modules s !!! section)]> (src_modules s);
     src_agents := src_agents s;
     src_config_fields := src_config_fields s;
     src_config_modified_by := src_config_modified_by s |}.

Definition set_agents (v : source) (s : sources) : sources :=
  {| src_session := src_session s;
     src_modules := src_modules s;
     src_agents := v;
     src_config_fields := src_config_fields s;
     src_config_modified_by := src_config_modified_by s |}.

Definition set_config_fields
  (f : gmap string (gmap string source) → gmap string (gmap string source))
  (s : sources) : sources :=
  {| src_session := src_session s;
     src_modules := src_modules s;
     src_agents := src_agents s;
     src_config_fields := f (src_config_fields s);
     src_config_modified_by := src_config_modified_by s |}.

(** The three statements that record who last modified a module's config:
    the section's entry of [config_modified_by] is created when missing,
    then [module_id] is set in it. *)
Definition mark_config_modified (section module_id profile_name : string)
  (s : sources) : sources :=
  let by_section := default ∅ (src_config_modified_by s) in
  let by_section :=
    if decide (is_Some (by_section !! section)) then by_section
    else <[section := ∅]> by_section in
  {| src_session := src_session s;
     src_modules := src_modules s;
     src_agents := src_agents s;
     src_config_fields := src_config_fields s;
     src_config_modified_by :=
       Some (<[section := <[module_id := profile_name]> (by_section !!! section)]>
               by_section) |}.

(** [f"{section}.{module_id}"] *)
Definition config_key (section module_id : string) : string :=
  section +:+ "." +:+ module_id.

(** The session fields of one chain member (lines 143-155). *)
Definition track_session_field (profile_name : string) (merged_so_far : dict)
  (s : sources) (entry : string * value) : result sources :=
  let field := entry.1 in
  present ← py_contains (default (VDict []) (dict_get "session" merged_so_far)) field;
  if negb present then
    Ok (set_session <[field := Label profile_name]> s)
  else
    match src_session s !! field with
    | None => Raise (KeyError field)
    | Some old_source =>
        Ok (set_session <[field := Override profile_name (first_of old_source)]> s)
    end.

Definition track_session (profile_dict : dict) (profile_name : string)
  (merged_so_far : dict) (s : sources) : result sources :=
  match dict_get "session" profile_dict with
  | Some (VDict session) =>
      fold_result (track_session_field profile_name merged_so_far) s session
  | _ => Ok s
  end.

(** [existing_module]: the entry of the merged section with this identity.
    Iterating a mapping or a string yields strings, none of them a mapping;
    a value that is not iterable raises. *)
Definition existing_module (merged_so_far : dict) (section module_id : string)
  : result (option value) :=
  match default (VList []) (dict_get section merged_so_far) with
  | VList merged_section => Ok (find_module module_id merged_section)
  | VDict _ | VStr _ => Ok None
  | _ => Raise (TypeError "object is not iterable")
  end.

(** One config field of an entry for an existing module (lines 201-212). *)
Definition track_config_field (profile_name cfg_key : string)
  (existing : value) (old_source : source)
  (s : sources) (entry : string * value) : result sources :=
  let cfg_field := entry.1 in
  let existing_config :=
    match existing with
    | VDict e => default (VDict []) (dict_get "config" e)
    | _ => VDict []
    end in
  present ← py_contains existing_config cfg_field;
  let fields := src_config_fields s !!! cfg_key in
  if negb present then
    Ok (set_config_fields <[cfg_key := <[cfg_field := Label profile_name]> fields]> s)
  else
    let old_cfg_source := default old_source (fields !! cfg_field) in
    Ok (set_config_fields
          <[cfg_key := <[cfg_field := Override profile_name old_cfg_source]> fields]> s).

(** Who owns an existing module after an entry for it (lines 183-193): an
    entry with a [source] redefines the module, an entry with only a
    [config] leaves it with its previous owner and is recorded in
    [config_modified_by], any other entry changes nothing. *)
Definition track_owner (section module_id profile_name : string)
  (entry : dict) (old_source : source) (s : sources) : sources :=
  if dict_has "source" entry then
    set_module section module_id (Override profile_name old_source) s
  else if dict_has "config" entry then
    mark_config_modified section module_id profile_name
      (set_module section module_id old_source s)
  else s.

(** One item of a module list of a chain member (lines 163-212). *)
Definition track_item (section profile_name : string) (merged_so_far : dict)
  (s : sources) (item : value) : result sources :=
  match item with
  | VDict entry =>
      match dict_get "module" entry with
      | Some (VStr module_id) =>
          existing ← existing_module merged_so_far section module_id;
          match existing with
          | None =>
              Ok (set_config_fields <[config_key section module_id := ∅]>
                    (set_module section module_id (Label profile_name) s))
          | Some existing =>
              match (src_modules s !!! section) !! module_id with
              | None => Raise (KeyError module_id)
              | Some old_source =>
                  let old_source := first_of old_source in
                  let s :=
                    track_owner section module_id profile_name entry old_source s in
                  match dict_get "config" entry with
                  | Some (VDict config) =>
                      let cfg_key := config_key section module_id in
                      let s :=
                        if decide (is_Some (src_config_fields s !! cfg_key)) then s
                        else set_config_fields <[cfg_key := ∅]> s in
                      fold_result
                        (track_config_field profile_name cfg_key existing old_source)
                        s config
                  | _ => Ok s
                  end
              end
          end
      | _ => Ok s
      end
  | _ => Ok s
  end.

(** One module-list section of a chain member (lines 158-162). *)
Definition track_section (profile_dict : dict) (profile_name : string)
  (merged_so_far : dict) (s : sources) (section : string) : result sources :=
  match dict_get section profile_dict with
  | Some (VList items) =>
      fold_result (track_item section profile_name merged_so_far) s items
  | _ => Ok s
  end.

(** The [agents] slot, one opaque unit (lines 215-222). *)
Definition track_agents (profile_dict : dict) (profile_name : string)
  (merged_so_far : dict) (s : sources) : sources :=
  if dict_has "agents" profile_dict then
    if negb (dict_has "agents" merged_so_far) then
      set_agents (Label profile_name) s
    else
      set_agents (Override profile_name (first_of (src_agents s))) s
  else s.

(** The body of the loop over the chain (lines 139-225): provenance of the
    member's contributions, then the member merged into the running total. *)
Definition track_profile (state : dict * sources) (member : dict * string)
  : result (dict * sources) :=
  let '(merged_so_far, s) := state in
  let '(profile_dict, profile_name) := member in
  s ← track_session profile_dict profile_name merged_so_far s;
  s ← fold_result (track_section profile_dict profile_name merged_so_far) s
        module_sections;
  let s := track_agents profile_dict profile_name merged_so_far s in
  Ok (merge_profile_dicts merged_so_far profile_dict, s).

(** [build_effective_config_with_sources(chain_dicts, chain_names)]: the
    walk over [zip(chain_dicts, chain_names)].  The result pairs the merged
    state with [sources]; the effective config the source returns is a
    reshaping of that merged state by module name, which no provenance
    depends on. *)
Definition build_effective_config_with_sources
  (chain_dicts : list dict) (chain_names : list string)
  : result (dict * sources) :=
  fold_result track_profile ([], initial_sources) (zip chain_dicts chain_names).

(** A chain member of the shape of a ConfigNode (spec, section 3): keys
    occur once in a mapping; [session], when present, is a mapping; each module list,
    when present, is a sequence of module entries, mappings with a string
    [module] and, when present, a mapping [config]. *)
Definition module_entry (item : value) : Prop :=
  ∃ entry id, item = VDict entry ∧ unique_keys entry ∧
    dict_get "module" entry = Some (VStr id) ∧
    (∀ c, dict_get "config" entry = Some c → ∃ cfg, c = VDict cfg).

Definition config_node (d : dict) : Prop :=
  unique_keys d ∧
  (∀ v, dict_get "session" d = Some v →
     ∃ session, v = VDict session ∧ unique_keys session) ∧
  (∀ section v, section ∈ module_sections → dict_get section d = Some v →
     ∃ items, v = VList items ∧ Forall module_entry items).

(** The labels of the chain members whose [session] sets [field], in chain
    order. *)
Definition sets_session_field (field : string) (profile_dict : dict) : bool :=
  match dict_get "session" profile_dict with
  | Some (VDict session) => dict_has field session
  | _ => false
  end.

Definition session_setters (field : string) (chain : list (dict * string))
  : list string :=
  (filter (λ member, sets_session_field field member.1 = true) chain).*2.

(** *** Rendering *)



End Profile.

(** ** session_store.py *)

Module SessionStore.
Import Py.

(** *** JSON text and files *)

(** What [json.dumps(v)] encodes: the plain JSON value the text denotes,
    or [None] when it raises [TypeError]. *)
Fixpoint to_json (v : value) : option value :=
  match v with
  | VNone | VBool _ | VInt _ | VFloat _ | VStr _ => Some v
  | VList l =>
      VList <$>
        (fix items (l : list value) : option (list value) :=
           match l with
           | [] => Some []
           | x :: rest => x' ← to_json x; rest' ← items rest; Some (x' :: rest')
           end) l
  | VDict d =>
      VDict <$>
        (fix entries (d : list (string * value)) : option dict :=
           match d with
           | [] => Some []
           | (k, x) :: rest =>
               x' ← to_json x; rest' ← entries rest; Some ((k, x') :: rest')
           end) d
  | VObject _ json _ =>
      match json with
      | Some j => to_json j
      | None => None
      end
  end.

(** The two loops of [to_json], by name. *)
Fixpoint to_json_items (l : list value) : option (list value) :=
  match l with
  | [] => Some []
  | x :: rest => x' ← to_json x; rest' ← to_json_items rest; Some (x' :: rest')
  end.

Fixpoint to_json_entries (d : list (string * value)) : option dict :=
  match d with
  | [] => Some []
  | (k, x) :: rest =>
      x' ← to_json x; rest' ← to_json_entries rest; Some ((k, x') :: rest')
  end.

(** A text file is the sequence of what was written to it: the JSON text
    of a value (compact, or pretty-printed with [indent=2]), a newline, or
    text that is neither blank nor JSON (a partial write, a damaged line). *)
Inductive chunk : Type :=
| CJson (pretty : bool) (v : value)
| CNewline
| CGarbage.

(** A file on disk: text, bytes that are not valid UTF-8, or a path that
    [open()] refuses with an [OSError]. *)
Inductive file : Type :=
| Text (chunks : list chunk)
| Binary
| Unreadable.

Definition readable (f : file) : bool :=
  match f with Unreadable => false | _ => true end.

(** What a write callback does to the handle it is given: the chunks it
    writes, and the exception it then raises, if any. *)
Definition writer : Type := list chunk * option exn.

(** [json.dump(v, tmp_file)] *)
Definition json_dump (pretty : bool) (v : value) : writer :=
  match to_json v with
  | Some j => ([CJson pretty j], None)
  | None => ([CGarbage], Some (TypeError "Object is not JSON serializable"))
  end.

(** The lines of a text. *)
Fixpoint split_lines (t : list chunk) : list (list chunk) :=
  match t with
  | [] => [[]]
  | CNewline :: rest => [] :: split_lines rest
  | c :: rest =>
      match split_lines rest with
      | line :: lines => (c :: line) :: lines
      | [] => [[c]]
      end
  end.

(** Pretty-printed JSON stays on one line only for scalars and empty
    containers. *)
Definition one_line (v : value) : bool :=
  match v with
  | VList (_ :: _) | VDict (_ :: _) => false
  | _ => true
  end.

(** [json.loads(line)] for a non-empty stripped line. *)
Definition json_loads_line (line : list chunk) : result value :=
  match line with
  | [CJson pretty v] =>
      if negb pretty || one_line v then Ok v
      else Raise (JSONDecodeError "Expecting property name")
  | _ => Raise (JSONDecodeError "Expecting value")
  end.

(** The loop of [_load_transcript] over an open file: empty lines are
    skipped, every other line is parsed. *)
Fixpoint parse_lines (lines : list (list chunk)) : result (list value) :=
  match lines with
  | [] => Ok []
  | [] :: rest => parse_lines rest
  | line :: rest =>
      v ← json_loads_line line; vs ← parse_lines rest; Ok (v :: vs)
  end.

(** [open(path, encoding="utf-8")] and the line loop. *)
Definition read_jsonl (f : file) : result (list value) :=
  match f with
  | Text t => parse_lines (split_lines t)
  | Binary => Raise (UnicodeDecodeError "'utf-8' codec can't decode byte")
  | Unreadable => Raise (OSError "Permission denied" None)
  end.

Definition is_newline (c : chunk) : bool :=
  match c with CNewline => true | _ => false end.

(** [open(path, encoding="utf-8")] and [json.load(f)]: the whole text is
    one document, the white space around it ignored. *)
Definition read_json (f : file) : result value :=
  match f with
  | Text t =>
      match filter (λ c, is_newline c = false) t with
      | [CJson _ v] => Ok v
      | _ => Raise (JSONDecodeError "Expecting value")
      end
  | Binary => Raise (UnicodeDecodeError "'utf-8' codec can't decode byte")
  | Unreadable => Raise (OSError "Permission denied" None)
  end.

(** *** The file system *)

(** A session directory and the listing of the base directory. *)
Record directory : Type := {
  entries : gmap string file;
  mtime : Z;
}.

Inductive node : Type :=
| Dir (d : directory)
| File (f : file).

(** What the operating system decides: the random part of temporary
    names, the clock, and which system calls fail. *)
Record os : Type := {
  os_random : string;
  os_now : Z;
  os_now_iso : string;
  os_create_fails : bool;
  os_flush_fails : bool;
  os_replace_fails : bool;
  os_unlink_fails : bool;
  os_copy_fails : bool;
  os_stat_fails : string → bool;
  os_rmtree_fails : string → bool;
}.

Definition set_entries (o : os) (f : gmap string file → gmap string file)
  (d : directory) : directory :=
  {| entries := f (entries d); mtime := os_now o |}.

(** *** Atomic write *)

(** The [except] clause of [_atomic_write]: the temporary file is unlinked
    when it was created, failures of the unlink are suppressed, and an
    [OSError] chained to the cause is raised. *)
Definition write_failed (o : os) (d : directory) (temp_path : option string)
  (error_msg : string) (e : exn) : directory * result unit :=
  let d :=
    match temp_path with
    | Some temp => if os_unlink_fails o then d else set_entries o (delete temp) d
    | None => d
    end in
  (d, Raise (OSError (error_msg +:+ ": " +:+ exn_str e) (Some e))).

(** [_atomic_write(target_file, write_func, prefix, error_msg)] in the
    directory [d] of the target. *)
Definition _atomic_write (o : os) (d : directory) (target_file : string)
  (write_func : writer) (prefix error_msg : string) : directory * result unit :=
  let temp := prefix +:+ os_random o +:+ ".tmp" in
  if os_create_fails o then
    write_failed o d None error_msg (OSError "No space left on device" None)
  else if decide (is_Some (entries d !! temp)) then
    write_failed o d None error_msg (FileExistsError "No usable temporary file name found")
  else
    let d := set_entries o <[temp := Text write_func.1]> d in
    match write_func.2 with
    | Some e => write_failed o d (Some temp) error_msg e
    | None =>
        if os_flush_fails o then
          write_failed o d (Some temp) error_msg (OSError "No space left on device" None)
        else if os_replace_fails o then
          write_failed o d (Some temp) error_msg (OSError "Permission denied" None)
        else
          (set_entries o (λ es, <[target_file := Text write_func.1]> (delete temp es)) d,
           Ok ())
    end.

(** *** Sanitizer *)

(** [_sanitize_value(value)]; the result [VNone] is Python's [None].  The
    mapping case is the loop of [_sanitize_message], which
    [_sanitize_value] calls for a [dict]. *)
Fixpoint _sanitize_value (value : Py.value) : Py.value :=
  match value with
  | VNone | VBool _ | VInt _ | VFloat _ | VStr _ => value
  | VDict message =>
      VDict
        ((fix items (message : list (string * Py.value)) (sanitized : dict) : dict :=
            match message with
            | [] => sanitized
            | (key, value) :: rest =>
                if bool_decide (key ∈ ["thinking_block"; "content_blocks"]) then
                  items rest
                    (if bool_decide (key = "thinking_block") then
                       match value with
                       | VDict block =>
                           match dict_get "text" block with
                           | Some text => dict_set "thinking_text" text sanitized
                           | None => sanitized
                           end
                       | _ => sanitized
                       end
                     else sanitized)
                else
                  items rest
                    (match _sanitize_value value with
                     | VNone => sanitized
                     | sanitized_value => dict_set key sanitized_value sanitized
                     end)
            end) message [])
  | VList l =>
      VList
        ((fix items (l : list Py.value) : list Py.value :=
            match l with
            | [] => []
            | item :: rest =>
                match _sanitize_value item with
                | VNone => items rest
                | sanitized_item => sanitized_item :: items rest
                end
            end) l)
  | VObject _ _ _ =>
      match to_json value with
      | Some _ => value
      | None => VNone
      end
  end.

(** The two loops of the sanitizer, by name: the [for key, value in
    message.items()] of [_sanitize_message] with the dictionary built so
    far, and the [for item in value] of [_sanitize_value]. *)
Fixpoint sanitize_entries (message : list (string * value)) (sanitized : dict)
  : dict :=
  match message with
  | [] => sanitized
  | (key, v) :: rest =>
      if bool_decide (key ∈ ["thinking_block"; "content_blocks"]) then
        sanitize_entries rest
          (if bool_decide (key = "thinking_block") then
             match v with
             | VDict block =>
                 match dict_get "text" block with
                 | Some text => dict_set "thinking_text" text sanitized
                 | None => sanitized
                 end
             | _ => sanitized
             end
           else sanitized)
      else
        sanitize_entries rest
          (match _sanitize_value v with
           | VNone => sanitized
           | sanitized_value => dict_set key sanitized_value sanitized
           end)
  end.

Fixpoint sanitize_list (l : list value) : list value :=
  match l with
  | [] => []
  | item :: rest =>
      match _sanitize_value item with
      | VNone => sanitize_list rest
      | sanitized_item => sanitized_item :: sanitize_list rest
      end
  end.

(** [_sanitize_message(message)] *)
Definition _sanitize_message (message : value) : value :=
  match message with
  | VDict _ => _sanitize_value message
  | _ =>
      match _sanitize_value message with
      | VNone => VDict []
      | sanitized => sanitized
      end
  end.

(** *** Saving *)

(** [str.isspace] on the characters of an ASCII string. *)
Definition is_space (c : Ascii.ascii) : bool :=
  let n := Ascii.nat_of_ascii c in
  ((9 <=? n) && (n <=? 13) || (28 <=? n) && (n <=? 32))%nat.

(** [not s.strip()] *)
Fixpoint blank (s : string) : bool :=
  match s with
  | EmptyString => true
  | String c rest => is_space c && blank rest
  end.

(** The guard that opens [save], [load] and [save_profile]. *)
Definition check_session_id (session_id : string) : result unit :=
  if blank session_id then Raise (ValueError "session_id cannot be empty")
  else if string_contains "/" session_id || string_contains "\" session_id
          || bool_decide (session_id ∈ ["."; ".."]) then
    Raise (ValueError ("Invalid session_id: " +:+ session_id))
  else Ok ().

(** [message if isinstance(message, dict) else message.model_dump()] *)
Definition msg_dict (message : value) : result dict :=
  match message with
  | VDict d => Ok d
  | VObject _ _ (Some d) => Ok d
  | _ => Raise (AttributeError "object has no attribute 'model_dump'")
  end.

(** [msg_dict.get("role") in ("system", "developer")] *)
Definition internal_role (d : dict) : bool :=
  match dict_get "role" d with
  | Some (VStr role) => bool_decide (role ∈ ["system"; "developer"])
  | _ => false
  end.

(** The callback [write_transcript] of [_save_transcript]. *)
Fixpoint write_transcript (transcript : list value) : writer :=
  match transcript with
  | [] => ([], None)
  | message :: rest =>
      match msg_dict message with
      | Raise e => ([], Some e)
      | Ok d =>
          if internal_role d then write_transcript rest
          else
            match json_dump false (_sanitize_message message) with
            | (out, Some e) => (out, Some e)
            | (out, None) =>
                let more := write_transcript rest in
                (out ++ CNewline :: more.1, more.2)%list
            end
      end
  end.

(** The callback [write_metadata] of [_save_metadata]. *)
Definition write_metadata (metadata : value) : writer :=
  json_dump true metadata.

(** [shutil.copy2(file, backup)] when the file exists; a failure is logged
    and nothing else happens. *)
Definition backup (o : os) (d : directory) (name : string) : directory :=
  match entries d !! name with
  | Some f =>
      if os_copy_fails o || negb (readable f) then d
      else set_entries o <[name +:+ ".backup" := f]> d
  | None => d
  end.

Definition _save_transcript (o : os) (session_dir : directory)
  (transcript : list value) : directory * result unit :=
  _atomic_write o (backup o session_dir "transcript.jsonl") "transcript.jsonl"
    (write_transcript transcript) "transcript_" "Failed to save transcript".

Definition _save_metadata (o : os) (session_dir : directory)
  (metadata : value) : directory * result unit :=
  _atomic_write o (backup o session_dir "metadata.json") "metadata.json"
    (write_metadata metadata) "metadata_" "Failed to save metadata".

(** [session_dir.mkdir(parents=True, exist_ok=True)]: the directory that
    is there, a new empty one, or an error when a regular file has the
    name. *)
Definition mkdir (o : os) (name : string) (found : option node)
  : result directory :=
  match found with
  | Some (Dir d) => Ok d
  | Some (File _) => Raise (FileExistsError name)
  | None => Ok {| entries := ∅; mtime := os_now o |}
  end.

(** [save(session_id, transcript, metadata)] on the listing [st] of the
    base directory: the new listing and the outcome. *)
Definition save (o : os) (st : gmap string node) (session_id : string)
  (transcript : list value) (metadata : value) : gmap string node * result unit :=
  match check_session_id session_id with
  | Raise e => (st, Raise e)
  | Ok _ =>
      match mkdir o session_id (st !! session_id) with
      | Raise e => (st, Raise e)
      | Ok session_dir =>
          match _save_transcript o session_dir transcript with
          | (session_dir, Raise e) => (<[session_id := Dir session_dir]> st, Raise e)
          | (session_dir, Ok _) =>
              let '(session_dir, r) := _save_metadata o session_dir metadata in
              (<[session_id := Dir session_dir]> st, r)
          end
      end
  end.

(** *** Loading *)

(** [except (OSError, json.JSONDecodeError)] *)
Definition recovered_from (e : exn) : bool :=
  is_OSError e || match e with JSONDecodeError _ => true | _ => false end.

(** One tier of the recovery: the file is read when it exists; [None]
    means the next tier is tried. *)
Definition try_read {A : Type} (read : file → result A) (f : option file)
  : option (result A) :=
  match f with
  | Some f =>
      match read f with
      | Ok a => Some (Ok a)
      | Raise e => if recovered_from e then None else Some (Raise e)
      end
  | None => None
  end.

Definition _load_transcript (session_dir : directory) : result (list value) :=
  match try_read read_jsonl (entries session_dir !! "transcript.jsonl") with
  | Some r => r
  | None =>
      match try_read read_jsonl (entries session_dir !! "transcript.jsonl.backup") with
      | Some r => r
      | None => Ok []
      end
  end.

Definition minimal_metadata (o : os) (name : string) : value :=
  VDict [("session_id", VStr name); ("recovered", VBool true);
         ("recovery_time", VStr (os_now_iso o))].

Definition _load_metadata (o : os) (name : string) (session_dir : directory)
  : result value :=
  match try_read read_json (entries session_dir !! "metadata.json") with
  | Some r => r
  | None =>
      match try_read read_json (entries session_dir !! "metadata.json.backup") with
      | Some r => r
      | None => Ok (minimal_metadata o name)
      end
  end.

(** The files under a path of the base directory; nothing exists under a
    path that is a regular file. *)
Definition files_under (n : node) : directory :=
  match n with
  | Dir d => d
  | File _ => {| entries := ∅; mtime := 0 |}
  end.

(** [load(session_id)] *)
Definition load (o : os) (st : gmap string node) (session_id : string)
  : result (list value * value) :=
  _ ← check_session_id session_id;
  match st !! session_id with
  | None => Raise (FileNotFoundError ("Session '" +:+ session_id +:+ "' not found"))
  | Some n =>
      transcript ← _load_transcript (files_under n);
      metadata ← _load_metadata o session_id (files_under n);
      Ok (transcript, metadata)
  end.

(** [exists(session_id)] *)
Definition exists_ (st : gmap string node) (session_id : string) : bool :=
  match check_session_id session_id with
  | Raise _ => false
  | Ok _ =>
      match st !! session_id with
      | Some (Dir _) => true
      | _ => false
      end
  end.

(** *** Batch operations *)

(** [name.startswith(".")] *)
Definition dot_prefixed (name : string) : bool := String.prefix "." name.

(** [sessions.sort(key=lambda x: x[1], reverse=True)]: stable, newest first. *)
Fixpoint insert_newest_first (x : string * Z) (l : list (string * Z))
  : list (string * Z) :=
  match l with
  | [] => [x]
  | y :: rest =>
      if y.2 <=? x.2 then x :: y :: rest else y :: insert_newest_first x rest
  end.

Definition sort_newest_first (l : list (string * Z)) : list (string * Z) :=
  foldr insert_newest_first [] l.

(** The body of the loop of [list_sessions] for one directory entry. *)
Definition session_entry (o : os) (e : string * node) : option (string * Z) :=
  match e.2 with
  | Dir d =>
      if dot_prefixed e.1 then None
      else Some (e.1, if os_stat_fails o e.1 then 0 else mtime d)
  | File _ => None
  end.

(** [list_sessions()] *)
Definition list_sessions (o : os) (st : gmap string node) : list string :=
  (sort_newest_first (omap (session_entry o) (map_to_list st))).*1.

(** The body of the loop of [cleanup_old_sessions] for one directory
    entry: the listing and the count so far, updated. *)
Definition cleanup_entry (o : os) (cutoff_timestamp : Z)
  (acc : gmap string node * nat) (e : string * node) : gmap string node * nat :=
  match e.2 with
  | Dir d =>
      if dot_prefixed e.1 then acc
      else if os_stat_fails o e.1 then acc
      else if mtime d <? cutoff_timestamp then
        if os_rmtree_fails o e.1 then acc
        else (delete e.1 acc.1, S acc.2)
      else acc
  | File _ => acc
  end.

(** [cleanup_old_sessions(days)] *)
Definition cleanup_old_sessions (o : os) (st : gmap string node) (days : Z)
  : gmap string node * result nat :=
  if days <? 0 then (st, Raise (ValueError "days must be non-negative"))
  else
    let cutoff_timestamp := os_now o - days * 86400 in
    let '(st', removed) :=
      fold_left (cleanup_entry o cutoff_timestamp) (map_to_list st) (st, 0%nat) in
    (st', Ok removed).

(** *** Profile snapshot *)

(** The callback [write_profile] of [save_profile].  [yaml_content] is
    what [yaml.dump(profile, ...)] returns, a text of the YAML library and
    not of this repository, or the exception it raises; the front-matter
    fences and the closing description line are text that is not JSON. *)
Definition write_profile (yaml_content : result (list chunk)) : writer :=
  match yaml_content with
  | Ok text =>
      ([CGarbage; CNewline] ++ text
       ++ [CGarbage; CNewline; CNewline; CGarbage; CNewline], None)%list
  | Raise e => ([CGarbage; CNewline], Some e)
  end.

(** [save_profile(session_id, profile)], with the YAML encoder as a
    parameter. *)
Definition save_profile (yaml_dump : value → result (list chunk)) (o : os)
  (st : gmap string node) (session_id : string) (profile : value)
  : gmap string node * result unit :=
  match check_session_id session_id with
  | Raise e => (st, Raise e)
  | Ok _ =>
      match mkdir o session_id (st !! session_id) with
      | Raise e => (st, Raise e)
      | Ok session_dir =>
          let '(session_dir, r) :=
            _atomic_write o session_dir "profile.md"
              (write_profile (yaml_dump profile)) "profile_"
              "Failed to save profile" in
          (<[session_id := Dir session_dir]> st, r)
      end
  end.

End SessionStore.

(** * Properties *)

Import Py Merger AgentConfig Profile SessionStore.

(** ** Dictionaries *)

Lemma dict_get_set_eq {V} (k : string) (v : V) d :
  dict_get k (dict_set k v d) = Some v.
Proof.
  induction d as [|[k' v'] d IH]; simpl.
  - by rewrite decide_True.
  - destruct (decide (k = k')) as [->|Hne]; simpl.
    + by rewrite decide_True.
    + by rewrite decide_False.
Qed.

Lemma dict_get_set_ne {V} (k k' : string) (v : V) d :
  k ≠ k' → dict_get k (dict_set k' v d) = dict_get k d.
Proof.
  intros Hne. induction d as [|[k'' v''] d IH]; simpl.
  - by rewrite decide_False.
  - destruct (decide (k' = k'')) as [->|Hne']; simpl.
    + by rewrite !decide_False.
    + destruct (decide (k = k'')); [done | apply IH].
Qed.

Lemma dict_get_set {V} (k k' : string) (v : V) d :
  dict_get k (dict_set k' v d) = if decide (k = k') then Some v else dict_get k d.
Proof.
  case_decide as Hk; [subst; apply dict_get_set_eq | by apply dict_get_set_ne].
Qed.

Lemma dict_has_set {V} (k k' : string) (v : V) d :
  dict_has k (dict_set k' v d) = bool_decide (k = k') || dict_has k d.
Proof.
  unfold dict_has. rewrite dict_get_set.
  case_decide; [by rewrite bool_decide_true | by rewrite bool_decide_false].
Qed.

Lemma dict_get_filter_keys {V} (p : string → bool) (k : string) (d : list (string * V)) :
  dict_get k (dict_filter_keys p d) = if p k then dict_get k d else None.
Proof.
  unfold dict_filter_keys. induction d as [|[k' v'] d IH]; simpl.
  - by destruct (p k).
  - rewrite filter_cons. simpl. destruct (decide (p k' = true)) as [Hp|Hp]; simpl.
    + destruct (decide (k = k')) as [->|?]; [by rewrite Hp | apply IH].
    + rewrite IH. destruct (decide (k = k')) as [->|?]; [|done].
      by destruct (p k').
Qed.

Lemma dict_remove_absent {V} (k : string) (d : list (string * V)) :
  Forall (λ kv, kv.1 ≠ k) (dict_remove k d).
Proof.
  unfold dict_remove. apply Forall_forall. intros kv Hin.
  by apply list_elem_of_filter in Hin as [? _].
Qed.

Lemma dict_get_None {V} (k : string) (d : list (string * V)) :
  dict_get k d = None ↔ k ∉ d.*1.
Proof.
  induction d as [|[k' v'] d IH]; simpl.
  - split; [intros _; apply not_elem_of_nil | done].
  - rewrite not_elem_of_cons. destruct (decide (k = k')) as [->|Hne].
    + split; [done | by intros [? _]].
    + rewrite IH. split; [done | by intros [_ ?]].
Qed.

Lemma dict_get_absent {V} (k : string) (d : list (string * V)) :
  Forall (λ kv, kv.1 ≠ k) d → dict_get k d = None.
Proof.
  intros Hall. apply dict_get_None. intros Hin.
  apply list_elem_of_fmap in Hin as ([k' v] & -> & Hin).
  rewrite Forall_forall in Hall. by apply (Hall _ Hin).
Qed.

Lemma name_in_spec (names : list value) (k : string) :
  name_in names k = true ↔ VStr k ∈ names.
Proof.
  unfold name_in. rewrite existsb_exists. split.
  - intros (n & Hin & Hn). apply list_elem_of_In in Hin.
    destruct n; try done. apply bool_decide_eq_true in Hn. by subst.
  - intros Hin. exists (VStr k). split; [by apply list_elem_of_In|].
    by apply bool_decide_eq_true.
Qed.

(** ** The generic merge *)

Lemma merge_key_other (k : string) (merged : dict) (kv : string * value) :
  kv.1 ≠ k → dict_get k (merge_key merged kv) = dict_get k merged.
Proof.
  destruct kv as [key cv]; simpl; intros Hne. unfold merge_key; simpl.
  assert (∀ v, dict_get k (dict_set key v merged) = dict_get k merged) as Hset
    by (intros v; by apply dict_get_set_ne).
  destruct (dict_get key merged) as [pv|]; [|apply Hset].
  destruct (is_module_section key); [|apply Hset].
  destruct pv, cv; apply Hset.
Qed.

(** A key the overlay does not mention keeps the parent's value. *)
Lemma merge_profile_dicts_untouched (k : string) (parent child : dict) :
  Forall (λ kv, kv.1 ≠ k) child →
  dict_get k (merge_profile_dicts parent child) = dict_get k parent.
Proof.
  unfold merge_profile_dicts. revert parent.
  induction child as [|kv child IH]; intros parent Hall; [done|].
  inversion Hall as [|? ? Hkv Hrest]; subst. simpl.
  rewrite IH by done. by apply merge_key_other.
Qed.

(** ** merge_configs *)

(** C1: for a parent whose [agents] is a resolved mapping, [merge_configs]
    returns (it raises nothing) and sets the result's [agents] by the
    overlay's filter: absent or ["all"] leaves the parent's mapping
    unchanged, ["none"] gives the empty mapping, and a list of names gives
    the restriction of the parent's mapping to the keys in the list, so
    that a listed name the parent does not have is simply not there. *)
Theorem merge_configs_agents_filter (parent overlay agents : dict) :
  dict_get "agents" parent = Some (VDict agents) →
  ∃ result, merge_configs parent overlay = Ok result ∧
    (dict_get "agents" overlay = None ∨
     dict_get "agents" overlay = Some (VStr "all") →
       dict_get "agents" result = Some (VDict agents)) ∧
    (dict_get "agents" overlay = Some (VStr "none") →
       dict_get "agents" result = Some (VDict [])) ∧
    (∀ names, dict_get "agents" overlay = Some (VList names) →
       ∃ restricted,
         dict_get "agents" result = Some (VDict restricted) ∧
         restricted = dict_filter_keys (name_in names) agents ∧
         ∀ k v, dict_get k restricted = Some v ↔
                VStr k ∈ names ∧ dict_get k agents = Some v).
Proof.
  intros Hparent.
  assert (dict_get "agents"
            (merge_profile_dicts parent (dict_remove "agents" overlay))
          = Some (VDict agents)) as Hkept.
  { rewrite merge_profile_dicts_untouched; [done | apply dict_remove_absent]. }
  unfold merge_configs. rewrite Hparent. simpl.
  destruct (dict_get "agents" overlay) as [filter_value|] eqn:Hfilter; simpl.
  - destruct filter_value as [| | | |s|names| |].
    1-4, 7-8: (eexists; split; [done|]; repeat split;
               [by intros [|] | done | done]).
    + destruct (decide (s = "none")) as [->|Hnone].
      * eexists; split; [done|]. repeat split; try done.
        -- by intros [|].
        -- intros _. apply dict_get_set_eq.
      * assert (∃ r, (match s with
                      | "none" => Ok (dict_set "agents" (VDict [])
                                        (merge_profile_dicts parent (dict_remove "agents" overlay)))
                      | _ => Ok (merge_profile_dicts parent (dict_remove "agents" overlay))
                      end : result dict) = Ok r ∧
                     r = merge_profile_dicts parent (dict_remove "agents" overlay))
          as (r & Hr & ->).
        { repeat (match goal with
                  | |- context [match ?x with _ => _ end] => destruct x
                  end; eauto); done. }
        eexists; split; [exact Hr|]. repeat split; try done.
        intros [=]. done.
    + eexists; split; [done|]. repeat split; try done.
      * by intros [|].
      * intros names' [= <-]. eexists. split; [apply dict_get_set_eq|].
        split; [done|].
        intros k v. rewrite dict_get_filter_keys, <- name_in_spec.
           destruct (name_in names k); split;
          [by intros ? | by intros [_ ?] | done | by intros [? _]].
  - eexists; split; [done|]. repeat split; try done.
Qed.

Definition two_agents : dict :=
  [("session", VDict [("orchestrator", VStr "loop-basic")]);
   ("agents", VDict [("foo", VDict []); ("bar", VDict [])])].

Lemma merge_configs_agents_filter_witness :
  ∃ result,
    merge_configs two_agents [("agents", VList [VStr "foo"; VStr "zed"])] = Ok result ∧
    dict_get "agents" result = Some (VDict [("foo", VDict [])]).
Proof.
  destruct (merge_configs_agents_filter two_agents
              [("agents", VList [VStr "foo"; VStr "zed"])]
              [("foo", VDict []); ("bar", VDict [])] eq_refl)
    as (result & Hresult & _ & _ & Hlist).
  exists result. split; [exact Hresult|].
  destruct (Hlist _ eq_refl) as (restricted & Hget & -> & _). exact Hget.
Defined.

(** C7: the empty overlay is a right identity of the merge, for every
    parent: [merge_configs parent {}] returns [parent] itself. *)
Theorem merge_configs_empty_overlay (parent : dict) :
  merge_configs parent [] = Ok parent ∧ merge_profile_dicts parent [] = parent.
Proof. split; reflexivity. Qed.

(** ** Loops by name *)

Lemma merge_value_dict (pd cd : dict) :
  merge_value (VDict pd) (VDict cd) = VDict (merge_entries cd pd).
Proof. reflexivity. Qed.


Lemma to_json_dict (d : dict) :
  to_json (VDict d) = VDict <$> to_json_entries d.
Proof. reflexivity. Qed.

Lemma sanitize_value_dict (d : dict) :
  _sanitize_value (VDict d) = VDict (sanitize_entries d []).
Proof. reflexivity. Qed.

Lemma sanitize_value_list (l : list value) :
  _sanitize_value (VList l) = VList (sanitize_list l).
Proof. reflexivity. Qed.

(** ** Strings *)

Lemma append_cons (a : Ascii.ascii) (s t : string) :
  String a s +:+ t = String a (s +:+ t).
Proof. reflexivity. Qed.

Lemma prefix_spec (n h : string) :
  String.prefix n h = true ↔ ∃ b, h = n +:+ b.
Proof.
  revert h. induction n as [|a n IH]; intros h.
  - split; [intros _; by exists h | intros _; by destruct h].
  - destruct h as [|c h]; simpl.
    + split; [done | by intros [b Hb]].
    + destruct (Ascii.ascii_dec a c) as [->|Hne].
      * rewrite IH. split; intros [b Hb]; exists b.
        -- by rewrite append_cons, Hb.
        -- rewrite append_cons in Hb. by simplify_eq.
      * split; [done | intros [b Hb]]. rewrite append_cons in Hb. by simplify_eq.
Qed.

Lemma string_contains_spec (n h : string) :
  string_contains n h = true ↔ ∃ a b, h = a +:+ n +:+ b.
Proof.
  induction h as [|c h IH].
  - cbn [string_contains]. rewrite orb_false_r, prefix_spec. split.
    + intros [b Hb]. by exists "", b.
    + intros (a & b & Hab). destruct a; [by exists b|]. by rewrite append_cons in Hab.
  - cbn [string_contains]. rewrite orb_true_iff, prefix_spec, IH. split.
    + intros [[b Hb]|(a & b & Hab)]; [by exists "", b|].
      exists (String c a), b. by rewrite append_cons, Hab.
    + intros (a & b & Hab). destruct a as [|c' a]; [left; by exists b|].
      right. exists a, b. rewrite append_cons in Hab. by simplify_eq.
Qed.

(** ** Session ids *)

(** The ids the guard refuses, in the words of the spec: empty, holding a
    path separator, or one of the two dot names. *)
Definition refused_id (session_id : string) : Prop :=
  session_id = "" ∨
  (∃ a b, session_id = a +:+ "/" +:+ b) ∨
  (∃ a b, session_id = a +:+ "\" +:+ b) ∨
  session_id = "." ∨ session_id = "..".

Lemma check_session_id_refuses (session_id : string) :
  refused_id session_id →
  ∃ msg, check_session_id session_id = Raise (ValueError msg).
Proof.
  unfold check_session_id. intros Hbad.
  destruct (blank session_id) eqn:Hblank; [by eexists|].
  destruct Hbad as [-> | [Hsep | [Hsep | [-> | ->] ] ] ]; try done; try by eexists.
  - apply string_contains_spec in Hsep. rewrite Hsep. by eexists.
  - apply string_contains_spec in Hsep. rewrite Hsep, orb_true_r. by eexists.
Qed.

(** C9: an id that is empty, holds [/] or [\], or is [.] or [..] makes
    [save] raise a validation error and leave the base directory as it
    was, makes [load] raise the same error, and makes [exists] answer
    false. *)
Theorem invalid_session_id_rejected (o : os) (st : gmap string node)
  (session_id : string) (transcript : list value) (metadata : value) :
  refused_id session_id →
  ∃ msg,
    save o st session_id transcript metadata = (st, Raise (ValueError msg)) ∧
    load o st session_id = Raise (ValueError msg) ∧
    exists_ st session_id = false.
Proof.
  intros Hbad. destruct (check_session_id_refuses _ Hbad) as [msg Hmsg].
  exists msg. unfold save, load, exists_. by rewrite Hmsg.
Qed.

Definition quiet_os : os := {|
  os_random := "k3x9";
  os_now := 1700000000;
  os_now_iso := "2023-11-14T22:13:20+00:00";
  os_create_fails := false;
  os_flush_fails := false;
  os_replace_fails := false;
  os_unlink_fails := false;
  os_copy_fails := false;
  os_stat_fails := λ _, false;
  os_rmtree_fails := λ _, false;
|}.

Lemma invalid_session_id_rejected_witness :
  ∃ msg,
    save quiet_os ∅ "../x" [] (VDict []) = (∅, Raise (ValueError msg)) ∧
    load quiet_os ∅ "../x" = Raise (ValueError msg) ∧
    exists_ ∅ "../x" = false.
Proof.
  apply (invalid_session_id_rejected quiet_os ∅ "../x" [] (VDict [])).
  right; left. by exists "..", "x".
Defined.

(** ** Atomic write *)

(** C4: when the temporary file was created and the write callback then
    raises, [_atomic_write] raises an [OSError] that wraps the cause, every
    file of the directory other than the temporary one (the destination
    among them) is as it was, and when the unlink goes through the
    temporary file is gone too: the directory listing is unchanged. *)
Theorem atomic_write_failure (o : os) (d : directory) (target_file : string)
  (written : list chunk) (e : exn) (prefix error_msg : string) :
  let temp := prefix +:+ os_random o +:+ ".tmp" in
  os_create_fails o = false →
  entries d !! temp = None →
  let after := _atomic_write o d target_file (written, Some e) prefix error_msg in
  after.2 = Raise (OSError (error_msg +:+ ": " +:+ exn_str e) (Some e)) ∧
  (∀ name, name ≠ temp → entries after.1 !! name = entries d !! name) ∧
  (target_file ≠ temp → entries after.1 !! target_file = entries d !! target_file) ∧
  (os_unlink_fails o = false → entries after.1 = entries d).
Proof.
  intros temp Hcreate Hfresh after. subst after. unfold _atomic_write.
  rewrite Hcreate. fold temp. rewrite decide_False by (rewrite Hfresh; by intros [? ?]).
  cbn [fst snd]. unfold write_failed.
  assert (∀ name, name ≠ temp →
    entries (if os_unlink_fails o
             then set_entries o <[temp:=Text written]> d
             else set_entries o (delete temp)
                    (set_entries o <[temp:=Text written]> d)) !! name
    = entries d !! name) as Hothers.
  { intros name Hname. destruct (os_unlink_fails o); simpl.
    - by rewrite lookup_insert_ne.
    - by rewrite lookup_delete_ne, lookup_insert_ne. }
  split; [done|]. split; [exact Hothers|]. split; [apply Hothers|].
  intros ->. simpl. rewrite delete_insert_eq. by apply delete_id.
Qed.

Definition one_session : directory := {|
  entries := {[ "transcript.jsonl" :=
                  Text [CJson false (VDict [("role", VStr "user")]); CNewline] ]};
  mtime := 1600000000;
|}.

Lemma atomic_write_failure_witness :
  let after :=
    _atomic_write quiet_os one_session "transcript.jsonl"
      ([CGarbage], Some (TypeError "Object is not JSON serializable"))
      "transcript_" "Failed to save transcript" in
  after.2 = Raise (OSError "Failed to save transcript: Object is not JSON serializable"
                     (Some (TypeError "Object is not JSON serializable"))) ∧
  entries after.1 = entries one_session.
Proof.
  destruct (atomic_write_failure quiet_os one_session "transcript.jsonl"
              [CGarbage] (TypeError "Object is not JSON serializable")
              "transcript_" "Failed to save transcript" eq_refl eq_refl)
    as (Hraise & _ & _ & Hsame).
  split; [exact Hraise | exact (Hsame eq_refl)].
Defined.

(** ** Recovery on load *)

Lemma parse_lines_raises (lines : list (list chunk)) (e : exn) :
  parse_lines lines = Raise e → recovered_from e = true.
Proof.
  induction lines as [|line lines IH]; [done|].
  destruct line as [|c line]; [exact IH|].
  cbn [parse_lines]. generalize (c :: line). intros l.
  unfold json_loads_line.
  destruct l as [|[pretty v| |] [|? ?]]; simpl; try by intros [= <-].
  destruct (negb pretty || one_line v); simpl; [|by intros [= <-]].
  destruct (parse_lines lines); simpl; [done|]. intros [= <-]. by apply IH.
Qed.

Lemma read_jsonl_recovers (f : file) (e : exn) :
  f ≠ Binary →
  read_jsonl f = Raise e → recovered_from e = true.
Proof.
  intros Hf. destruct f as [t| |]; simpl.
  - apply parse_lines_raises.
  - done.
  - by intros [= <-].
Qed.

Lemma read_json_recovers (f : file) (e : exn) :
  f ≠ Binary →
  read_json f = Raise e → recovered_from e = true.
Proof.
  intros Hf. destruct f as [t| |]; simpl.
  - destruct (filter _ t) as [|[? ?| |] [|? ?]]; by intros [= <-].
  - done.
  - by intros [= <-].
Qed.

(** As long as no file of the session holds undecodable bytes, the
    tiered recovery absorbs every failure and [load] returns. *)
Lemma load_recovers_text (o : os) (st : gmap string node)
  (session_id : string) (n : node) :
  check_session_id session_id = Ok () →
  st !! session_id = Some n →
  (∀ name, entries (files_under n) !! name ≠ Some Binary) →
  ∃ transcript metadata, load o st session_id = Ok (transcript, metadata).
Proof.
  intros Hid Hn Htext. unfold load. rewrite Hid, Hn. simpl.
  assert (∀ A (read : file → result A) name,
            (∀ f e, f ≠ Binary → read f = Raise e → recovered_from e = true) →
            try_read read (entries (files_under n) !! name) = None ∨
            ∃ a, try_read read (entries (files_under n) !! name) = Some (Ok a))
    as Htier.
  { intros A read name Hread. unfold try_read.
    destruct (entries (files_under n) !! name) as [f|] eqn:Hf; [|by left].
    destruct (read f) as [a|e] eqn:Hr; [right; by exists a|].
    rewrite (Hread f e); [by left| |done].
    intros ->. by destruct (Htext name). }
  assert (∃ transcript, _load_transcript (files_under n) = Ok transcript)
    as [transcript ->].
  { unfold _load_transcript.
    destruct (Htier _ read_jsonl "transcript.jsonl" read_jsonl_recovers)
      as [->|[a ->]]; [|by exists a].
    destruct (Htier _ read_jsonl "transcript.jsonl.backup" read_jsonl_recovers)
      as [->|[a ->]]; [by exists [] | by exists a]. }
  assert (∃ metadata, _load_metadata o session_id (files_under n) = Ok metadata)
    as [metadata ->].
  { unfold _load_metadata.
    destruct (Htier _ read_json "metadata.json" read_json_recovers)
      as [->|[a ->]]; [|by exists a].
    destruct (Htier _ read_json "metadata.json.backup" read_json_recovers)
      as [->|[a ->]]; [by eexists | by exists a]. }
  by exists transcript, metadata.
Qed.

(** A session whose transcript holds bytes that are not UTF-8, next to a
    sound backup and sound metadata. *)
Definition damaged_store : gmap string node :=
  {[ "s1" := Dir {|
       entries :=
         {[ "transcript.jsonl" := Binary;
            "transcript.jsonl.backup" :=
              Text [CJson false (VDict [("role", VStr "user"); ("content", VStr "hi")]);
                    CNewline];
            "metadata.json" := Text [CJson true (VDict [("session_id", VStr "s1")])] ]};
       mtime := 1600000000 |} ]}.

(** C5 (fails on the code): the decoding error of a transcript that is
    not valid UTF-8 is a [ValueError] that is neither an [OSError] nor a
    [JSONDecodeError], so the [except] clause of [_load_transcript] lets it
    through and [load] raises, with a sound backup at hand. *)
Theorem load_raises_on_undecodable_transcript :
  exists_ damaged_store "s1" = true ∧
  load quiet_os damaged_store "s1"
  = Raise (UnicodeDecodeError "'utf-8' codec can't decode byte") ∧
  recovered_from (UnicodeDecodeError "'utf-8' codec can't decode byte") = false.
Proof. vm_compute. done. Qed.

(** ** Sanitizer *)

Definition is_none (v : value) : bool :=
  match v with VNone => true | _ => false end.

(** The list loop keeps, in order, the sanitized elements that are not
    [None]. *)
Lemma sanitize_list_spec (l : list value) :
  sanitize_list l = filter (λ v, is_none v = false) (_sanitize_value <$> l).
Proof.
  induction l as [|x l IH]; [done|].
  cbn [sanitize_list fmap list_fmap]. rewrite filter_cons, IH.
  destruct (_sanitize_value x); by simpl.
Qed.

(** Primitive values are returned as they are. *)
Lemma sanitize_value_primitive (v : value) :
  match v with
  | VNone | VBool _ | VInt _ | VFloat _ | VStr _ => _sanitize_value v = v
  | _ => True
  end.
Proof. by destruct v. Qed.

(** C8 (fails on the code): [None] is returned unchanged by
    [_sanitize_value] itself, but it is also the marker for a value that
    could not be serialized, so a [None] element of a sequence and a
    [None]-valued entry of a mapping are dropped. *)
Theorem sanitizer_drops_none_entries :
  _sanitize_value VNone = VNone ∧
  _sanitize_value (VList [VInt 1; VNone; VStr "a"]) = VList [VInt 1; VStr "a"] ∧
  _sanitize_message (VDict [("role", VStr "assistant"); ("content", VNone)])
  = VDict [("role", VStr "assistant")].
Proof. repeat split. Qed.

(** ** Saving *)

(** The system calls of a write go through. *)
Definition calm (o : os) : Prop :=
  os_create_fails o = false ∧ os_flush_fails o = false ∧
  os_replace_fails o = false.

(** The two temporary names of a [save] are unused in the directory. *)
Definition fresh_temps (o : os) (es : gmap string file) : Prop :=
  es !! ("transcript_" +:+ os_random o +:+ ".tmp") = None ∧
  es !! ("metadata_" +:+ os_random o +:+ ".tmp") = None.

Lemma atomic_write_ok_inv (o : os) (d d' : directory) (target_file : string)
  (write_func : writer) (prefix error_msg : string) :
  _atomic_write o d target_file write_func prefix error_msg = (d', Ok ()) →
  let temp := prefix +:+ os_random o +:+ ".tmp" in
  write_func.2 = None ∧
  entries d' = <[target_file := Text write_func.1]>
                 (delete temp (<[temp := Text write_func.1]> (entries d))).
Proof.
  unfold _atomic_write, write_failed.
  destruct (os_create_fails o); [done|].
  case_decide; [done|].
  destruct (write_func.2); [done|].
  destruct (os_flush_fails o); [done|].
  destruct (os_replace_fails o); [done|].
  by intros [= <-].
Qed.

Lemma atomic_write_ok (o : os) (d : directory) (target_file : string)
  (written : list chunk) (prefix error_msg : string) :
  calm o →
  entries d !! (prefix +:+ os_random o +:+ ".tmp") = None →
  ∃ d', _atomic_write o d target_file (written, None) prefix error_msg = (d', Ok ()) ∧
        entries d' = <[target_file := Text written]> (entries d).
Proof.
  intros (Hcreate & Hflush & Hreplace) Hfresh. unfold _atomic_write.
  rewrite Hcreate, decide_False by (rewrite Hfresh; by intros [? ?]).
  cbn [fst snd]. rewrite Hflush, Hreplace. eexists. split; [done|]. simpl.
  by rewrite delete_insert_eq, delete_id.
Qed.

Lemma backup_lookup (o : os) (d : directory) (name other : string) :
  other ≠ name +:+ ".backup" →
  entries (backup o d name) !! other = entries d !! other.
Proof.
  intros Hne. unfold backup. destruct (entries d !! name) as [f|]; [|done].
  destruct (os_copy_fails o || negb (readable f)); [done|].
  simpl. by rewrite lookup_insert_ne.
Qed.

(** What a successful [save] leaves behind: the session directory, whose
    transcript file holds what the callback wrote and whose metadata file
    holds the document. *)
Lemma save_ok_inv (o : os) (st st' : gmap string node) (session_id : string)
  (transcript : list value) (metadata : value) :
  save o st session_id transcript metadata = (st', Ok ()) →
  ∃ d j,
    check_session_id session_id = Ok () ∧
    st' !! session_id = Some (Dir d) ∧
    (write_transcript transcript).2 = None ∧
    entries d !! "transcript.jsonl" = Some (Text (write_transcript transcript).1) ∧
    to_json metadata = Some j ∧
    entries d !! "metadata.json" = Some (Text [CJson true j]).
Proof.
  unfold save. destruct (check_session_id session_id) as [[]|]; [|done].
  destruct (mkdir o session_id (st !! session_id)) as [session_dir|]; [|done].
  unfold _save_transcript, _save_metadata.
  destruct (_atomic_write o (backup o session_dir "transcript.jsonl") _ _ _ _)
    as [d1 [[]|]] eqn:Hw1; [|done].
  destruct (_atomic_write o (backup o d1 "metadata.json") _ _ _ _)
    as [d2 r2] eqn:Hw2.
  intros [= <- ->].
  apply atomic_write_ok_inv in Hw1 as [Hdone1 Hd1].
  apply atomic_write_ok_inv in Hw2 as [Hdone2 Hd2].
  unfold write_metadata, json_dump in Hdone2, Hd2.
  destruct (to_json metadata) as [j|] eqn:Hj; [|done].
  exists d2, j. split; [done|]. split; [by rewrite lookup_insert_eq|].
  split; [done|]. split; [|split; [done | by rewrite Hd2, lookup_insert_eq]].
  rewrite Hd2. rewrite lookup_insert_ne by done.
  rewrite lookup_delete_ne by (by cbv). rewrite lookup_insert_ne by (by cbv).
  rewrite backup_lookup by done. by rewrite Hd1, lookup_insert_eq.
Qed.

(** [save] goes through when the id is accepted, its path is not taken by
    a regular file, the system calls succeed, the temporary names are
    unused, the transcript callback completes and the metadata is
    serializable. *)
Lemma save_succeeds (o : os) (st : gmap string node) (session_id : string)
  (transcript : list value) (metadata : value) :
  check_session_id session_id = Ok () →
  (∀ f, st !! session_id ≠ Some (File f)) →
  calm o →
  (∀ d, st !! session_id = Some (Dir d) → fresh_temps o (entries d)) →
  (write_transcript transcript).2 = None →
  is_Some (to_json metadata) →
  ∃ d, save o st session_id transcript metadata
       = (<[session_id := Dir d]> st, Ok ()).
Proof.
  intros Hid Hdir Hcalm Hfresh Hwrite [j Hj]. unfold save. rewrite Hid.
  assert (∃ session_dir, mkdir o session_id (st !! session_id) = Ok session_dir ∧
            fresh_temps o (entries session_dir))
    as (session_dir & -> & Hfresh1 & Hfresh2).
  { destruct (st !! session_id) as [[d|f]|] eqn:Hst.
    - exists d. split; [done | by apply Hfresh].
    - by destruct (Hdir f).
    - eexists. by split. }
  unfold _save_transcript, _save_metadata.
  destruct (write_transcript transcript) as [w1 out1] eqn:Hw1.
  simpl in Hwrite. subst out1.
  destruct (atomic_write_ok o (backup o session_dir "transcript.jsonl")
              "transcript.jsonl" w1 "transcript_" "Failed to save transcript" Hcalm)
    as (d1 & -> & Hd1).
  { rewrite backup_lookup; [done | by cbv]. }
  unfold write_metadata, json_dump. rewrite Hj.
  destruct (atomic_write_ok o (backup o d1 "metadata.json")
              "metadata.json" [CJson true j] "metadata_" "Failed to save metadata" Hcalm)
    as (d2 & -> & Hd2).
  { rewrite backup_lookup by (by cbv). rewrite Hd1, lookup_insert_ne by (by cbv).
    rewrite backup_lookup; [done | by cbv]. }
  by exists d2.
Qed.

(** ** Batch operations *)

Lemma elem_of_insert_newest_first (x y : string * Z) (l : list (string * Z)) :
  y ∈ insert_newest_first x l ↔ y = x ∨ y ∈ l.
Proof.
  induction l as [|z l IH]; simpl.
  - rewrite list_elem_of_singleton. split; [by left | intros [|Hin]; [done|]].
    by apply elem_of_nil in Hin.
  - destruct (z.2 <=? x.2).
    + by rewrite elem_of_cons.
    + rewrite !elem_of_cons, IH. tauto.
Qed.

Lemma elem_of_sort_newest_first (y : string * Z) (l : list (string * Z)) :
  y ∈ sort_newest_first l ↔ y ∈ l.
Proof.
  induction l as [|x l IH]; [done|].
  cbn [sort_newest_first foldr]. fold (sort_newest_first l).
  by rewrite elem_of_insert_newest_first, IH, elem_of_cons.
Qed.

(** [list_sessions] names only directories whose name has no leading dot. *)
Lemma list_sessions_listed (o : os) (st : gmap string node) (name : string) :
  name ∈ list_sessions o st ↔
  (∃ d, st !! name = Some (Dir d)) ∧ dot_prefixed name = false.
Proof.
  unfold list_sessions. rewrite list_elem_of_fmap. split.
  - intros ([name' t] & -> & Hin).
    apply (proj1 (elem_of_sort_newest_first _ _)) in Hin.
    apply (proj1 (list_elem_of_omap _ _ _)) in Hin as ([k n] & Hkn & Hentry).
    apply elem_of_map_to_list in Hkn. unfold session_entry in Hentry. simpl in *.
    destruct n as [d|f]; [|done].
    destruct (dot_prefixed k) eqn:Hdot; [done|]. simplify_eq. eauto.
  - intros [[d Hd] Hdot].
    exists (name, if os_stat_fails o name then 0 else mtime d). split; [done|].
    apply elem_of_sort_newest_first, list_elem_of_omap.
    exists (name, Dir d). split; [by apply elem_of_map_to_list|].
    unfold session_entry. simpl. by rewrite Hdot.
Qed.

Lemma cleanup_entry_keeps (o : os) (cutoff : Z) (acc : gmap string node * nat)
  (e : string * node) (name : string) :
  dot_prefixed name = true →
  (cleanup_entry o cutoff acc e).1 !! name = acc.1 !! name.
Proof.
  intros Hdot. unfold cleanup_entry. destruct e as [k [d|f]]; [|done].
  cbn [fst snd]. destruct (dot_prefixed k) eqn:He; [done|].
  destruct (os_stat_fails o k); [done|].
  destruct (mtime d <? cutoff); [|done].
  destruct (os_rmtree_fails o k); [done|].
  simpl. apply lookup_delete_ne. intros ->. congruence.
Qed.

(** [cleanup_old_sessions] leaves every dot-prefixed entry where it is. *)
Lemma cleanup_keeps_dot_prefixed (o : os) (st : gmap string node) (days : Z)
  (name : string) :
  dot_prefixed name = true →
  (cleanup_old_sessions o st days).1 !! name = st !! name.
Proof.
  intros Hdot. unfold cleanup_old_sessions. destruct (days <? 0); [done|].
  assert (∀ l acc,
            (fold_left (cleanup_entry o (os_now o - days * 86400)) l acc).1 !! name
            = acc.1 !! name) as Hfold.
  { induction l as [|e l IH]; intros acc; [done|].
    simpl. rewrite IH. by apply cleanup_entry_keeps. }
  specialize (Hfold (map_to_list st) (st, 0%nat)).
  by destruct (fold_left _ _ _).
Qed.

Lemma check_session_id_dot (rest : string) :
  ¬ refused_id ("." +:+ rest) → check_session_id ("." +:+ rest) = Ok ().
Proof.
  intros Hvalid. unfold check_session_id.
  change (blank ("." +:+ rest)) with false. cbn match.
  destruct (string_contains "/" ("." +:+ rest)) eqn:Hslash.
  { apply string_contains_spec in Hslash. destruct Hvalid. right; by left. }
  destruct (string_contains "\" ("." +:+ rest)) eqn:Hback.
  { apply string_contains_spec in Hback. destruct Hvalid. right; right; by left. }
  rewrite bool_decide_false; [done|]. intros Hin.
  destruct Hvalid. right; right; right.
  apply elem_of_cons in Hin as [->|Hin]; [by left|].
  apply list_elem_of_singleton in Hin as ->. by right.
Qed.

(** C10: for an id with a leading dot that the guard accepts, [save] goes
    through (the system calls succeeding, the callback completing and the
    metadata serializable) and [exists] then answers true; yet in every
    listing of the base directory [list_sessions] leaves the id out and
    [cleanup_old_sessions] leaves its entry where it is, whatever the age
    and the number of days. *)
Theorem dot_prefixed_session_hidden (o : os) (st : gmap string node)
  (rest : string) (transcript : list value) (metadata : value) :
  let session_id := "." +:+ rest in
  ¬ refused_id session_id →
  (∀ f, st !! session_id ≠ Some (File f)) →
  calm o →
  (∀ d, st !! session_id = Some (Dir d) → fresh_temps o (entries d)) →
  (write_transcript transcript).2 = None →
  is_Some (to_json metadata) →
  (∃ st', save o st session_id transcript metadata = (st', Ok ()) ∧
          exists_ st' session_id = true) ∧
  (∀ o' any, session_id ∉ list_sessions o' any) ∧
  (∀ o' any days,
     (cleanup_old_sessions o' any days).1 !! session_id = any !! session_id).
Proof.
  intros session_id Hvalid Hfile Hcalm Hfresh Hwrite Hmeta.
  assert (check_session_id session_id = Ok ()) as Hid
    by by apply check_session_id_dot.
  assert (dot_prefixed session_id = true) as Hdot by by destruct rest.
  split; [|split].
  - destruct (save_succeeds o st session_id transcript metadata)
      as [d Hsave]; try done.
    eexists. split; [exact Hsave|].
    unfold exists_. by rewrite Hid, lookup_insert_eq.
  - intros o' any Hin. apply list_sessions_listed in Hin as [_ Hno]. congruence.
  - intros o' any days. by apply cleanup_keeps_dot_prefixed.
Qed.

Definition old_hidden_store : gmap string node :=
  {[ ".archive" := Dir {| entries := ∅; mtime := 0 |};
     "s1" := Dir {| entries := ∅; mtime := 0 |} ]}.

Lemma dot_prefixed_session_hidden_witness :
  (∃ st', save quiet_os old_hidden_store ".archive"
            [VDict [("role", VStr "user"); ("content", VStr "hi")]] (VDict [])
          = (st', Ok ()) ∧ exists_ st' ".archive" = true) ∧
  (".archive" ∉ list_sessions quiet_os old_hidden_store) ∧
  ((cleanup_old_sessions quiet_os old_hidden_store 30).1 !! ".archive"
   = old_hidden_store !! ".archive").
Proof.
  destruct (dot_prefixed_session_hidden quiet_os old_hidden_store "archive"
              [VDict [("role", VStr "user"); ("content", VStr "hi")]] (VDict []))
    as (Hsave & Hlist & Hclean).
  - intros [H|[(a & b & H)|[(a & b & H)|[H|H]]]]; try done.
    + assert (string_contains "/" ".archive" = true) as Hc
        by (apply string_contains_spec; eauto). by vm_compute in Hc.
    + assert (string_contains "\" ".archive" = true) as Hc
        by (apply string_contains_spec; eauto). by vm_compute in Hc.
  - intros f. by vm_compute.
  - by repeat split.
  - intros d Hd. vm_compute in Hd. injection Hd as <-. by split.
  - reflexivity.
  - by eexists.
  - split; [exact Hsave|]. split; [apply Hlist | apply Hclean].
Defined.

(** ** Transcript round trip *)

(** A message is persisted when it has a mapping form and its role is not
    one of the two internal ones. *)
Definition persisted (message : value) : bool :=
  match msg_dict message with
  | Ok d => negb (internal_role d)
  | Raise _ => false
  end.

(** Reading back what the transcript callback wrote gives, line by line,
    the JSON form of the sanitized persisted messages. *)
Lemma write_transcript_read_back (transcript : list value) :
  (write_transcript transcript).2 = None →
  ∃ loaded,
    parse_lines (split_lines (write_transcript transcript).1) = Ok loaded ∧
    to_json_items
      (_sanitize_message <$> filter (λ m, persisted m = true) transcript)
    = Some loaded.
Proof.
  induction transcript as [|message transcript IH]; [by exists []|].
  cbn [write_transcript]. rewrite filter_cons.
  destruct (msg_dict message) as [d|e] eqn:Hmsg; [|done].
  assert (persisted message = negb (internal_role d)) as ->
    by (unfold persisted; by rewrite Hmsg).
  destruct (internal_role d); simpl negb.
  { rewrite decide_False by done. exact IH. }
  rewrite decide_True by done. unfold json_dump.
  destruct (to_json (_sanitize_message message)) as [j|] eqn:Hj; [|done].
  cbn [fst snd]. intros Hdone. destruct (IH Hdone) as (loaded & Hparse & Hjson).
  exists (j :: loaded). split.
  - cbn [app split_lines parse_lines json_loads_line negb orb].
    rewrite Hparse. done.
  - cbn [fmap list_fmap to_json_items]. rewrite Hj. simpl.
    change (list_fmap _ _ _sanitize_message ?l) with (_sanitize_message <$> l).
    by rewrite Hjson.
Qed.

Lemma sanitize_entries_step (key : string) (v : value) (rest sanitized : dict) :
  key ∉ ["thinking_block"; "content_blocks"] →
  sanitize_entries ((key, v) :: rest) sanitized
  = sanitize_entries rest
      (if is_none (_sanitize_value v) then sanitized
       else dict_set key (_sanitize_value v) sanitized).
Proof.
  intros Hkey. cbn [sanitize_entries]. rewrite bool_decide_false by done.
  by destruct (_sanitize_value v).
Qed.

(** A key that the sanitizer does not treat specially keeps its sanitized
    value, unless that value is [None]. *)
Lemma sanitize_entries_get (k : string) (message sanitized : dict) :
  k ∉ ["thinking_block"; "content_blocks"; "thinking_text"] →
  unique_keys message →
  dict_get k (sanitize_entries message sanitized)
  = match dict_get k message with
    | Some v =>
        if is_none (_sanitize_value v) then dict_get k sanitized
        else Some (_sanitize_value v)
    | None => dict_get k sanitized
    end.
Proof.
  intros Hk. revert sanitized.
  induction message as [|[key v] message IH]; intros sanitized Huniq; [done|].
  apply NoDup_cons in Huniq as [Hfresh Huniq]. simpl in Hfresh.
  destruct (decide (key ∈ ["thinking_block"; "content_blocks"])) as [Hspecial|Hplain].
  - assert (k ≠ key) as Hne.
    { intros ->. apply Hk. apply list_elem_of_In.
      apply list_elem_of_In in Hspecial. simpl in *. tauto. }
    cbn [sanitize_entries dict_get]. rewrite bool_decide_true by done.
    rewrite decide_False by done.
    match goal with
    | |- context [sanitize_entries message ?acc] =>
        assert (dict_get k acc = dict_get k sanitized) as Hacc
    end.
    { destruct (bool_decide (key = "thinking_block")); [|done].
      destruct v as [| | | | | |block|]; try done.
      destruct (dict_get "text" block); [|done].
      apply dict_get_set_ne. intros ->. apply Hk.
      apply list_elem_of_In. simpl. tauto. }
    rewrite IH by done. by rewrite Hacc.
  - rewrite sanitize_entries_step by done. rewrite IH by done. cbn [dict_get].
    destruct (decide (k = key)) as [->|Hne].
    + rewrite (proj2 (dict_get_None key message) Hfresh).
      destruct (is_none (_sanitize_value v)) eqn:Hnone; [done|].
      by rewrite dict_get_set_eq.
    + destruct (is_none (_sanitize_value v)); [done|].
      by rewrite dict_get_set_ne.
Qed.

Lemma to_json_entries_get (k : string) (d j : dict) :
  to_json_entries d = Some j →
  dict_get k j = dict_get k d ≫= to_json.
Proof.
  revert j. induction d as [|[k' v] d IH]; intros j; simpl.
  - by intros [= <-].
  - destruct (to_json v) as [v'|] eqn:Hv; [|done]. simpl.
    destruct (to_json_entries d) as [j'|]; [|done]. simpl. intros [= <-]. simpl.
    destruct (decide (k = k')); [by simpl | by apply IH].
Qed.

(** The role of a message record survives the sanitizer and the JSON
    encoding. *)
Lemma persisted_role (d : dict) (role : string) (j : value) :
  unique_keys d →
  dict_get "role" d = Some (VStr role) →
  to_json (_sanitize_message (VDict d)) = Some j →
  ∃ d', j = VDict d' ∧ dict_get "role" d' = Some (VStr role).
Proof.
  intros Huniq Hrole. unfold _sanitize_message.
  rewrite sanitize_value_dict, to_json_dict.
  destruct (to_json_entries (sanitize_entries d [])) as [d'|] eqn:Hd'; [|done].
  intros [= <-]. exists d'. split; [done|].
  rewrite (to_json_entries_get _ _ _ Hd').
  rewrite sanitize_entries_get; [by rewrite Hrole| |done].
  intros Hin. apply list_elem_of_In in Hin. simpl in Hin.
  by destruct Hin as [|[|[|]]].
Qed.

(** A message record of the data model: a mapping, each key once, whose
    [role] is one of the four role names. *)
Definition message_record (m : value) : Prop :=
  ∃ d role, m = VDict d ∧ unique_keys d ∧
    dict_get "role" d = Some (VStr role) ∧
    role ∈ ["user"; "assistant"; "system"; "developer"].

(** The role of a message is [user] or [assistant]. *)
Definition conversational (m : value) : bool :=
  match m with
  | VDict d =>
      match dict_get "role" d with
      | Some (VStr role) => bool_decide (role ∈ ["user"; "assistant"])
      | _ => false
      end
  | _ => false
  end.

Lemma persisted_conversational (m : value) :
  message_record m → persisted m = conversational m.
Proof.
  intros (d & role & -> & _ & Hrole & Hin). unfold persisted, conversational.
  cbn [msg_dict]. unfold internal_role. rewrite Hrole.
  repeat (apply elem_of_cons in Hin as [->|Hin]; [done|]).
  by apply elem_of_nil in Hin.
Qed.

Lemma to_json_items_spec (l loaded : list value) :
  to_json_items l = Some loaded ↔ Forall2 (λ v j, to_json v = Some j) l loaded.
Proof.
  revert loaded. induction l as [|v l IH]; intros loaded; simpl.
  - split; [intros [= <-]; constructor | by inversion 1].
  - split.
    + destruct (to_json v) as [j|] eqn:Hv; [|done]. simpl.
      destruct (to_json_items l) as [js|] eqn:Hl; [|done]. simpl.
      intros [= <-]. constructor; [done | by apply IH].
    + inversion 1 as [|? j ? js Hv Hl]; subst. rewrite Hv. simpl.
      apply IH in Hl. by rewrite Hl.
Qed.

(** C6: after a [save] that went through, [load] returns a transcript
    that holds, in their original relative order, exactly the [user] and
    [assistant] messages of the saved transcript, each in the form the
    sanitizer and the JSON encoding give it (the message itself when these
    leave it as it is); no loaded message has the role [system] or
    [developer]. *)
Theorem transcript_round_trip (o o' : os) (st st' : gmap string node)
  (session_id : string) (transcript : list value) (metadata : value) :
  Forall message_record transcript →
  save o st session_id transcript metadata = (st', Ok ()) →
  let kept := filter (λ m, conversational m = true) transcript in
  ∃ loaded loaded_metadata,
    load o' st' session_id = Ok (loaded, loaded_metadata) ∧
    Forall2 (λ m j, to_json (_sanitize_message m) = Some j) kept loaded ∧
    Forall (λ j, conversational j = true) loaded ∧
    (Forall (λ m, to_json (_sanitize_message m) = Some m) kept → loaded = kept).
Proof.
  intros Hrecords Hsave kept.
  destruct (save_ok_inv _ _ _ _ _ _ Hsave)
    as (d & j & Hid & Hdir & Hdone & Htranscript & Hj & Hmetadata).
  destruct (write_transcript_read_back transcript Hdone)
    as (loaded & Hparse & Hjson).
  assert (filter (λ m, persisted m = true) transcript = kept) as Hkept.
  { subst kept. clear -Hrecords.
    induction Hrecords as [|m l Hm Hl IH]; [done|].
    rewrite !filter_cons, IH, (persisted_conversational m Hm). done. }
  rewrite Hkept in Hjson. apply to_json_items_spec in Hjson.
  rewrite Forall2_fmap_l in Hjson.
  exists loaded, j. split; [|split; [done|split]].
  - unfold load. rewrite Hid, Hdir. simpl.
    unfold _load_transcript, _load_metadata. rewrite Htranscript, Hmetadata.
    simpl. by rewrite Hparse.
  - assert (Forall (λ m, message_record m ∧ conversational m = true) kept)
      as Hall.
    { subst kept. apply Forall_forall. intros m Hin.
      apply list_elem_of_filter in Hin as [Hconv Hin].
      split; [|done]. rewrite Forall_forall in Hrecords. by apply Hrecords. }
    clear -Hjson Hall. induction Hjson as [|m j' ms js Hm Hms IH]; [done|].
    apply Forall_cons in Hall as [[(dm & role & -> & Huniq & Hrole & _) Hconv] Hall].
    constructor; [|by apply IH].
    destruct (persisted_role dm role j' Huniq Hrole Hm) as (d' & -> & Hrole').
    unfold conversational in Hconv |- *. rewrite Hrole in Hconv.
    by rewrite Hrole'.
  - intros Hplain. clear -Hjson Hplain.
    induction Hjson as [|m j' ms js Hm Hms IH]; [done|].
    apply Forall_cons in Hplain as [Hm' Hplain].
    rewrite Hm in Hm'. injection Hm' as ->. f_equal. by apply IH.
Qed.

Lemma message_record_intro (d : dict) (role : string) :
  bool_decide (NoDup d.*1) = true →
  dict_get "role" d = Some (VStr role) →
  bool_decide (role ∈ ["user"; "assistant"; "system"; "developer"]) = true →
  message_record (VDict d).
Proof.
  intros Huniq Hrole Hin. exists d, role.
  apply bool_decide_eq_true in Huniq. apply bool_decide_eq_true in Hin. done.
Qed.

Definition four_roles : list value :=
  [VDict [("role", VStr "system"); ("content", VStr "You are helpful.")];
   VDict [("role", VStr "user"); ("content", VStr "hi")];
   VDict [("role", VStr "developer"); ("content", VStr "context")];
   VDict [("role", VStr "assistant"); ("content", VStr "hello")]].

Lemma transcript_round_trip_witness :
  ∃ loaded loaded_metadata,
    load quiet_os (save quiet_os ∅ "s1" four_roles (VDict [])).1 "s1"
    = Ok (loaded, loaded_metadata) ∧
    loaded = [VDict [("role", VStr "user"); ("content", VStr "hi")];
              VDict [("role", VStr "assistant"); ("content", VStr "hello")]].
Proof.
  destruct (transcript_round_trip quiet_os quiet_os ∅
              (save quiet_os ∅ "s1" four_roles (VDict [])).1 "s1"
              four_roles (VDict []))
    as (loaded & loaded_metadata & Hload & _ & _ & Hsame).
  - repeat apply List.Forall_cons; [| | | |apply List.Forall_nil].
    + by apply (message_record_intro _ "system").
    + by apply (message_record_intro _ "user").
    + by apply (message_record_intro _ "developer").
    + by apply (message_record_intro _ "assistant").
  - by vm_compute.
  - exists loaded, loaded_metadata. split; [exact Hload|].
    apply Hsame. by repeat constructor.
Defined.

(** ** The generic merge, key by key *)

(** The value a top-level key ends with when the overlay sets it. *)
Definition merged_value (key : string) (pv : option value) (cv : value) : value :=
  match pv with
  | None => cv
  | Some pv =>
      if is_module_section key then
        match pv, cv with
        | VList pl, VList cl => VList (merge_module_lists pl cl)
        | _, _ => cv
        end
      else merge_value pv cv
  end.

Lemma merge_key_at (merged : dict) (kv : string * value) :
  dict_get kv.1 (merge_key merged kv)
  = Some (merged_value kv.1 (dict_get kv.1 merged) kv.2).
Proof.
  unfold merge_key, merged_value.
  destruct (dict_get kv.1 merged) as [pv|]; [|apply dict_get_set_eq].
  destruct (is_module_section kv.1); [|apply dict_get_set_eq].
  destruct pv, (kv.2); apply dict_get_set_eq.
Qed.

Lemma merge_profile_dicts_lookup (k : string) (parent child : dict) :
  unique_keys child →
  dict_get k (merge_profile_dicts parent child)
  = match dict_get k child with
    | Some cv => Some (merged_value k (dict_get k parent) cv)
    | None => dict_get k parent
    end.
Proof.
  unfold merge_profile_dicts. revert parent.
  induction child as [|[key cv] child IH]; intros parent Huniq; [done|].
  apply NoDup_cons in Huniq as [Hfresh Huniq]. simpl in Hfresh.
  cbn [fold_left dict_get]. destruct (decide (k = key)) as [->|Hne].
  - change (fold_left merge_key child (merge_key parent (key, cv)))
      with (merge_profile_dicts (merge_key parent (key, cv)) child).
    rewrite merge_profile_dicts_untouched.
    + apply (merge_key_at parent (key, cv)).
    + apply Forall_forall. intros [k' v'] Hin. simpl. intros ->. apply Hfresh.
      apply list_elem_of_fmap. by exists (key, v').
  - rewrite IH by done. rewrite merge_key_other by (simpl; congruence). done.
Qed.

Lemma merge_entries_untouched (k : string) (cd pd : dict) :
  k ∉ cd.*1 → dict_get k (merge_entries cd pd) = dict_get k pd.
Proof.
  revert pd. induction cd as [|[key cv] cd IH]; intros pd Hk; [done|].
  rewrite fmap_cons, not_elem_of_cons in Hk. destruct Hk as [Hne Hk].
  cbn [merge_entries]. rewrite IH by done.
  destruct (dict_get key pd); by apply dict_get_set_ne.
Qed.

Lemma merge_entries_lookup (k : string) (cd pd : dict) :
  unique_keys cd →
  dict_get k (merge_entries cd pd)
  = match dict_get k cd with
    | Some cv => Some (match dict_get k pd with
                       | Some pv => merge_value pv cv
                       | None => cv
                       end)
    | None => dict_get k pd
    end.
Proof.
  revert pd. induction cd as [|[key cv] cd IH]; intros pd Huniq; [done|].
  apply NoDup_cons in Huniq as [Hfresh Huniq]. simpl in Hfresh.
  cbn [merge_entries dict_get]. destruct (decide (k = key)) as [->|Hne].
  - rewrite merge_entries_untouched by done.
    destruct (dict_get key pd); apply dict_get_set_eq.
  - rewrite IH by done.
    match goal with
    | |- context [dict_get k ?pd'] =>
        lazymatch pd' with
        | context [dict_set] =>
            assert (dict_get k pd' = dict_get k pd) as ->; [|done]
        end
    end.
    destruct (dict_get key pd); by apply dict_get_set_ne.
Qed.

Lemma merge_entries_has (f : string) (cd pd : dict) :
  dict_has f (merge_entries cd pd) = dict_has f pd || dict_has f cd.
Proof.
  revert pd. induction cd as [|[key cv] cd IH]; intros pd.
  - by rewrite orb_false_r.
  - cbn [merge_entries]. rewrite IH.
    match goal with
    | |- context [dict_has f ?pd'] =>
        lazymatch pd' with
        | context [dict_set] =>
            assert (dict_has f pd' = bool_decide (f = key) || dict_has f pd) as ->
        end
    end.
    { destruct (dict_get key pd); apply dict_has_set. }
    unfold dict_has at 4. cbn [dict_get].
    destruct (decide (f = key)) as [->|Hne].
    + rewrite bool_decide_true by done. simpl. by rewrite orb_true_r.
    + rewrite bool_decide_false by done. done.
Qed.

(** ** Module lists *)

(** Some entry of the list has identity [x]. *)
Definition has_module (x : string) (items : list value) : bool :=
  existsb (λ m, bool_decide (module_of m = Some x)) items.

(** The configuration of an entry, when it has one, is a mapping. *)
Definition config_ok (m : value) : Prop :=
  ∀ e c, m = VDict e → dict_get "config" e = Some c → ∃ cfg, c = VDict cfg.

Lemma find_module_has (x : string) (items : list value) :
  has_module x items = true ↔ is_Some (find_module x items).
Proof.
  unfold has_module, find_module. induction items as [|m items IH]; simpl.
  - split; [done | by intros [? ?]].
  - destruct (bool_decide (module_of m = Some x)); simpl; [|done].
    split; [by eexists | done].
Qed.

Lemma find_module_Some (x : string) (items : list value) (m : value) :
  find_module x items = Some m → module_of m = Some x ∧ m ∈ items.
Proof.
  unfold find_module. intros Hfind. apply find_some in Hfind as [Hin Hm].
  apply bool_decide_eq_true in Hm. split; [done | by apply list_elem_of_In].
Qed.

Lemma module_entry_config_ok (item : value) : module_entry item → config_ok item.
Proof. intros (e & id & -> & _ & _ & Hcfg) e' c [= <-]. apply Hcfg. Qed.

Lemma module_of_merge (existing : value) (e : dict) (id : string) :
  unique_keys e → dict_get "module" e = Some (VStr id) →
  module_of existing = Some id →
  module_of (merge_value existing (VDict e)) = Some id.
Proof.
  intros Huniq He Hex. destruct existing as [| | | | | |pe|]; try done.
  rewrite merge_value_dict. cbn [module_of].
  rewrite merge_entries_lookup by done. rewrite He.
  by destruct (dict_get "module" pe) as [[]|].
Qed.

Lemma config_ok_merge (existing : value) (e : dict) :
  unique_keys e → config_ok existing → config_ok (VDict e) →
  config_ok (merge_value existing (VDict e)).
Proof.
  intros Huniq Hex He. destruct existing as [| | | | | |pe|]; try done.
  rewrite merge_value_dict. intros e' c [= <-].
  rewrite merge_entries_lookup by done.
  destruct (dict_get "config" e) as [cv|] eqn:Hcv.
  - destruct (He e cv eq_refl Hcv) as [cfg ->].
    destruct (dict_get "config" pe) as [pv|]; intros [= <-]; [|by eexists].
    destruct pv; by eexists.
  - by apply Hex.
Qed.

Lemma has_module_app (x : string) (l1 l2 : list value) :
  has_module x (l1 ++ l2) = has_module x l1 || has_module x l2.
Proof. apply existsb_app. Qed.

Lemma has_module_replace (y x : string) (new : value) (items : list value) :
  module_of new = Some x →
  has_module y (replace_module x new items) = has_module y items.
Proof.
  intros Hnew. induction items as [|m items IH]; [done|].
  cbn [replace_module]. destruct (bool_decide (module_of m = Some x)) eqn:Hm.
  - apply bool_decide_eq_true in Hm. simpl. by rewrite Hnew, Hm.
  - simpl. by rewrite IH.
Qed.

Lemma config_ok_replace (x : string) (new : value) (items : list value) :
  config_ok new → Forall config_ok items →
  Forall config_ok (replace_module x new items).
Proof.
  intros Hnew. induction 1 as [|m items Hm Hitems IH]; [done|].
  cbn [replace_module]. destruct (bool_decide (module_of m = Some x));
    by constructor.
Qed.

Lemma merge_module_item_spec (y : string) (merged : list value) (item : value) :
  module_entry item → Forall config_ok merged →
  has_module y (merge_module_item merged item)
  = has_module y merged || bool_decide (module_of item = Some y) ∧
  Forall config_ok (merge_module_item merged item).
Proof.
  intros Hitem Hmerged. pose proof (module_entry_config_ok _ Hitem) as Hcfg.
  destruct Hitem as (e & id & -> & Huniq & Hid & _).
  unfold merge_module_item. cbn [module_of]. rewrite Hid.
  assert (has_module y [VDict e] = bool_decide (Some id = Some y)) as Hone.
  { unfold has_module. cbn [existsb module_of]. by rewrite Hid, orb_false_r. }
  destruct (find_module id merged) as [existing|] eqn:Hfind.
  - apply find_module_Some in Hfind as Hex. destruct Hex as [Hex Hin].
    split.
    + rewrite has_module_replace by by apply module_of_merge.
      destruct (decide (id = y)) as [->|Hne].
      * rewrite bool_decide_true by done.
        rewrite (proj2 (find_module_has y merged)); [done | by rewrite Hfind].
      * rewrite bool_decide_false by congruence. by rewrite orb_false_r.
    + apply config_ok_replace; [|done]. apply config_ok_merge; try done.
      rewrite Forall_forall in Hmerged. by apply Hmerged.
  - split; [by rewrite has_module_app, Hone|].
    apply Forall_app. split; [done | by constructor].
Qed.

Lemma merge_module_lists_spec (y : string) (pl cl : list value) :
  Forall module_entry cl → Forall config_ok pl →
  has_module y (merge_module_lists pl cl) = has_module y pl || has_module y cl ∧
  Forall config_ok (merge_module_lists pl cl).
Proof.
  unfold merge_module_lists. intros Hcl. revert pl.
  induction Hcl as [|item cl Hitem Hcl IH]; intros pl Hpl.
  - by rewrite orb_false_r.
  - cbn [fold_left].
    destruct (merge_module_item_spec y pl item Hitem Hpl) as [Hhas Hok].
    destruct (IH _ Hok) as [Hhas' Hok']. split; [|done].
    rewrite Hhas', Hhas. cbn [has_module existsb]. by rewrite orb_assoc.
Qed.

(** ** Provenance: what the tracker records *)

(** [sources[section][x]] *)
Definition mod_src (s : sources) (section x : string) : option source :=
  (src_modules s !!! section) !! x.

(** [sources["config_fields"].get(key, {})] *)
Definition cfg_map (s : sources) (key : string) : gmap string source :=
  src_config_fields s !!! key.

(** The module entries and the session mapping of a configuration. *)
Definition items_of (section : string) (d : dict) : list value :=
  match dict_get section d with
  | Some (VList items) => items
  | _ => []
  end.

Definition session_of (d : dict) : dict :=
  match dict_get "session" d with
  | Some (VDict session) => session
  | _ => []
  end.

(** An entry gives an explicit [source]; an entry has a [config] key; an
    entry touches the config field [f]. *)
Definition has_source (item : value) : bool :=
  match item with VDict e => dict_has "source" e | _ => false end.

Definition has_config (item : value) : bool :=
  match item with VDict e => dict_has "config" e | _ => false end.

Definition cfg_has (f : string) (item : value) : bool :=
  match item with
  | VDict e =>
      match dict_get "config" e with
      | Some (VDict cfg) => dict_has f cfg
      | _ => false
      end
  | _ => false
  end.

(** The owner an entry for an existing module leaves behind. *)
Definition new_owner (profile_name : string) (item : value) (old : source)
  : source :=
  if has_source item then Override profile_name (first_of old)
  else if has_config item then first_of old
  else old.

Lemma first_of_idemp (p : source) : first_of (first_of p) = first_of p.
Proof. by destruct p. Qed.

Lemma mod_src_set_module (s : sources) (sec' y sec x : string) (v : source) :
  mod_src (set_module sec' y v s) sec x
  = if decide (sec = sec' ∧ x = y) then Some v else mod_src s sec x.
Proof.
  unfold mod_src, set_module. simpl.
  destruct (decide (sec = sec')) as [->|Hsec].
  - rewrite lookup_total_insert_eq. destruct (decide (x = y)) as [->|Hx].
    + rewrite lookup_insert_eq. by rewrite decide_True.
    + rewrite lookup_insert_ne by done. rewrite decide_False; [done | tauto].
  - rewrite lookup_total_insert_ne by done. rewrite decide_False; [done | tauto].
Qed.

Lemma cfg_map_set (s : sources) (key key' : string) (g : gmap string source) :
  cfg_map (set_config_fields <[key := g]> s) key'
  = if decide (key' = key) then g else cfg_map s key'.
Proof.
  unfold cfg_map, set_config_fields. simpl. case_decide as Hk.
  - subst. apply lookup_total_insert_eq.
  - by apply lookup_total_insert_ne.
Qed.

Lemma cfg_map_missing (s : sources) (key : string) :
  src_config_fields s !! key = None → cfg_map s key = ∅.
Proof. intros Hk. unfold cfg_map. by rewrite lookup_total_alt, Hk. Qed.

Lemma config_key_inj (sec sec' x y : string) :
  sec ∈ module_sections → sec' ∈ module_sections →
  config_key sec x = config_key sec' y → sec = sec' ∧ x = y.
Proof.
  unfold module_sections, config_key. intros Hsec Hsec'.
  apply list_elem_of_In in Hsec. apply list_elem_of_In in Hsec'. simpl in *.
  destruct Hsec as [<-|[<-|[<-|[]]]], Hsec' as [<-|[<-|[<-|[]]]];
    cbv [String.append]; intros Heq; by simplify_eq.
Qed.

(** The mapping a config field is looked up in is a mapping, for an entry
    whose configuration is one. *)
Lemma existing_config_dict (existing : value) :
  config_ok existing →
  ∃ cfg, match existing with
         | VDict e => default (VDict []) (dict_get "config" e)
         | _ => VDict []
         end = VDict cfg.
Proof.
  intros Hok. destruct existing as [| | | | | |e|]; try by eexists.
  destruct (dict_get "config" e) as [c|] eqn:Hc; [|by eexists].
  destruct (Hok e c eq_refl Hc) as [cfg ->]. by eexists.
Qed.

Lemma track_config_field_inv (n key : string) (existing : value) (old : source)
  (s s' : sources) (entry : string * value) :
  track_config_field n key existing old s entry = Ok s' →
  ∃ p, first_of p = Label n ∧
       s' = set_config_fields <[key := <[entry.1 := p]> (cfg_map s key)]> s.
Proof.
  unfold track_config_field.
  destruct (py_contains _ _) as [present|]; [|done]. simpl.
  destruct present; simpl; intros [= <-];
    (eexists; split; [|reflexivity]; done).
Qed.

Lemma track_config_field_total (n key : string) (existing : value) (old : source)
  (s : sources) (entry : string * value) :
  config_ok existing →
  ∃ s', track_config_field n key existing old s entry = Ok s'.
Proof.
  intros Hok. unfold track_config_field.
  destruct (existing_config_dict existing Hok) as [cfg ->]. simpl.
  destruct (negb (dict_has entry.1 cfg)); by eexists.
Qed.

(** The loop over the config fields of one entry: every field of the
    entry ends attributed to the profile, every other field is as before,
    and nothing but the field map of this module changes. *)
Lemma track_config_fields_effect (n key : string) (existing : value)
  (old : source) (cfg : dict) (s s' : sources) :
  fold_result (track_config_field n key existing old) s cfg = Ok s' →
  src_session s' = src_session s ∧ src_modules s' = src_modules s ∧
  src_agents s' = src_agents s ∧
  (∀ key', key' ≠ key → cfg_map s' key' = cfg_map s key') ∧
  (∀ f, if dict_has f cfg
        then ∃ p, cfg_map s' key !! f = Some p ∧ first_of p = Label n
        else cfg_map s' key !! f = cfg_map s key !! f).
Proof.
  revert s. induction cfg as [|[f0 v0] cfg IH]; intros s.
  - by intros [= <-].
  - cbn [fold_result].
    destruct (track_config_field n key existing old s (f0, v0)) as [s1|] eqn:Hstep;
      [|done].
    simpl. intros Hrest.
    apply track_config_field_inv in Hstep as (p & Hp & ->). simpl in *.
    destruct (IH _ Hrest) as (Hsess & Hmods & Hagents & Hframe & Hfields).
    split; [done|]. split; [done|]. split; [done|]. split.
    + intros key' Hne. rewrite Hframe by done. rewrite cfg_map_set.
      by rewrite decide_False.
    + intros f. specialize (Hfields f).
      assert (dict_has f ((f0, v0) :: cfg) = bool_decide (f = f0) || dict_has f cfg)
        as ->.
      { unfold dict_has. cbn [dict_get]. case_decide.
        - by rewrite bool_decide_true.
        - by rewrite bool_decide_false. }
      destruct (dict_has f cfg); [by rewrite orb_true_r|].
      rewrite orb_false_r, Hfields, cfg_map_set, decide_True by done.
      destruct (decide (f = f0)) as [->|Hne].
      * rewrite bool_decide_true by done. rewrite lookup_insert_eq. eauto.
      * rewrite bool_decide_false by done. by rewrite lookup_insert_ne.
Qed.

Lemma fold_result_total {A S : Type} (f : S → A → result S) (Q : A → Prop)
  (l : list A) (s : S) :
  Forall Q l → (∀ s a, Q a → ∃ s', f s a = Ok s') →
  ∃ s', fold_result f s l = Ok s'.
Proof.
  intros Hl Hf. revert s. induction Hl as [|a l Ha Hl IH]; intros s.
  - by eexists.
  - cbn [fold_result]. destruct (Hf s a Ha) as [s1 ->]. simpl. apply IH.
Qed.

(** What one item of a module list does to the provenance, given the
    entries [l] of the merged section: nothing outside the item's own
    module; a new module is attributed to the profile with an empty field
    map; an existing one gets the owner of [new_owner] and the profile on
    each config field the item touches. *)
Definition item_effect (sec' n : string) (l : list value) (item : value)
  (s s' : sources) : Prop :=
  src_session s' = src_session s ∧ src_agents s' = src_agents s ∧
  (∀ sec y, sec ≠ sec' ∨ module_of item ≠ Some y →
     mod_src s' sec y = mod_src s sec y) ∧
  (∀ key', (∀ y, module_of item = Some y → key' ≠ config_key sec' y) →
     cfg_map s' key' = cfg_map s key') ∧
  (∀ x, module_of item = Some x →
     if has_module x l
     then ∃ old, mod_src s sec' x = Some old ∧
            mod_src s' sec' x = Some (new_owner n item old) ∧
            (∀ f, if cfg_has f item
                  then ∃ p, cfg_map s' (config_key sec' x) !! f = Some p ∧
                            first_of p = Label n
                  else cfg_map s' (config_key sec' x) !! f
                       = cfg_map s (config_key sec' x) !! f)
     else mod_src s' sec' x = Some (Label n) ∧
          cfg_map s' (config_key sec' x) = ∅).

Lemma existing_module_list (merged : dict) (sec' id : string) (l : list value) :
  default (VList []) (dict_get sec' merged) = VList l →
  existing_module merged sec' id = Ok (find_module id l).
Proof. unfold existing_module. by intros ->. Qed.

Lemma track_owner_spec (sec' id n : string) (entry : dict) (old : source)
  (s : sources) :
  mod_src s sec' id = Some old →
  let s1 := track_owner sec' id n entry (first_of old) s in
  src_session s1 = src_session s ∧ src_agents s1 = src_agents s ∧
  src_config_fields s1 = src_config_fields s ∧
  mod_src s1 sec' id = Some (new_owner n (VDict entry) old) ∧
  (∀ sec y, sec ≠ sec' ∨ y ≠ id → mod_src s1 sec y = mod_src s sec y).
Proof.
  intros Hold. unfold track_owner, new_owner. cbn [has_source has_config].
  destruct (dict_has "source" entry); [|destruct (dict_has "config" entry)].
  - repeat split; try done.
    + rewrite mod_src_set_module. by rewrite decide_True.
    + intros sec y Hne. rewrite mod_src_set_module.
      rewrite decide_False; [done | tauto].
  - repeat split; try done.
    + change (mod_src (mark_config_modified sec' id n ?t) sec' id)
        with (mod_src t sec' id).
      rewrite mod_src_set_module. by rewrite decide_True.
    + intros sec y Hne.
      change (mod_src (mark_config_modified sec' id n ?t) sec y)
        with (mod_src t sec y).
      rewrite mod_src_set_module. rewrite decide_False; [done | tauto].
  - by repeat split.
Qed.

Lemma track_item_effect (sec' n : string) (merged : dict) (l : list value)
  (item : value) (s s' : sources) :
  default (VList []) (dict_get sec' merged) = VList l →
  track_item sec' n merged s item = Ok s' →
  item_effect sec' n l item s s'.
Proof.
  intros Hl. unfold track_item.
  assert (module_of item = None → s' = s → item_effect sec' n l item s s')
    as Hskip.
  { intros Hnone ->. repeat split; try done. intros x Hx. congruence. }
  destruct item as [| | | | | |entry|]; try (intros [= <-]; by apply Hskip).
  destruct (dict_get "module" entry) as [[| | | |id| | |]|] eqn:Hmodule;
    try (intros [= <-]; apply Hskip; [by cbn [module_of]; rewrite Hmodule | done]).
  clear Hskip.
  assert (module_of (VDict entry) = Some id) as Hid
    by (cbn [module_of]; by rewrite Hmodule).
  rewrite (existing_module_list _ _ _ _ Hl). simpl.
  destruct (find_module id l) as [existing|] eqn:Hfind.
  - assert (has_module id l = true) as Hex
      by (apply find_module_has; by rewrite Hfind).
    destruct ((src_modules s !!! sec') !! id) as [old|] eqn:Hold; [|done].
    destruct (track_owner_spec sec' id n entry old s Hold)
      as (Hsess1 & Hagents1 & Hcfg1 & Hmod1 & Hframe1).
    set (s1 := track_owner sec' id n entry (first_of old) s) in *.
    assert (∀ key', cfg_map s1 key' = cfg_map s key') as Hcfgmap1
      by (intros key'; unfold cfg_map; by rewrite Hcfg1).
    assert (∀ cfg, dict_get "config" entry = Some (VDict cfg) →
              ∀ s2, (∀ key', cfg_map s2 key' = cfg_map s1 key') →
                    src_session s2 = src_session s1 →
                    src_agents s2 = src_agents s1 →
                    src_modules s2 = src_modules s1 →
              fold_result (track_config_field n (config_key sec' id) existing
                             (first_of old)) s2 cfg = Ok s' →
              item_effect sec' n l (VDict entry) s s') as Hfold.
    { intros cfg Hcfg s2 Hmap2 Hsess2 Hagents2 Hmods2 Hloop.
      destruct (track_config_fields_effect _ _ _ _ _ _ _ Hloop)
        as (Hsess & Hmods & Hagents & Hframe & Hfields).
      assert (∀ sec y, mod_src s' sec y = mod_src s1 sec y) as Hmod
        by (intros sec y; unfold mod_src; by rewrite Hmods, Hmods2).
      unfold item_effect. rewrite Hid.
      split; [congruence|]. split; [congruence|]. split; [|split].
      - intros sec y Hne. rewrite Hmod. apply Hframe1.
        destruct Hne as [?|Hne]; [by left | right; congruence].
      - intros key' Hne. rewrite Hframe by by apply Hne.
        by rewrite Hmap2, Hcfgmap1.
      - intros x [= <-]. rewrite Hex. exists old. split; [done|].
        split; [by rewrite Hmod|]. intros f. specialize (Hfields f).
        cbn [cfg_has]. rewrite Hcfg.
        destruct (dict_has f cfg); [done|]. by rewrite Hfields, Hmap2, Hcfgmap1. }
    assert ((∀ cfg, dict_get "config" entry ≠ Some (VDict cfg)) →
            item_effect sec' n l (VDict entry) s s1) as Hplain.
    { intros Hcfg. unfold item_effect. rewrite Hid.
      split; [done|]. split; [done|]. split; [|split].
      - intros sec y Hne. apply Hframe1.
        destruct Hne as [?|Hne]; [by left | right; congruence].
      - intros key' _. apply Hcfgmap1.
      - intros x [= <-]. rewrite Hex. exists old.
        split; [done|]. split; [done|]. intros f. cbn [cfg_has].
        destruct (dict_get "config" entry) as [[| | | | | |cfg|]|] eqn:Hc;
          try by rewrite Hcfgmap1.
        by destruct (Hcfg cfg). }
    destruct (dict_get "config" entry) as [[| | | | | |cfg|]|] eqn:Hcfg;
      try (intros [= <-]; by apply Hplain).
    case_decide as Hkey.
    + by apply (Hfold cfg eq_refl s1).
    + apply (Hfold cfg eq_refl); try done.
      intros key'. rewrite cfg_map_set. case_decide as Hk; [|done].
      subst key'. symmetry. apply cfg_map_missing.
      by apply eq_None_not_Some.
  - assert (has_module id l = false) as Hex.
    { destruct (has_module id l) eqn:Hh; [|done].
      apply find_module_has in Hh. rewrite Hfind in Hh. by destruct Hh. }
    intros [= <-]. unfold item_effect. rewrite Hid.
    split; [done|]. split; [done|]. split; [|split].
    + intros sec y Hne.
      change (mod_src (set_config_fields ?g ?t) sec y) with (mod_src t sec y).
      rewrite mod_src_set_module. rewrite decide_False; [done|].
      intros [-> ->]. by destruct Hne.
    + intros key' Hne. rewrite cfg_map_set.
      rewrite decide_False by by apply Hne. done.
    + intros x [= <-]. rewrite Hex. split.
      * change (mod_src (set_config_fields ?g ?t) sec' id) with (mod_src t sec' id).
        rewrite mod_src_set_module. by rewrite decide_True.
      * rewrite cfg_map_set. by rewrite decide_True.
Qed.

Lemma track_item_total (sec' n : string) (merged : dict) (l : list value)
  (item : value) (s : sources) :
  default (VList []) (dict_get sec' merged) = VList l →
  Forall config_ok l →
  (∀ y, has_module y l = true → is_Some (mod_src s sec' y)) →
  ∃ s', track_item sec' n merged s item = Ok s'.
Proof.
  intros Hl Hok Hdom. unfold track_item.
  destruct item as [| | | | | |entry|]; try by eexists.
  destruct (dict_get "module" entry) as [[| | | |id| | |]|]; try by eexists.
  rewrite (existing_module_list _ _ _ _ Hl). simpl.
  destruct (find_module id l) as [existing|] eqn:Hfind; [|by eexists].
  destruct (Hdom id) as [old Hold].
  { apply find_module_has. by rewrite Hfind. }
  unfold mod_src in Hold. rewrite Hold.
  destruct (dict_get "config" entry) as [[| | | | | |cfg|]|]; try by eexists.
  apply (fold_result_total _ (λ _, True)).
  - by apply Forall_true.
  - intros s1 a _. apply track_config_field_total.
    apply find_module_Some in Hfind as [_ Hin].
    rewrite Forall_forall in Hok. by apply Hok.
Qed.

(** ** Provenance: one module through a list of items *)

(** The entries of a list for module [x]: one of them gives a [source];
    one of them touches the config field [f]. *)
Definition sourced (x : string) (items : list value) : bool :=
  existsb (λ item, bool_decide (module_of item = Some x) && has_source item) items.

Definition touched (f x : string) (items : list value) : bool :=
  existsb (λ item, bool_decide (module_of item = Some x) && cfg_has f item) items.

(** The owner of an existing module after the entries for it, in order. *)
Definition owner_after (n x : string) (items : list value) (old : source)
  : source :=
  fold_left
    (λ owner item,
       if bool_decide (module_of item = Some x) then new_owner n item owner
       else owner)
    items old.

(** The provenance of module [x] and of its config fields is the same in
    two states. *)
Definition same_at (sec x : string) (s s' : sources) : Prop :=
  mod_src s' sec x = mod_src s sec x ∧
  cfg_map s' (config_key sec x) = cfg_map s (config_key sec x).

(** What the entries [items] of a chain member named [n] do to module [x]
    of a section, [ex] telling whether the module was in the merged state
    before the member. *)
Definition at_effect (sec n x : string) (ex : bool) (items : list value)
  (s s' : sources) : Prop :=
  (has_module x items = false → same_at sec x s s') ∧
  (ex = false → has_module x items = true → mod_src s' sec x = Some (Label n)) ∧
  (ex = true → ∀ old, mod_src s sec x = Some old →
     mod_src s' sec x = Some (owner_after n x items old)) ∧
  (ex = true → ∀ f,
     if touched f x items
     then ∃ p, cfg_map s' (config_key sec x) !! f = Some p ∧ first_of p = Label n
     else cfg_map s' (config_key sec x) !! f = cfg_map s (config_key sec x) !! f).

Lemma same_at_refl (sec x : string) (s : sources) : same_at sec x s s.
Proof. by split. Qed.

Lemma same_at_trans (sec x : string) (s1 s2 s3 : sources) :
  same_at sec x s1 s2 → same_at sec x s2 s3 → same_at sec x s1 s3.
Proof. intros [? ?] [? ?]. split; congruence. Qed.

Lemma at_effect_nil (sec n x : string) (ex : bool) (s s' : sources) :
  same_at sec x s s' → at_effect sec n x ex [] s s'.
Proof.
  intros [Hmod Hcfg]. split; [done|]. split; [done|]. split.
  - intros _ old Hold. by rewrite Hmod.
  - intros _ f. simpl. by rewrite Hcfg.
Qed.

Lemma at_effect_before (sec n x : string) (ex : bool) (items : list value)
  (s0 s s' : sources) :
  same_at sec x s0 s → at_effect sec n x ex items s s' →
  at_effect sec n x ex items s0 s'.
Proof.
  intros [Hmod Hcfg] (Hnone & Hnew & Hown & Hfields).
  split; [|split; [done|split]].
  - intros Hno. eapply same_at_trans; [by split | by apply Hnone].
  - intros Hex old Hold. apply Hown; [done | by rewrite Hmod].
  - intros Hex f. specialize (Hfields Hex f). by rewrite Hcfg in Hfields.
Qed.

Lemma at_effect_after (sec n x : string) (ex : bool) (items : list value)
  (s s' s1 : sources) :
  at_effect sec n x ex items s s' → same_at sec x s' s1 →
  at_effect sec n x ex items s s1.
Proof.
  intros (Hnone & Hnew & Hown & Hfields) [Hmod Hcfg].
  split; [|split; [|split]].
  - intros Hno. eapply same_at_trans; [by apply Hnone | by split].
  - intros Hex Hhas. rewrite Hmod. by apply Hnew.
  - intros Hex old Hold. rewrite Hmod. by apply Hown.
  - intros Hex f. rewrite Hcfg. by apply Hfields.
Qed.

Lemma config_key_inj_module (sec x y : string) :
  config_key sec x = config_key sec y → x = y.
Proof.
  unfold config_key. induction sec as [|c sec IH]; simpl.
  - rewrite !append_cons. by intros [=].
  - rewrite !append_cons. intros [=]. by apply IH.
Qed.

(** One item, seen from module [x]. *)
Lemma item_effect_at (sec n x : string) (l : list value) (item : value)
  (s s' : sources) :
  item_effect sec n l item s s' →
  at_effect sec n x (has_module x l) [item] s s'.
Proof.
  intros (_ & _ & Hmod & Hcfg & Hown).
  assert (has_module x [item] = bool_decide (module_of item = Some x)) as Hone.
  { unfold has_module. simpl. by rewrite orb_false_r. }
  assert (touched_one : ∀ f, touched f x [item]
            = bool_decide (module_of item = Some x) && cfg_has f item).
  { intros f. unfold touched. simpl. by rewrite orb_false_r. }
  destruct (decide (module_of item = Some x)) as [Hx|Hx].
  - specialize (Hown x Hx). rewrite bool_decide_true in Hone by done.
    split; [by rewrite Hone|]. split; [|split].
    + intros Hex _. rewrite Hex in Hown. by destruct Hown.
    + intros Hex old Hold. rewrite Hex in Hown.
      destruct Hown as (old' & Hold' & Hnew & _).
      rewrite Hold in Hold'. injection Hold' as <-.
      unfold owner_after. simpl. by rewrite bool_decide_true.
    + intros Hex f. rewrite Hex in Hown. destruct Hown as (old' & _ & _ & Hf).
      rewrite touched_one, bool_decide_true by done. apply Hf.
  - assert (same_at sec x s s') as Hsame.
    { split; [apply Hmod; by right|]. apply Hcfg.
      intros y Hy Heq. apply config_key_inj_module in Heq. congruence. }
    apply at_effect_after with s; [|done].
    rewrite bool_decide_false in Hone by done.
    split; [intros _; apply same_at_refl|]. split; [by rewrite Hone|]. split.
    * intros _ old Hold. unfold owner_after. simpl.
      by rewrite bool_decide_false.
    * intros _ f. rewrite touched_one, bool_decide_false by done. done.
Qed.

(** Two runs of items in sequence. *)
Lemma at_effect_app (sec n x : string) (ex : bool) (items1 items2 : list value)
  (s s1 s2 : sources) :
  at_effect sec n x ex items1 s s1 → at_effect sec n x ex items2 s1 s2 →
  at_effect sec n x ex (items1 ++ items2) s s2.
Proof.
  intros (Hnone1 & Hnew1 & Hown1 & Hf1) (Hnone2 & Hnew2 & Hown2 & Hf2).
  split; [|split; [|split]].
  - rewrite has_module_app, orb_false_iff. intros [H1 H2].
    eapply same_at_trans; [by apply Hnone1 | by apply Hnone2].
  - intros Hex. rewrite has_module_app, orb_true_iff.
    destruct (has_module x items2) eqn:H2; [intros _; by apply Hnew2|].
    intros [H1|?]; [|done]. destruct (Hnone2 eq_refl) as [-> _]. by apply Hnew1.
  - intros Hex old Hold. unfold owner_after. rewrite fold_left_app.
    apply Hown2; [done|]. by apply Hown1.
  - intros Hex f. specialize (Hf1 Hex f). specialize (Hf2 Hex f).
    unfold touched in *. rewrite existsb_app.
    destruct (existsb _ items2); [by rewrite orb_true_r|].
    rewrite orb_false_r, Hf2. done.
Qed.

(** ** Provenance: the loop over the items of a section *)

Lemma item_effect_mono (sec' n : string) (l : list value) (item : value)
  (s s' : sources) (sec y : string) :
  item_effect sec' n l item s s' →
  is_Some (mod_src s sec y) → is_Some (mod_src s' sec y).
Proof.
  intros (_ & _ & Hmod & _ & Hown) Hsome.
  destruct (decide (sec = sec')) as [->|Hsec]; [|by rewrite Hmod by by left].
  destruct (decide (module_of item = Some y)) as [Hy|Hy];
    [|by rewrite Hmod by by right].
  specialize (Hown y Hy). destruct (has_module y l).
  - destruct Hown as (old & _ & -> & _). by eexists.
  - destruct Hown as [-> _]. by eexists.
Qed.

Lemma item_effect_self (sec' n : string) (l : list value) (item : value)
  (s s' : sources) (y : string) :
  item_effect sec' n l item s s' → module_of item = Some y →
  is_Some (mod_src s' sec' y).
Proof.
  intros (_ & _ & _ & _ & Hown) Hy. specialize (Hown y Hy).
  destruct (has_module y l).
  - destruct Hown as (old & _ & -> & _). by eexists.
  - destruct Hown as [-> _]. by eexists.
Qed.

Lemma track_items_effect (sec' n x : string) (merged : dict)
  (l items : list value) (s s' : sources) :
  default (VList []) (dict_get sec' merged) = VList l →
  fold_result (track_item sec' n merged) s items = Ok s' →
  at_effect sec' n x (has_module x l) items s s'.
Proof.
  intros Hl. revert s. induction items as [|item items IH]; intros s.
  - intros [= <-]. apply at_effect_nil, same_at_refl.
  - cbn [fold_result].
    destruct (track_item sec' n merged s item) as [s1|] eqn:Hstep; [|done].
    simpl. intros Hrest. change (item :: items) with ([item] ++ items)%list.
    apply at_effect_app with s1; [|by apply IH].
    apply item_effect_at. by apply track_item_effect with merged.
Qed.

Lemma track_items_frame (sec' n : string) (merged : dict)
  (l items : list value) (s s' : sources) :
  sec' ∈ module_sections →
  default (VList []) (dict_get sec' merged) = VList l →
  fold_result (track_item sec' n merged) s items = Ok s' →
  src_session s' = src_session s ∧ src_agents s' = src_agents s ∧
  (∀ sec y, sec ∈ module_sections → sec ≠ sec' → same_at sec y s s') ∧
  (∀ sec y, is_Some (mod_src s sec y) → is_Some (mod_src s' sec y)) ∧
  (∀ y, has_module y items = true → is_Some (mod_src s' sec' y)).
Proof.
  intros Hsec' Hl. revert s. induction items as [|item items IH]; intros s.
  - intros [= <-]. repeat split; done.
  - cbn [fold_result].
    destruct (track_item sec' n merged s item) as [s1|] eqn:Hstep; [|done].
    simpl. intros Hrest.
    pose proof (track_item_effect _ _ _ _ _ _ _ Hl Hstep) as Heff.
    destruct (IH _ Hrest) as (Hsess & Hagents & Hframe & Hmono & Hself).
    pose proof Heff as (Hsess1 & Hagents1 & Hmod1 & Hcfg1 & _).
    split; [congruence|]. split; [congruence|]. split; [|split].
    + intros sec y Hsec Hne. apply same_at_trans with s1; [|by apply Hframe].
      split; [apply Hmod1; by left|]. apply Hcfg1. intros y' _ Heq.
      by apply config_key_inj in Heq as [? _].
    + intros sec y Hsome. apply Hmono. by apply (item_effect_mono _ _ _ _ _ _ _ _ Heff).
    + intros y. cbn [has_module existsb]. rewrite orb_true_iff.
      intros [Hy|Hy]; [|by apply Hself].
      apply bool_decide_eq_true in Hy. apply Hmono.
      by apply (item_effect_self _ _ _ _ _ _ _ Heff).
Qed.

Lemma track_items_total (sec' n : string) (merged : dict)
  (l items : list value) (s : sources) :
  default (VList []) (dict_get sec' merged) = VList l →
  Forall config_ok l →
  (∀ y, has_module y l = true → is_Some (mod_src s sec' y)) →
  ∃ s', fold_result (track_item sec' n merged) s items = Ok s'.
Proof.
  intros Hl Hok. revert s. induction items as [|item items IH]; intros s Hdom.
  - by eexists.
  - cbn [fold_result].
    destruct (track_item_total sec' n merged l item s Hl Hok Hdom) as [s1 Hstep].
    rewrite Hstep. simpl. apply IH. intros y Hy.
    eapply item_effect_mono; [by eapply track_item_effect | by apply Hdom].
Qed.

Lemma track_section_items (p : dict) (n : string) (merged : dict) (s : sources)
  (sec' : string) :
  track_section p n merged s sec'
  = fold_result (track_item sec' n merged) s (items_of sec' p).
Proof.
  unfold track_section, items_of. by destruct (dict_get sec' p) as [[]|].
Qed.

(** ** Provenance: the three sections of a chain member *)

(** Every module section of the merged state is a list of entries whose
    configurations are mappings, and every module in it has an owner. *)
Definition sections_ok (merged : dict) (s : sources) : Prop :=
  ∀ sec, sec ∈ module_sections →
    ∃ l, default (VList []) (dict_get sec merged) = VList l ∧
         Forall config_ok l ∧
         (∀ y, has_module y l = true → is_Some (mod_src s sec y)).

Lemma track_sections_effect (p : dict) (n : string) (merged : dict)
  (sec x : string) (l : list value) (secs : list string) (s s' : sources) :
  (∀ sec', sec' ∈ secs → sec' ∈ module_sections ∧
     ∃ l', default (VList []) (dict_get sec' merged) = VList l') →
  NoDup secs → sec ∈ module_sections →
  default (VList []) (dict_get sec merged) = VList l →
  fold_result (track_section p n merged) s secs = Ok s' →
  src_session s' = src_session s ∧ src_agents s' = src_agents s ∧
  (∀ sec0 y, is_Some (mod_src s sec0 y) → is_Some (mod_src s' sec0 y)) ∧
  (if decide (sec ∈ secs)
   then at_effect sec n x (has_module x l) (items_of sec p) s s' ∧
        (∀ y, has_module y (items_of sec p) = true → is_Some (mod_src s' sec y))
   else same_at sec x s s').
Proof.
  intros Hsecs Hnodup Hsec Hl. revert s.
  induction secs as [|sec0 secs IH]; intros s.
  - intros [= <-]. repeat split; done.
  - cbn [fold_result]. rewrite track_section_items.
    destruct (fold_result _ s (items_of sec0 p)) as [s1|] eqn:Hstep; [|done].
    simpl. intros Hrest. apply NoDup_cons in Hnodup as [Hfresh Hnodup].
    destruct (Hsecs sec0) as [Hsec0 [l0 Hl0]]; [by left|].
    destruct (track_items_frame _ _ _ _ _ _ _ Hsec0 Hl0 Hstep)
      as (Hsess1 & Hagents1 & Hframe1 & Hmono1 & Hself1).
    destruct (IH (λ sec' Hin, Hsecs sec' (list_elem_of_further _ _ _ Hin)) Hnodup
                _ Hrest) as (Hsess & Hagents & Hmono & Hat).
    split; [congruence|]. split; [congruence|].
    split; [intros sec1 y Hsome; by apply Hmono, Hmono1|].
    destruct (decide (sec = sec0)) as [->|Hne].
    + rewrite decide_True by by left. rewrite decide_False in Hat by done.
      rewrite Hl0 in Hl. injection Hl as <-. split.
      * apply at_effect_after with s1; [|done].
        by apply track_items_effect with merged.
      * intros y Hy. by apply Hmono, Hself1.
    + destruct (decide (sec ∈ secs)) as [Hin|Hnin].
      * rewrite decide_True by by right. destruct Hat as [Hat Hself].
        split; [|done]. apply at_effect_before with s1; [|done].
        by apply Hframe1.
      * rewrite decide_False by (rewrite elem_of_cons; tauto).
        apply same_at_trans with s1; [by apply Hframe1 | done].
Qed.

Lemma track_sections_total (p : dict) (n : string) (merged : dict)
  (secs : list string) (s : sources) :
  (∀ sec, sec ∈ secs → sec ∈ module_sections) →
  sections_ok merged s →
  ∃ s', fold_result (track_section p n merged) s secs = Ok s'.
Proof.
  intros Hsecs. revert s. induction secs as [|sec0 secs IH]; intros s Hok.
  - by eexists.
  - cbn [fold_result]. rewrite track_section_items.
    destruct (Hok sec0) as (l0 & Hl0 & Hcfg0 & Hdom0); [apply Hsecs; by left|].
    destruct (track_items_total sec0 n merged l0 (items_of sec0 p) s Hl0 Hcfg0 Hdom0)
      as [s1 Hstep].
    rewrite Hstep. simpl.
    apply IH; [intros sec Hin; apply Hsecs; by right|].
    intros sec Hsec. destruct (Hok sec Hsec) as (l & Hl & Hcfg & Hdom).
    exists l. split; [done|]. split; [done|]. intros y Hy.
    assert (sec0 ∈ module_sections) as Hsec0 by (apply Hsecs; by left).
    destruct (track_items_frame _ _ _ _ _ _ _ Hsec0 Hl0 Hstep)
      as (_ & _ & _ & Hmono & _).
    by apply Hmono, Hdom.
Qed.

(** ** Provenance: the session fields of a chain member *)

(** The merged state's [session], when present, is a mapping. *)
Definition session_ok (merged : dict) : Prop :=
  ∀ v, dict_get "session" merged = Some v → ∃ ms, v = VDict ms.

(** What a member named [n] records for a session field it sets, given the
    merged session [ms] before it and the field's provenance [old]. *)
Definition session_entry_source (n : string) (ms : dict) (f : string)
  (old : option source) : option source :=
  if dict_has f ms then (λ o, Override n (first_of o)) <$> old
  else Some (Label n).

Lemma session_ok_default (merged : dict) :
  session_ok merged →
  default (VDict []) (dict_get "session" merged) = VDict (session_of merged).
Proof.
  unfold session_ok, session_of. intros Hok.
  destruct (dict_get "session" merged) as [v|]; [|done].
  by destruct (Hok v eq_refl) as [ms ->].
Qed.

Lemma dict_has_cons {V} (f k : string) (v : V) (d : list (string * V)) :
  dict_has f ((k, v) :: d) = bool_decide (f = k) || dict_has f d.
Proof.
  unfold dict_has. cbn [dict_get]. case_decide.
  - by rewrite bool_decide_true.
  - by rewrite bool_decide_false.
Qed.

Lemma dict_has_absent {V} (k : string) (d : list (string * V)) :
  k ∉ d.*1 → dict_has k d = false.
Proof. intros Hk. unfold dict_has. by rewrite (proj2 (dict_get_None k d) Hk). Qed.

Lemma track_session_field_inv (n : string) (merged : dict) (s s' : sources)
  (entry : string * value) :
  session_ok merged →
  track_session_field n merged s entry = Ok s' →
  ∃ v, session_entry_source n (session_of merged) entry.1 (src_session s !! entry.1)
       = Some v ∧
       s' = set_session <[entry.1 := v]> s.
Proof.
  intros Hok. unfold track_session_field, session_entry_source.
  rewrite (session_ok_default _ Hok). simpl.
  destruct (dict_has entry.1 (session_of merged)); simpl.
  - destruct (src_session s !! entry.1) as [old|]; [|done].
    intros [= <-]. by eexists.
  - intros [= <-]. by eexists.
Qed.

Lemma track_session_fields_effect (n : string) (merged : dict) (session : dict)
  (s s' : sources) :
  session_ok merged → unique_keys session →
  fold_result (track_session_field n merged) s session = Ok s' →
  src_modules s' = src_modules s ∧ src_agents s' = src_agents s ∧
  src_config_fields s' = src_config_fields s ∧
  ∀ f, src_session s' !! f
       = if dict_has f session
         then session_entry_source n (session_of merged) f (src_session s !! f)
         else src_session s !! f.
Proof.
  intros Hok. revert s. induction session as [|[f0 v0] session IH]; intros s Huniq.
  - by intros [= <-].
  - cbn [fold_result].
    destruct (track_session_field n merged s (f0, v0)) as [s1|] eqn:Hstep; [|done].
    simpl. intros Hrest. apply NoDup_cons in Huniq as [Hfresh Huniq].
    apply track_session_field_inv in Hstep as (v & Hv & ->); [|done].
    simpl in *. destruct (IH _ Huniq Hrest) as (Hmods & Hagents & Hcfg & Hsess).
    split; [done|]. split; [done|]. split; [done|].
    intros f. rewrite Hsess, dict_has_cons. simpl.
    destruct (decide (f = f0)) as [->|Hne].
    + rewrite bool_decide_true by done. rewrite dict_has_absent by done.
      simpl. by rewrite lookup_insert_eq.
    + rewrite bool_decide_false by done. simpl. by rewrite lookup_insert_ne.
Qed.

Lemma track_session_fields_total (n : string) (merged : dict) (session : dict)
  (s : sources) :
  session_ok merged →
  (∀ f, dict_has f (session_of merged) = true → is_Some (src_session s !! f)) →
  ∃ s', fold_result (track_session_field n merged) s session = Ok s'.
Proof.
  intros Hok. revert s. induction session as [|[f0 v0] session IH]; intros s Hdom.
  - by eexists.
  - cbn [fold_result].
    assert (∃ s1, track_session_field n merged s (f0, v0) = Ok s1 ∧
                  ∀ f, is_Some (src_session s !! f) → is_Some (src_session s1 !! f))
      as (s1 & -> & Hmono).
    { unfold track_session_field. rewrite (session_ok_default _ Hok). simpl.
      destruct (dict_has f0 (session_of merged)) eqn:Hhas; simpl.
      - destruct (Hdom f0 Hhas) as [old ->]. eexists. split; [done|].
        intros f Hf. simpl. rewrite lookup_insert_is_Some.
        destruct (decide (f0 = f)); [by left | by right].
      - eexists. split; [done|].
        intros f Hf. simpl. rewrite lookup_insert_is_Some.
        destruct (decide (f0 = f)); [by left | by right]. }
    simpl. apply IH. intros f Hf. by apply Hmono, Hdom.
Qed.

Lemma track_session_fields (p : dict) (n : string) (merged : dict) (s : sources) :
  track_session p n merged s
  = fold_result (track_session_field n merged) s (session_of p).
Proof.
  unfold track_session, session_of. by destruct (dict_get "session" p) as [[]|].
Qed.

Lemma sets_session_field_has (f : string) (p : dict) :
  sets_session_field f p = dict_has f (session_of p).
Proof.
  unfold sets_session_field, session_of.
  by destruct (dict_get "session" p) as [[]|].
Qed.

Lemma config_node_session (p : dict) : config_node p → unique_keys (session_of p).
Proof.
  intros (_ & Hsession & _). unfold session_of.
  destruct (dict_get "session" p) as [v|]; [|apply NoDup_nil_2].
  by destruct (Hsession v eq_refl) as (session & -> & Huniq).
Qed.

Lemma config_node_items (sec : string) (p : dict) :
  config_node p → sec ∈ module_sections →
  Forall module_entry (items_of sec p) ∧
  (∀ v, dict_get sec p = Some v → v = VList (items_of sec p)).
Proof.
  intros (_ & _ & Hsections) Hsec. unfold items_of.
  destruct (dict_get sec p) as [v|] eqn:Hv; [|by split].
  destruct (Hsections sec v Hsec Hv) as (items & -> & Hitems).
  split; [done|]. by intros v [= <-].
Qed.

Lemma track_agents_frame (p : dict) (n : string) (merged : dict) (s : sources) :
  src_session (track_agents p n merged s) = src_session s ∧
  src_modules (track_agents p n merged s) = src_modules s ∧
  src_config_fields (track_agents p n merged s) = src_config_fields s.
Proof.
  unfold track_agents. destruct (dict_has "agents" p); [|done].
  by destruct (negb (dict_has "agents" merged)).
Qed.

Lemma same_at_fields (sec x : string) (s s' : sources) :
  src_modules s' = src_modules s → src_config_fields s' = src_config_fields s →
  same_at sec x s s'.
Proof. intros Hmods Hcfg. unfold same_at, mod_src, cfg_map. by rewrite Hmods, Hcfg. Qed.

(** ** Provenance: the merge of one chain member *)

Lemma is_module_section_true (sec : string) :
  sec ∈ module_sections → is_module_section sec = true.
Proof. intros Hsec. unfold is_module_section. by apply bool_decide_eq_true. Qed.

Lemma items_of_default (sec : string) (d : dict) (l : list value) :
  default (VList []) (dict_get sec d) = VList l → items_of sec d = l.
Proof.
  unfold items_of. destruct (dict_get sec d) as [v|]; simpl.
  - by intros ->.
  - by intros [= <-].
Qed.

Lemma merge_member_session (merged p : dict) :
  session_ok merged → config_node p →
  session_ok (merge_profile_dicts merged p) ∧
  ∀ f, dict_has f (session_of (merge_profile_dicts merged p))
       = dict_has f (session_of merged) || dict_has f (session_of p).
Proof.
  intros Hok Hp. pose proof Hp as (Huniq & Hsession & _).
  unfold session_ok, session_of in *.
  rewrite merge_profile_dicts_lookup by done.
  destruct (dict_get "session" p) as [cv|].
  - destruct (Hsession cv eq_refl) as (session & -> & _).
    destruct (dict_get "session" merged) as [pv|]; unfold merged_value.
    + destruct (Hok pv eq_refl) as [ms ->].
      change (is_module_section "session") with false. cbv iota.
      rewrite merge_value_dict. split.
      * intros v [= <-]. by eexists.
      * intros f. apply merge_entries_has.
    + split; [intros v [= <-]; by eexists | done].
  - split; [done|]. intros f.
    change (dict_has f []) with false. by rewrite orb_false_r.
Qed.

Lemma merge_member_section (sec : string) (merged p : dict) (l : list value) :
  config_node p → sec ∈ module_sections →
  default (VList []) (dict_get sec merged) = VList l → Forall config_ok l →
  ∃ l', default (VList []) (dict_get sec (merge_profile_dicts merged p)) = VList l' ∧
        Forall config_ok l' ∧
        ∀ y, has_module y l' = has_module y l || has_module y (items_of sec p).
Proof.
  intros Hp Hsec Hl Hok. pose proof Hp as (Huniq & _).
  destruct (config_node_items sec p Hp Hsec) as [Hitems Hshape].
  rewrite merge_profile_dicts_lookup by done.
  destruct (dict_get sec p) as [cv|] eqn:Hcv.
  - rewrite (Hshape cv eq_refl). unfold merged_value.
    destruct (dict_get sec merged) as [pv|]; simpl in Hl.
    + subst pv. rewrite is_module_section_true by done. simpl.
      eexists. split; [done|].
      split; [by apply merge_module_lists_spec with (y := sec)|].
      intros y. by apply merge_module_lists_spec.
    + injection Hl as <-. simpl. eexists. split; [done|]. split; [|done].
      eapply Forall_impl; [done|]. apply module_entry_config_ok.
  - exists l. split; [done|]. split; [done|]. intros y.
    unfold items_of. rewrite Hcv. change (has_module y []) with false.
    by rewrite orb_false_r.
Qed.

(** ** Provenance: the walk over the chain *)

(** A chain member has an entry for module [x] in a section. *)
Definition mentions (sec x : string) (member : dict * string) : bool :=
  has_module x (items_of sec member.1).

(** The provenance of a session field after the members that set it, in
    order: the first one is its source, each later one overrides it and
    keeps the label that held it before. *)
Definition prov_step (acc : option source) (n : string) : option source :=
  Some (match acc with
        | None => Label n
        | Some old => Override n (first_of old)
        end).

Definition prov (setters : list string) : option source :=
  fold_left prov_step setters None.

(** The state of the walk after the members [done]. *)
Definition chain_inv (done : list (dict * string)) (merged : dict) (s : sources)
  : Prop :=
  session_ok merged ∧
  (∀ f, dict_has f (session_of merged) = true ↔ is_Some (src_session s !! f)) ∧
  (∀ f, src_session s !! f = prov (session_setters f done)) ∧
  sections_ok merged s ∧
  (∀ sec y, sec ∈ module_sections →
     has_module y (items_of sec merged) = existsb (mentions sec y) done).

Lemma chain_inv_initial : chain_inv [] [] initial_sources.
Proof.
  split; [by intros v|]. split; [|split; [done|split]].
  - intros f. simpl. rewrite lookup_empty. split; [done | by intros [? ?]].
  - intros sec Hsec. exists []. split; [done|]. split; [done|]. by intros y.
  - done.
Qed.

Lemma session_setters_snoc (f : string) (done : list (dict * string))
  (p : dict) (n : string) :
  session_setters f (done ++ [(p, n)])
  = (session_setters f done ++ if sets_session_field f p then [n] else [])%list.
Proof.
  unfold session_setters. rewrite filter_app, fmap_app. f_equal.
  destruct (sets_session_field f p) eqn:Hp.
  - by rewrite filter_cons_True.
  - rewrite filter_cons_False; [done|]. simpl. by rewrite Hp.
Qed.

Lemma prov_snoc (setters : list string) (n : string) :
  prov (setters ++ [n]) = prov_step (prov setters) n.
Proof. unfold prov. by rewrite fold_left_app. Qed.

Lemma NoDup_module_sections : NoDup module_sections.
Proof. unfold module_sections. by apply (bool_decide_unpack _). Qed.

(** One member of the chain: the tracker returns, the state of the walk is
    kept, and each module of each section is affected as [at_effect]
    describes. *)
Lemma track_profile_step (done : list (dict * string)) (merged : dict)
  (s : sources) (p : dict) (n : string) :
  chain_inv done merged s → config_node p →
  ∃ s', track_profile (merged, s) (p, n) = Ok (merge_profile_dicts merged p, s') ∧
        chain_inv (done ++ [(p, n)]) (merge_profile_dicts merged p) s' ∧
        ∀ sec x, sec ∈ module_sections →
          at_effect sec n x (existsb (mentions sec x) done) (items_of sec p) s s'.
Proof.
  intros (Hsok & Hshas & Hsprov & Hsecs & Hmods) Hp.
  unfold track_profile. rewrite track_session_fields.
  destruct (track_session_fields_total n merged (session_of p) s Hsok) as [s1 Hs1].
  { intros f Hf. by apply Hshas. }
  rewrite Hs1. cbn [mbind result_bind].
  destruct (track_session_fields_effect _ _ _ _ _ Hsok (config_node_session _ Hp) Hs1)
    as (Hmods1 & Hagents1 & Hcfg1 & Hsess1).
  assert (∀ sec y, mod_src s1 sec y = mod_src s sec y) as Hmod1.
  { intros sec y. unfold mod_src. by rewrite Hmods1. }
  assert (sections_ok merged s1) as Hsecs1.
  { intros sec Hsec. destruct (Hsecs sec Hsec) as (l & Hl & Hcfg & Hdom).
    exists l. split; [done|]. split; [done|]. intros y Hy.
    rewrite Hmod1. by apply Hdom. }
  destruct (track_sections_total p n merged module_sections s1) as [s2 Hs2];
    [done | done |].
  rewrite Hs2. cbn [mbind result_bind]. eexists. split; [reflexivity|].
  destruct (track_agents_frame p n merged s2) as (Hsess3 & Hmods3 & Hcfg3).
  set (s' := track_agents p n merged s2) in *.
  assert (∀ sec y, mod_src s' sec y = mod_src s2 sec y) as Hmod3.
  { intros sec y. unfold mod_src. by rewrite Hmods3. }
  assert (∀ sec x l, sec ∈ module_sections →
            default (VList []) (dict_get sec merged) = VList l →
            src_session s2 = src_session s1 ∧
            (∀ sec0 y, is_Some (mod_src s1 sec0 y) → is_Some (mod_src s2 sec0 y)) ∧
            at_effect sec n x (has_module x l) (items_of sec p) s1 s2 ∧
            (∀ y, has_module y (items_of sec p) = true → is_Some (mod_src s2 sec y)))
    as Heff.
  { intros sec x l Hsec Hl.
    destruct (track_sections_effect p n merged sec x l module_sections s1 s2)
      as (Hsess2 & _ & Hmono & Hat); try done.
    - intros sec' Hsec'. split; [done|].
      destruct (Hsecs sec' Hsec') as (l' & Hl' & _). by exists l'.
    - apply NoDup_module_sections.
    - rewrite decide_True in Hat by done. by destruct Hat. }
  assert (src_session s' = src_session s1) as Hsess'.
  { rewrite Hsess3. destruct (Hsecs "providers") as (l & Hl & _); [by left|].
    destruct (Heff "providers" "" l) as [Heq _]; [by left | done | done]. }
  split; [|intros sec x Hsec].
  - split; [by apply merge_member_session|]. split; [|split; [|split]].
    + intros f. destruct (merge_member_session merged p Hsok Hp) as [_ ->].
      rewrite Hsess', Hsess1. specialize (Hshas f).
      unfold session_entry_source.
      destruct (dict_has f (session_of p)).
      * rewrite orb_true_r. split; [intros _|done].
        destruct (dict_has f (session_of merged)); [|by eexists].
        destruct (proj1 Hshas eq_refl) as [old ->]. by eexists.
      * by rewrite orb_false_r.
    + intros f. rewrite Hsess', Hsess1, session_setters_snoc.
      rewrite sets_session_field_has. specialize (Hshas f).
      unfold session_entry_source.
      destruct (dict_has f (session_of p)); [|by rewrite app_nil_r].
      rewrite prov_snoc, <- Hsprov. unfold prov_step.
      destruct (dict_has f (session_of merged)).
      * by destruct (proj1 Hshas eq_refl) as [old ->].
      * destruct (src_session s !! f) as [old|] eqn:Hold; [|done].
        assert (false = true) by (apply Hshas; by eexists). done.
    + intros sec Hsec. destruct (Hsecs sec Hsec) as (l & Hl & Hcfg & Hdom).
      destruct (merge_member_section sec merged p l Hp Hsec Hl Hcfg)
        as (l' & Hl' & Hcfg' & Hhas').
      destruct (Heff sec "" l Hsec Hl) as (_ & Hmono & _ & Hself).
      exists l'. split; [done|]. split; [done|]. intros y.
      rewrite Hhas', orb_true_iff, Hmod3. intros [Hy|Hy].
      * apply Hmono. rewrite Hmod1. by apply Hdom.
      * by apply Hself.
    + intros sec y Hsec. destruct (Hsecs sec Hsec) as (l & Hl & Hcfg & _).
      destruct (merge_member_section sec merged p l Hp Hsec Hl Hcfg)
        as (l' & Hl' & _ & Hhas').
      rewrite (items_of_default _ _ _ Hl'), Hhas', existsb_app.
      rewrite <- Hmods by done. rewrite (items_of_default _ _ _ Hl).
      simpl. unfold mentions. simpl. by rewrite orb_false_r.
  - destruct (Hsecs sec Hsec) as (l & Hl & _).
    destruct (Heff sec x l Hsec Hl) as (_ & _ & Hat & _).
    rewrite <- Hmods by done. rewrite (items_of_default _ _ _ Hl).
    apply at_effect_before with s1; [by apply same_at_fields|].
    apply at_effect_after with s2; [done|]. by apply same_at_fields.
Qed.

Lemma fold_result_cons_Ok {A S : Type} (f : S → A → result S) (s s1 s2 : S)
  (a : A) (l : list A) :
  f s a = Ok s1 → fold_result f s1 l = Ok s2 → fold_result f s (a :: l) = Ok s2.
Proof. intros Hstep Hrest. cbn [fold_result]. by rewrite Hstep. Qed.

Lemma fold_result_app_Ok {A S : Type} (f : S → A → result S) (s s1 s2 : S)
  (l1 l2 : list A) :
  fold_result f s l1 = Ok s1 → fold_result f s1 l2 = Ok s2 →
  fold_result f s (l1 ++ l2) = Ok s2.
Proof.
  revert s. induction l1 as [|a l1 IH]; intros s.
  - by intros [= <-].
  - cbn [fold_result app]. destruct (f s a) as [s'|]; [|done]. apply IH.
Qed.

Lemma build_walk (chain : list (dict * string)) :
  build_effective_config_with_sources chain.*1 chain.*2
  = fold_result track_profile ([], initial_sources) chain.
Proof. unfold build_effective_config_with_sources. by rewrite zip_fst_snd. Qed.

(** The owner of an existing module after a member's entries: the member
    itself when one of them gives a [source], the previous owner when none
    does. *)
Lemma owner_after_spec (n x : string) (items : list value) (old : source) :
  if sourced x items
  then first_of (owner_after n x items old) = Label n
  else owner_after n x items old = old ∨
       owner_after n x items old = first_of old.
Proof.
  revert old. induction items as [|item items IH]; intros old; [by left|].
  change (owner_after n x (item :: items) old)
    with (owner_after n x items
            (if bool_decide (module_of item = Some x) then new_owner n item old
             else old)).
  change (sourced x (item :: items))
    with (bool_decide (module_of item = Some x) && has_source item
          || sourced x items).
  destruct (bool_decide (module_of item = Some x)); cbn [andb orb]; [|apply IH].
  unfold new_owner. destruct (has_source item); cbn [orb].
  - specialize (IH (Override n (first_of old))).
    destruct (sourced x items); [done|]. destruct IH as [IH|IH]; by rewrite IH.
  - destruct (has_config item); [|apply IH].
    specialize (IH (first_of old)). destruct (sourced x items); [done|].
    rewrite first_of_idemp in IH. right. by destruct IH.
Qed.

(** The walk over a run of members, from a state of the walk: it returns,
    the state is kept, a module none of them mentions is untouched, and a
    module none of them gives a [source] keeps its owner. *)
Lemma walk_members (sec x : string) (rest done : list (dict * string))
  (merged : dict) (s : sources) :
  sec ∈ module_sections → chain_inv done merged s →
  Forall (λ m, config_node m.1) rest →
  ∃ merged' s',
    fold_result track_profile (merged, s) rest = Ok (merged', s') ∧
    chain_inv (done ++ rest) merged' s' ∧
    (Forall (λ m, mentions sec x m = false) rest → same_at sec x s s') ∧
    (existsb (mentions sec x) done = true →
     Forall (λ m, sourced x (items_of sec m.1) = false) rest →
     ∀ a, mod_src s sec x = Some (Label a) → mod_src s' sec x = Some (Label a)).
Proof.
  intros Hsec. revert done merged s.
  induction rest as [|[p n] rest IH]; intros done merged s Hinv Hnodes.
  - exists merged, s. rewrite app_nil_r. split; [done|]. split; [done|].
    split; [intros _; apply same_at_refl | done].
  - apply Forall_cons in Hnodes as [Hp Hnodes]. simpl in Hp.
    destruct (track_profile_step done merged s p n Hinv Hp)
      as (s1 & Hstep & Hinv1 & Hat).
    destruct (IH _ _ _ Hinv1 Hnodes) as (merged' & s' & Hfold & Hinv' & Hsame & Hown).
    exists merged', s'.
    split; [by apply fold_result_cons_Ok with (merge_profile_dicts merged p, s1)|].
    split; [by rewrite <- app_assoc in Hinv'|].
    destruct (Hat sec x Hsec) as (Hnone1 & _ & Hown1 & _). split.
    + intros Hno. apply Forall_cons in Hno as [Hno1 Hno].
      apply same_at_trans with s1; [by apply Hnone1 | by apply Hsame].
    + intros Hex Hns a Ha. apply Forall_cons in Hns as [Hns1 Hns].
      simpl in Hns1. apply Hown; [|done|].
      * by rewrite existsb_app, Hex.
      * rewrite (Hown1 Hex _ Ha). f_equal.
        pose proof (owner_after_spec n x (items_of sec p) (Label a)) as Hspec.
        rewrite Hns1 in Hspec. by destruct Hspec.
Qed.

Lemma prov_collapsed (setters : list string) :
  prov setters
  = match reverse setters with
    | [] => None
    | [only] => Some (Label only)
    | last :: before :: _ => Some (Override last (Label before))
    end.
Proof.
  induction setters as [|n setters IH] using rev_ind; [done|].
  rewrite prov_snoc, IH, reverse_snoc.
  by destruct (reverse setters) as [|last [|before ?]].
Qed.

(** ** Checking the shape of a chain member *)

Definition module_entryb (item : value) : bool :=
  match item with
  | VDict entry =>
      bool_decide (NoDup entry.*1) &&
      match dict_get "module" entry with Some (VStr _) => true | _ => false end &&
      match dict_get "config" entry with
      | Some (VDict _) | None => true
      | Some _ => false
      end
  | _ => false
  end.

Definition config_nodeb (d : dict) : bool :=
  bool_decide (NoDup d.*1) &&
  match dict_get "session" d with
  | Some (VDict session) => bool_decide (NoDup session.*1)
  | None => true
  | Some _ => false
  end &&
  forallb (λ sec, match dict_get sec d with
                  | Some (VList items) => forallb module_entryb items
                  | None => true
                  | Some _ => false
                  end) module_sections.

Lemma module_entryb_sound (item : value) :
  module_entryb item = true → module_entry item.
Proof.
  destruct item as [| | | | | |entry|]; try done. cbn [module_entryb].
  rewrite !andb_true_iff. intros [[Huniq Hmod] Hcfg].
  apply bool_decide_eq_true in Huniq.
  destruct (dict_get "module" entry) as [[| | | |id| | |]|] eqn:Hid; try done.
  exists entry, id. split; [done|]. split; [done|]. split; [done|].
  intros c Hc. rewrite Hc in Hcfg. destruct c; try done. by eexists.
Qed.

Lemma config_nodeb_sound (d : dict) : config_nodeb d = true → config_node d.
Proof.
  unfold config_nodeb. rewrite !andb_true_iff. intros [[Huniq Hsession] Hsections].
  apply bool_decide_eq_true in Huniq. split; [done|]. split.
  - intros v Hv. rewrite Hv in Hsession. destruct v; try done.
    apply bool_decide_eq_true in Hsession. by eexists.
  - intros sec v Hsec Hv. rewrite forallb_forall in Hsections.
    specialize (Hsections sec (proj1 (list_elem_of_In _ _) Hsec)).
    rewrite Hv in Hsections. destruct v as [| | | | |items| |]; try done.
    exists items. split; [done|]. apply Forall_forall. intros item Hin.
    apply module_entryb_sound. rewrite forallb_forall in Hsections.
    by apply Hsections, list_elem_of_In.
Qed.

(** ** Session provenance along a chain *)

(** C2: for every chain of configuration nodes with their labels, the walk
    of [build_effective_config_with_sources] returns, and the provenance it
    records for a session field depends only on the members that set the
    field: none when no member sets it, the label of the member when exactly
    one does, and otherwise the pair of the last member that set it and the
    member that set it just before, whatever the length of the override
    chain.  In particular, for the chain [(A, base); (B, mid); (C, top)]
    where A and C set the field and B does not, the provenance is the pair
    [(top, base)]. *)
Theorem session_provenance_collapses (chain : list (dict * string))
  (field : string) :
  Forall (λ member, config_node member.1) chain →
  ∃ merged s,
    build_effective_config_with_sources chain.*1 chain.*2 = Ok (merged, s) ∧
    src_session s !! field
    = match reverse (session_setters field chain) with
      | [] => None
      | [only] => Some (Label only)
      | last :: before :: _ => Some (Override last (Label before))
      end ∧
    (∀ A B C,
       chain = [(A, "base"); (B, "mid"); (C, "top")] →
       sets_session_field field A = true →
       sets_session_field field B = false →
       sets_session_field field C = true →
       src_session s !! field = Some (Override "top" (Label "base"))).
Proof.
  intros Hnodes.
  destruct (walk_members "providers" "" chain [] [] initial_sources)
    as (merged & s & Hfold & Hinv & _);
    [by left | apply chain_inv_initial | done |].
  exists merged, s. rewrite build_walk. split; [done|].
  destruct Hinv as (_ & _ & Hprov & _). rewrite app_nil_l in Hprov.
  assert (src_session s !! field
          = match reverse (session_setters field chain) with
            | [] => None
            | [only] => Some (Label only)
            | last :: before :: _ => Some (Override last (Label before))
            end) as Hfield
    by (rewrite Hprov; apply prov_collapsed).
  split; [done|]. intros A B C -> HA HB HC. rewrite Hfield.
  change [(A, "base"); (B, "mid"); (C, "top")]
    with ((([] ++ [(A, "base")]) ++ [(B, "mid")]) ++ [(C, "top")])%list.
  rewrite !session_setters_snoc, HA, HB, HC. done.
Qed.

Definition base_mid_top : list (dict * string) :=
  [([("session", VDict [("orchestrator", VStr "loop-basic")])], "base");
   ([("session", VDict [("context", VStr "context-simple")])], "mid");
   ([("session", VDict [("orchestrator", VStr "loop-streaming")])], "top")].

Lemma session_provenance_collapses_witness :
  ∃ merged s,
    build_effective_config_with_sources base_mid_top.*1 base_mid_top.*2
    = Ok (merged, s) ∧
    src_session s !! "orchestrator" = Some (Override "top" (Label "base")).
Proof.
  assert (Forall (λ member, config_node member.1) base_mid_top) as Hnodes.
  { repeat apply List.Forall_cons; try apply List.Forall_nil;
      by apply config_nodeb_sound. }
  destruct (session_provenance_collapses base_mid_top "orchestrator" Hnodes)
    as (merged & s & Hbuild & _ & Hexample).
  exists merged, s. split; [exact Hbuild|].
  exact (Hexample _ _ _ eq_refl eq_refl eq_refl eq_refl).
Defined.

(** ** Module provenance along a chain *)

(** C3: in a chain where member A (label [a]) introduces module [x] in a
    module-list section and no member between A and a later member B
    (label [b]) gives [x] a [source], the walk returns and, when B's
    entries for [x] give no [source] either, the owner recorded for [x]
    stays A; each config field of [x] that B touches is attributed to B
    under the key [section.x], and every other field of [x] keeps the
    provenance it had before B.  The owner becomes B exactly when one of
    B's entries for [x] gives a [source].  Members after B that have no
    entry for [x] change none of this. *)
Theorem config_only_edit_keeps_owner (pre mid post : list (dict * string))
  (A B : dict) (a b sec x : string) :
  Forall (λ member, config_node member.1)
    (pre ++ (A, a) :: mid ++ (B, b) :: post)%list →
  sec ∈ module_sections →
  existsb (mentions sec x) pre = false →
  mentions sec x (A, a) = true →
  Forall (λ member, sourced x (items_of sec member.1) = false) mid →
  Forall (λ member, mentions sec x member = false) post →
  ∃ merged0 s0 merged s,
    build_effective_config_with_sources
      (pre ++ (A, a) :: mid)%list.*1 (pre ++ (A, a) :: mid)%list.*2
    = Ok (merged0, s0) ∧
    build_effective_config_with_sources
      (pre ++ (A, a) :: mid ++ (B, b) :: post)%list.*1
      (pre ++ (A, a) :: mid ++ (B, b) :: post)%list.*2 = Ok (merged, s) ∧
    mod_src s0 sec x = Some (Label a) ∧
    (sourced x (items_of sec B) = false → mod_src s sec x = Some (Label a)) ∧
    (sourced x (items_of sec B) = true →
       ∃ owner, mod_src s sec x = Some owner ∧ first_of owner = Label b) ∧
    (∀ f, if touched f x (items_of sec B)
          then ∃ p, cfg_map s (config_key sec x) !! f = Some p ∧
                    first_of p = Label b
          else cfg_map s (config_key sec x) !! f
               = cfg_map s0 (config_key sec x) !! f).
Proof.
  intros Hnodes Hsec Hpre HA Hmid Hpost.
  apply Forall_app in Hnodes as [Hnpre Hnodes].
  apply Forall_cons in Hnodes as [HnA Hnodes].
  apply Forall_app in Hnodes as [Hnmid Hnodes].
  apply Forall_cons in Hnodes as [HnB Hnpost]. simpl in HnA, HnB.
  destruct (walk_members sec x pre [] [] initial_sources Hsec chain_inv_initial Hnpre)
    as (m1 & s1 & Hfold1 & Hinv1 & _). rewrite app_nil_l in Hinv1.
  destruct (track_profile_step pre m1 s1 A a Hinv1 HnA) as (s2 & Hstep2 & Hinv2 & Hat2).
  destruct (Hat2 sec x Hsec) as (_ & Hnew & _). rewrite Hpre in Hnew.
  specialize (Hnew eq_refl HA).
  destruct (walk_members sec x mid _ _ _ Hsec Hinv2 Hnmid)
    as (m0 & s0 & Hfold3 & Hinv3 & _ & Hkeep).
  assert (existsb (mentions sec x) (pre ++ [(A, a)]) = true) as Hex2.
  { rewrite existsb_app. simpl. by rewrite HA, orb_true_r. }
  specialize (Hkeep Hex2 Hmid a Hnew).
  destruct (track_profile_step _ m0 s0 B b Hinv3 HnB) as (s4 & Hstep4 & Hinv4 & Hat4).
  destruct (Hat4 sec x Hsec) as (_ & _ & Hown4 & Hfields4).
  assert (existsb (mentions sec x) ((pre ++ [(A, a)]) ++ mid) = true) as Hex3.
  { by rewrite existsb_app, Hex2. }
  rewrite Hex3 in Hown4, Hfields4.
  specialize (Hown4 eq_refl _ Hkeep). specialize (Hfields4 eq_refl).
  destruct (walk_members sec x post _ _ _ Hsec Hinv4 Hnpost)
    as (merged & s & Hfold5 & _ & Hsame & _).
  destruct (Hsame Hpost) as [Hmod5 Hcfg5].
  assert (fold_result track_profile ([], initial_sources) (pre ++ (A, a) :: mid)
          = Ok (m0, s0)) as Hbefore.
  { apply fold_result_app_Ok with (m1, s1); [done|].
    by apply fold_result_cons_Ok with (merge_profile_dicts m1 A, s2). }
  exists m0, s0, merged, s. rewrite !build_walk. split; [done|]. split.
  { replace (pre ++ (A, a) :: mid ++ (B, b) :: post)%list
      with ((pre ++ (A, a) :: mid) ++ (B, b) :: post)%list
      by (by rewrite <- app_assoc).
    apply fold_result_app_Ok with (m0, s0); [done|].
    by apply fold_result_cons_Ok with (merge_profile_dicts m0 B, s4). }
  split; [done|].
  pose proof (owner_after_spec b x (items_of sec B) (Label a)) as Hspec.
  rewrite Hmod5, Hcfg5, Hown4. split; [|split].
  - intros Hns. rewrite Hns in Hspec. f_equal. by destruct Hspec.
  - intros Hs. rewrite Hs in Hspec. by eexists.
  - done.
Qed.

Definition owner_chain : list (dict * string) :=
  [([("providers",
      VList [VDict [("module", VStr "x"); ("source", VStr "S")]])], "A-label");
   ([("providers",
      VList [VDict [("module", VStr "x");
                    ("config", VDict [("temperature", VFloat 4602678819172646912)])]])],
    "B-label")].

Lemma config_only_edit_keeps_owner_witness :
  ∃ merged s,
    build_effective_config_with_sources owner_chain.*1 owner_chain.*2
    = Ok (merged, s) ∧
    mod_src s "providers" "x" = Some (Label "A-label") ∧
    ∃ p, cfg_map s "providers.x" !! "temperature" = Some p ∧
         first_of p = Label "B-label".
Proof.
  assert (Forall (λ member, config_node member.1) owner_chain) as Hnodes.
  { repeat apply List.Forall_cons; try apply List.Forall_nil;
      by apply config_nodeb_sound. }
  destruct (config_only_edit_keeps_owner [] [] []
              [("providers",
                VList [VDict [("module", VStr "x"); ("source", VStr "S")]])]
              [("providers",
                VList [VDict [("module", VStr "x");
                              ("config", VDict [("temperature", VFloat 4602678819172646912)])]])]
              "A-label" "B-label" "providers" "x" Hnodes)
    as (merged0 & s0 & merged & s & _ & Hbuild & _ & Howner & _ & Hfields).
  - by left.
  - reflexivity.
  - reflexivity.
  - apply List.Forall_nil.
  - apply List.Forall_nil.
  - exists merged, s. split; [exact Hbuild|]. split; [exact (Howner eq_refl)|].
    exact (Hfields "temperature").
Defined.

(** * Further properties *)

(** ** Atomic write, whatever the system calls do *)


Lemma atomic_write_frame (o : os) (d : directory) (target_file : string)
  (write_func : writer) (prefix error_msg name : string) :
  name ≠ target_file → name ≠ prefix +:+ os_random o +:+ ".tmp" →
  entries (_atomic_write o d target_file write_func prefix error_msg).1 !! name
  = entries d !! name.
Proof.
  intros Htarget Htemp. unfold _atomic_write, write_failed.
  repeat (first [case_decide | case_match]; try done); simpl;
    rewrite ?lookup_insert_ne, ?lookup_delete_ne, ?lookup_insert_ne by done;
    done.
Qed.

(** X1: when removing the temporary file does not fail, [_atomic_write]
    either returns, and then the directory is the one before with the
    destination holding all that the callback wrote, or raises an
    [OSError] that wraps its cause, and then the directory holds exactly
    the files it held before: no partial destination, no temporary file
    left, whichever of the callback, the creation, the flush or the rename
    failed. *)
Theorem atomic_write_all_or_nothing (o : os) (d : directory)
  (target_file : string) (write_func : writer) (prefix error_msg : string) :
  os_unlink_fails o = false →
  let after := _atomic_write o d target_file write_func prefix error_msg in
  (after.2 = Ok () ∧ write_func.2 = None ∧
   entries after.1 = <[target_file := Text write_func.1]> (entries d)) ∨
  (∃ cause,
     after.2 = Raise (OSError (error_msg +:+ ": " +:+ exn_str cause) (Some cause)) ∧
     entries after.1 = entries d).
Proof.
  intros Hunlink after. subst after. unfold _atomic_write, write_failed.
  rewrite Hunlink.
  destruct (os_create_fails o); [right; by eexists|].
  case_decide as Htemp; [right; by eexists|].
  assert (entries d !! (prefix +:+ os_random o +:+ ".tmp") = None) as Hfresh
    by by apply eq_None_not_Some.
  assert (∀ w, delete (prefix +:+ os_random o +:+ ".tmp")
                 (<[prefix +:+ os_random o +:+ ".tmp" := Text w]> (entries d))
               = entries d) as Hgone
    by (intros w; by rewrite delete_insert_eq, delete_id).
  destruct (write_func.2) as [e|]; [right; eexists; split; [done|apply Hgone]|].
  destruct (os_flush_fails o); [right; eexists; split; [done|apply Hgone]|].
  destruct (os_replace_fails o); [right; eexists; split; [done|apply Hgone]|].
  left. split; [done|]. split; [done|]. simpl. by rewrite Hgone.
Qed.

Lemma atomic_write_all_or_nothing_witness :
  let after :=
    _atomic_write quiet_os one_session "metadata.json"
      (json_dump true (VObject "ThinkingBlock" None None))
      "metadata_" "Failed to save metadata" in
  (∃ cause,
     after.2 = Raise (OSError ("Failed to save metadata: " +:+ exn_str cause)
                        (Some cause)) ∧
     entries after.1 = entries one_session).
Proof.
  destruct (atomic_write_all_or_nothing quiet_os one_session "metadata.json"
              (json_dump true (VObject "ThinkingBlock" None None))
              "metadata_" "Failed to save metadata" eq_refl)
    as [(Hok & _)|Hraise].
  - by vm_compute in Hok.
  - exact Hraise.
Defined.

(** ** What a failing save raises and leaves behind *)



Lemma save_steps (o : os) (st : gmap string node) (session_id : string)
  (transcript : list value) (metadata : value) (d0 : directory) :
  check_session_id session_id = Ok () →
  mkdir o session_id (st !! session_id) = Ok d0 →
  save o st session_id transcript metadata
  = match _save_transcript o d0 transcript with
    | (d1, Raise e) => (<[session_id := Dir d1]> st, Raise e)
    | (d1, Ok _) =>
        (<[session_id := Dir (_save_metadata o d1 metadata).1]> st,
         (_save_metadata o d1 metadata).2)
    end.
Proof.
  intros Hid Hdir. unfold save. rewrite Hid, Hdir.
  destruct (_save_transcript o d0 transcript) as [d1 [[]|e]]; [|done].
  by destruct (_save_metadata o d1 metadata).
Qed.

Lemma atomic_write_callback_fails (o : os) (d : directory) (target_file : string)
  (written : list chunk) (e : exn) (prefix error_msg : string) :
  os_create_fails o = false →
  entries d !! (prefix +:+ os_random o +:+ ".tmp") = None →
  ∃ d', _atomic_write o d target_file (written, Some e) prefix error_msg
        = (d', Raise (OSError (error_msg +:+ ": " +:+ exn_str e) (Some e))) ∧
        ∀ name, name ≠ prefix +:+ os_random o +:+ ".tmp" →
                entries d' !! name = entries d !! name.
Proof.
  intros Hcreate Hfresh. unfold _atomic_write, write_failed.
  rewrite Hcreate, decide_False by (rewrite Hfresh; by intros [? ?]).
  cbn [fst snd]. eexists. split; [done|]. intros name Hname.
  destruct (os_unlink_fails o); simpl.
  - by rewrite lookup_insert_ne.
  - by rewrite lookup_delete_ne, lookup_insert_ne.
Qed.

(** X3: [save] is not atomic across its two files.  When the transcript
    is written and the metadata then cannot be serialized, [save] raises
    the [OSError] of the metadata write, yet the session already holds the
    new transcript, beside the metadata file of before. *)
Theorem save_not_atomic_across_files (o : os) (st : gmap string node)
  (session_id : string) (transcript : list value) (metadata : value)
  (d0 : directory) :
  check_session_id session_id = Ok () →
  mkdir o session_id (st !! session_id) = Ok d0 →
  calm o → fresh_temps o (entries d0) →
  (write_transcript transcript).2 = None →
  to_json metadata = None →
  ∃ d',
    save o st session_id transcript metadata
    = (<[session_id := Dir d']> st,
       Raise (OSError "Failed to save metadata: Object is not JSON serializable"
                (Some (TypeError "Object is not JSON serializable")))) ∧
    entries d' !! "transcript.jsonl" = Some (Text (write_transcript transcript).1) ∧
    entries d' !! "metadata.json" = entries d0 !! "metadata.json".
Proof.
  intros Hid Hdir Hcalm [Hfresh1 Hfresh2] Hwrite Hmeta.
  rewrite (save_steps _ _ _ _ _ _ Hid Hdir).
  unfold _save_transcript, _save_metadata.
  destruct (write_transcript transcript) as [w1 out1] eqn:Hw1.
  simpl in Hwrite. subst out1.
  destruct (atomic_write_ok o (backup o d0 "transcript.jsonl")
              "transcript.jsonl" w1 "transcript_" "Failed to save transcript" Hcalm)
    as (d1 & -> & Hd1).
  { rewrite backup_lookup; [done | by cbv]. }
  unfold write_metadata, json_dump. rewrite Hmeta.
  destruct (atomic_write_callback_fails o (backup o d1 "metadata.json")
              "metadata.json" [CGarbage]
              (TypeError "Object is not JSON serializable")
              "metadata_" "Failed to save metadata")
    as (d2 & -> & Hd2).
  { by destruct Hcalm. }
  { rewrite backup_lookup by (by cbv). rewrite Hd1, lookup_insert_ne by (by cbv).
    rewrite backup_lookup; [done | by cbv]. }
  exists d2. split; [done|]. cbn [fst snd]. split.
  - rewrite Hd2 by (by cbv). rewrite backup_lookup by (by cbv).
    by rewrite Hd1, lookup_insert_eq.
  - rewrite Hd2 by (by cbv). rewrite backup_lookup by (by cbv).
    rewrite Hd1, lookup_insert_ne by (by cbv). apply backup_lookup. by cbv.
Qed.

Lemma save_not_atomic_across_files_witness :
  ∃ d',
    (save quiet_os (<["s1" := Dir one_session]> ∅) "s1"
       [VDict [("role", VStr "user"); ("content", VStr "again")]]
       (VDict [("model", VObject "Model" None None)])).1 !! "s1" = Some (Dir d') ∧
    entries d' !! "transcript.jsonl"
    = Some (Text [CJson false (VDict [("role", VStr "user"); ("content", VStr "again")]);
                  CNewline]) ∧
    entries d' !! "metadata.json" = None.
Proof.
  destruct (save_not_atomic_across_files quiet_os (<["s1" := Dir one_session]> ∅)
              "s1" [VDict [("role", VStr "user"); ("content", VStr "again")]]
              (VDict [("model", VObject "Model" None None)]) one_session)
    as (d' & Hsave & Htranscript & Hmetadata).
  - reflexivity.
  - reflexivity.
  - by repeat split.
  - by split.
  - reflexivity.
  - reflexivity.
  - exists d'. rewrite Hsave. split; [apply lookup_insert_eq|].
    split; [exact Htranscript | exact Hmetadata].
Defined.

(** ** Metadata round trip *)

(** X4: after a [save] that went through, [load] returns, and the
    metadata it returns is the JSON form of the metadata that was saved:
    the metadata itself when it is plain JSON data. *)
Theorem metadata_round_trip (o o' : os) (st st' : gmap string node)
  (session_id : string) (transcript : list value) (metadata : value) :
  save o st session_id transcript metadata = (st', Ok ()) →
  ∃ loaded j,
    load o' st' session_id = Ok (loaded, j) ∧
    to_json metadata = Some j ∧
    (to_json metadata = Some metadata → j = metadata).
Proof.
  intros Hsave.
  destruct (save_ok_inv _ _ _ _ _ _ Hsave)
    as (d & j & Hid & Hdir & Hdone & Htranscript & Hj & Hmetadata).
  destruct (write_transcript_read_back transcript Hdone) as (loaded & Hparse & _).
  exists loaded, j. split; [|split; [done | congruence]].
  unfold load. rewrite Hid, Hdir. simpl.
  unfold _load_transcript, _load_metadata. rewrite Htranscript, Hmetadata.
  simpl. by rewrite Hparse.
Qed.

Lemma metadata_round_trip_witness :
  ∃ loaded,
    load quiet_os
      (save quiet_os ∅ "s1" []
         (VDict [("session_id", VStr "s1"); ("turn_count", VInt 3)])).1 "s1"
    = Ok (loaded, VDict [("session_id", VStr "s1"); ("turn_count", VInt 3)]).
Proof.
  destruct (metadata_round_trip quiet_os quiet_os ∅
              (save quiet_os ∅ "s1" []
                 (VDict [("session_id", VStr "s1"); ("turn_count", VInt 3)])).1
              "s1" [] (VDict [("session_id", VStr "s1"); ("turn_count", VInt 3)]))
    as (loaded & j & Hload & _ & Hsame).
  - by vm_compute.
  - exists loaded. rewrite (Hsame eq_refl) in Hload. exact Hload.
Defined.

(** ** Backups *)

Lemma backup_made (o : os) (d : directory) (name : string) (f : file) :
  entries d !! name = Some f → os_copy_fails o = false → readable f = true →
  entries (backup o d name) !! (name +:+ ".backup") = Some f.
Proof.
  intros Hf Hcopy Hread. unfold backup. rewrite Hf, Hcopy, Hread. simpl.
  apply lookup_insert_eq.
Qed.

Lemma try_read_recovers {A : Type} (read : file → result A) (f : file) (e : exn) :
  read f = Raise e → recovered_from e = true → try_read read (Some f) = None.
Proof. intros Hread Hrec. unfold try_read. by rewrite Hread, Hrec. Qed.

Lemma try_read_ok {A : Type} (read : file → result A) (f : file) (a : A) :
  read f = Ok a → try_read read (Some f) = Some (Ok a).
Proof. intros Hread. unfold try_read. by rewrite Hread. Qed.

(** A [save] that went through over an existing transcript file left
    that file's content in the backup. *)
Lemma save_ok_backup (o : os) (st st' : gmap string node) (session_id : string)
  (transcript : list value) (metadata : value) (d0 : directory) (f : file) :
  save o st session_id transcript metadata = (st', Ok ()) →
  st !! session_id = Some (Dir d0) →
  entries d0 !! "transcript.jsonl" = Some f →
  os_copy_fails o = false → readable f = true →
  ∃ d', st' !! session_id = Some (Dir d') ∧
        entries d' !! "transcript.jsonl.backup" = Some f.
Proof.
  intros Hsave Hdir Hf Hcopy Hread.
  destruct (save_ok_inv _ _ _ _ _ _ Hsave) as (_ & _ & Hid & _).
  rewrite (save_steps _ _ _ _ _ d0 Hid) in Hsave by by rewrite Hdir.
  unfold _save_transcript, _save_metadata in Hsave.
  destruct (_atomic_write o (backup o d0 "transcript.jsonl") _ _ _ _)
    as [d1 [[]|]] eqn:Hw1; [|done].
  destruct (_atomic_write o (backup o d1 "metadata.json") _ _ _ _)
    as [d2 r2] eqn:Hw2.
  cbn [fst snd] in Hsave. injection Hsave as <- ->.
  apply atomic_write_ok_inv in Hw1 as [_ Hd1].
  apply atomic_write_ok_inv in Hw2 as [_ Hd2].
  exists d2. split; [apply lookup_insert_eq|].
  rewrite Hd2. rewrite lookup_insert_ne by (by cbv).
  rewrite lookup_delete_ne by (by cbv). rewrite lookup_insert_ne by (by cbv).
  rewrite backup_lookup by (by cbv). rewrite Hd1.
  rewrite lookup_insert_ne by (by cbv).
  rewrite lookup_delete_ne by (by cbv). rewrite lookup_insert_ne by (by cbv).
  by apply (backup_made o d0 "transcript.jsonl").
Qed.

(** X5: the backup of the second [save] restores the first.  After two
    saves of a session that both went through (the copy of the second not
    failing), if the transcript file is then damaged, so that reading it
    fails with an error the recovery handles, [load] returns the messages
    of the first save, as persisted, together with the metadata of the
    second. *)
Theorem backup_restores_previous_transcript (o1 o2 o3 : os)
  (st st1 st2 : gmap string node) (session_id : string)
  (t1 t2 : list value) (m1 m2 : value) (d2 : directory) (damaged : file)
  (e : exn) :
  save o1 st session_id t1 m1 = (st1, Ok ()) →
  save o2 st1 session_id t2 m2 = (st2, Ok ()) →
  os_copy_fails o2 = false →
  st2 !! session_id = Some (Dir d2) →
  read_jsonl damaged = Raise e → recovered_from e = true →
  ∃ loaded j2,
    load o3
      (<[session_id := Dir (set_entries o3 <["transcript.jsonl" := damaged]> d2)]> st2)
      session_id
    = Ok (loaded, j2) ∧
    to_json_items (_sanitize_message <$> filter (λ m, persisted m = true) t1)
    = Some loaded ∧
    to_json m2 = Some j2.
Proof.
  intros Hsave1 Hsave2 Hcopy Hd2 Hdamaged Hrec.
  destruct (save_ok_inv _ _ _ _ _ _ Hsave1)
    as (d1 & j1 & Hid & Hdir1 & Hdone1 & Htranscript1 & _).
  destruct (write_transcript_read_back t1 Hdone1) as (loaded & Hparse & Hjson).
  destruct (save_ok_backup _ _ _ _ _ _ _ _ Hsave2 Hdir1 Htranscript1 Hcopy eq_refl)
    as (d2' & Hdir2 & Hbackup).
  destruct (save_ok_inv _ _ _ _ _ _ Hsave2)
    as (d2'' & j2 & _ & Hdir2' & _ & _ & Hj2 & Hmetadata2).
  assert (d2' = d2) as -> by congruence. assert (d2'' = d2) as -> by congruence.
  exists loaded, j2. split; [|done].
  unfold load. rewrite Hid, lookup_insert_eq. cbn [mbind result_bind files_under].
  unfold _load_transcript, _load_metadata. cbn [set_entries entries].
  rewrite lookup_insert_eq, !lookup_insert_ne by (by cbv).
  rewrite Hbackup, Hmetadata2.
  rewrite (try_read_recovers _ _ _ Hdamaged Hrec).
  rewrite (try_read_ok read_jsonl (Text (write_transcript t1).1) loaded Hparse).
  by rewrite (try_read_ok read_json (Text [CJson true j2]) j2 eq_refl).
Qed.

Lemma backup_restores_previous_transcript_witness :
  let first := [VDict [("role", VStr "user"); ("content", VStr "one")]] in
  let second := [VDict [("role", VStr "user"); ("content", VStr "two")]] in
  let st1 := (save quiet_os ∅ "s1" first (VDict [])).1 in
  let st2 := (save quiet_os st1 "s1" second (VDict [("turn_count", VInt 2)])).1 in
  ∃ d2, st2 !! "s1" = Some (Dir d2) ∧
    load quiet_os
      (<["s1" := Dir (set_entries quiet_os <["transcript.jsonl" := Text [CGarbage]]> d2)]>
         st2) "s1"
    = Ok (first, VDict [("turn_count", VInt 2)]).
Proof.
  intros first second st1 st2.
  assert (∃ d2, st2 !! "s1" = Some (Dir d2)) as [d2 Hd2] by (vm_compute; by eexists).
  exists d2. split; [exact Hd2|].
  destruct (backup_restores_previous_transcript quiet_os quiet_os quiet_os
              ∅ st1 st2 "s1" first second (VDict [])
              (VDict [("turn_count", VInt 2)]) d2 (Text [CGarbage])
              (JSONDecodeError "Expecting value"))
    as (loaded & j2 & Hload & Hloaded & Hj2).
  - by vm_compute.
  - by vm_compute.
  - reflexivity.
  - exact Hd2.
  - reflexivity.
  - reflexivity.
  - rewrite Hload. vm_compute in Hloaded. vm_compute in Hj2.
    injection Hloaded as <-. injection Hj2 as <-. reflexivity.
Defined.

(** ** What load can return and raise *)

(** A file that is absent, or whose reading fails with an error the
    recovery handles. *)
Definition unusable {A : Type} (read : file → result A) (f : option file) : Prop :=
  ∀ f', f = Some f' → ∃ e, read f' = Raise e ∧ recovered_from e = true.

Lemma try_read_unusable {A : Type} (read : file → result A) (f : option file) :
  unusable read f → try_read read f = None.
Proof.
  intros Hf. destruct f as [f'|]; [|done].
  destruct (Hf f' eq_refl) as (e & Hread & Hrec). by eapply try_read_recovers.
Qed.







(** X7: [load] of an accepted id whose path exists but holds nothing
    that can be read (each of the two transcript files and of the two
    metadata files is absent or fails with an error the recovery handles)
    returns the empty transcript and the minimal metadata: the id, the
    flag [recovered] and the time of the recovery.  The path need not be a
    directory: a regular file of that name loads the same way. *)
Theorem load_with_nothing_to_read (o : os) (st : gmap string node)
  (session_id : string) (n : node) :
  check_session_id session_id = Ok () →
  st !! session_id = Some n →
  unusable read_jsonl (entries (files_under n) !! "transcript.jsonl") →
  unusable read_jsonl (entries (files_under n) !! "transcript.jsonl.backup") →
  unusable read_json (entries (files_under n) !! "metadata.json") →
  unusable read_json (entries (files_under n) !! "metadata.json.backup") →
  load o st session_id
  = Ok ([], VDict [("session_id", VStr session_id); ("recovered", VBool true);
                   ("recovery_time", VStr (os_now_iso o))]).
Proof.
  intros Hid Hn Ht Htb Hm Hmb. unfold load. rewrite Hid, Hn.
  cbn [mbind result_bind]. unfold _load_transcript, _load_metadata.
  by rewrite !try_read_unusable.
Qed.

Lemma load_with_nothing_to_read_witness :
  exists_ (<["notes" := File (Text [CGarbage])]> ∅) "notes" = false ∧
  load quiet_os (<["notes" := File (Text [CGarbage])]> ∅) "notes"
  = Ok ([], VDict [("session_id", VStr "notes"); ("recovered", VBool true);
                   ("recovery_time", VStr "2023-11-14T22:13:20+00:00")]).
Proof.
  split; [reflexivity|].
  apply (load_with_nothing_to_read quiet_os _ "notes" (File (Text [CGarbage])));
    try reflexivity; by intros f'.
Defined.



(** ** The order and the content of the session list *)

(** The time [list_sessions] sorts a session by: its modification time,
    or 0 when the time cannot be read. *)
Definition listed_time (o : os) (st : gmap string node) (name : string) : Z :=
  match st !! name with
  | Some (Dir d) => if os_stat_fails o name then 0 else mtime d
  | _ => 0
  end.

Lemma insert_newest_first_sorted (x : string * Z) (l : list (string * Z)) :
  StronglySorted (λ a b, b.2 ≤ a.2) l →
  StronglySorted (λ a b, b.2 ≤ a.2) (insert_newest_first x l).
Proof.
  induction 1 as [|y l Hl IH Hy]; cbn [insert_newest_first].
  - by repeat constructor.
  - destruct (y.2 <=? x.2) eqn:Hle.
    + apply Z.leb_le in Hle. constructor; [by constructor|].
      constructor; [done|]. eapply Forall_impl; [exact Hy|].
      intros z Hz. simpl in *. lia.
    + apply Z.leb_gt in Hle. constructor; [done|].
      apply Forall_forall. intros z Hz.
      apply elem_of_insert_newest_first in Hz as [->|Hz]; [lia|].
      rewrite Forall_forall in Hy. by apply Hy.
Qed.

Lemma sort_newest_first_sorted (l : list (string * Z)) :
  StronglySorted (λ a b, b.2 ≤ a.2) (sort_newest_first l).
Proof.
  induction l as [|x l IH]; [constructor|].
  by apply insert_newest_first_sorted.
Qed.

Lemma session_entry_time (o : os) (st : gmap string node) (p : string * Z) :
  p ∈ omap (session_entry o) (map_to_list st) →
  p.2 = listed_time o st p.1 ∧
  (∃ d, st !! p.1 = Some (Dir d)) ∧ dot_prefixed p.1 = false.
Proof.
  intros Hin. apply (proj1 (list_elem_of_omap _ _ _)) in Hin as ([k n] & Hkn & Hentry).
  apply elem_of_map_to_list in Hkn. unfold session_entry in Hentry. simpl in *.
  destruct n as [d|f]; [|done]. destruct (dot_prefixed k) eqn:Hdot; [done|].
  injection Hentry as <-. simpl. unfold listed_time. rewrite Hkn. eauto.
Qed.

(** X9: [list_sessions] returns the sessions newest first: of two ids of
    the list, the one that comes first has a modification time at least
    that of the other, a session whose time cannot be read counting as
    time 0. *)
Theorem list_sessions_newest_first (o : os) (st : gmap string node) :
  StronglySorted (λ a b, listed_time o st b ≤ listed_time o st a)
    (list_sessions o st).
Proof.
  unfold list_sessions.
  pose proof (sort_newest_first_sorted (omap (session_entry o) (map_to_list st)))
    as Hsorted.
  assert (Forall (λ p, p.2 = listed_time o st p.1)
            (sort_newest_first (omap (session_entry o) (map_to_list st)))) as Htimes.
  { apply Forall_forall. intros p Hp.
    apply (proj1 (elem_of_sort_newest_first _ _)) in Hp.
    by apply session_entry_time in Hp as [? _]. }
  induction Hsorted as [|p l Hl IH Hp]; [constructor|].
  apply Forall_cons in Htimes as [Hp_time Htimes]. cbn [fmap list_fmap].
  constructor; [by apply IH|].
  apply Forall_fmap, Forall_forall. intros q Hq. simpl.
  rewrite Forall_forall in Hp, Htimes.
  rewrite <- Hp_time, <- (Htimes q Hq). by apply Hp.
Qed.

Lemma insert_newest_first_perm (x : string * Z) (l : list (string * Z)) :
  insert_newest_first x l ≡ₚ x :: l.
Proof.
  induction l as [|y l IH]; [done|]. cbn [insert_newest_first].
  destruct (y.2 <=? x.2); [done|]. rewrite IH. apply Permutation_swap.
Qed.

Lemma sort_newest_first_perm (l : list (string * Z)) : sort_newest_first l ≡ₚ l.
Proof.
  induction l as [|x l IH]; [done|].
  cbn [sort_newest_first foldr]. fold (sort_newest_first l).
  by rewrite insert_newest_first_perm, IH.
Qed.

Lemma session_entries_NoDup (o : os) (l : list (string * node)) :
  NoDup l.*1 → NoDup (omap (session_entry o) l).*1.
Proof.
  induction l as [|[k n] l IH]; [done|]. cbn [fmap list_fmap omap list_omap].
  intros Hnodup. apply NoDup_cons in Hnodup as [Hfresh Hnodup].
  destruct (session_entry o (k, n)) as [p|] eqn:Hentry; [|by apply IH].
  cbn [fmap list_fmap]. apply NoDup_cons. split; [|by apply IH].
  assert (p.1 = k) as ->.
  { unfold session_entry in Hentry. simpl in Hentry. destruct n; [|done].
    destruct (dot_prefixed k); [done|]. by injection Hentry as <-. }
  intros Hin. apply Hfresh. apply list_elem_of_fmap in Hin as (q & -> & Hq).
  apply (proj1 (list_elem_of_omap _ _ _)) in Hq as ([k' n'] & Hin' & Hentry').
  assert (q.1 = k') as ->.
  { unfold session_entry in Hentry'. simpl in Hentry'. destruct n'; [|done].
    destruct (dot_prefixed k'); [done|]. by injection Hentry' as <-. }
  apply list_elem_of_fmap. by exists (k', n').
Qed.

(** X10: [list_sessions] lists each session once, and lists exactly the
    directories of the base directory whose name has no leading dot:
    regular files and dot-prefixed directories are left out, and no
    directory is missed, whether or not its modification time can be
    read. *)
Theorem list_sessions_exact (o : os) (st : gmap string node) :
  NoDup (list_sessions o st) ∧
  ∀ name, name ∈ list_sessions o st ↔
          (∃ d, st !! name = Some (Dir d)) ∧ dot_prefixed name = false.
Proof.
  split; [|apply list_sessions_listed].
  unfold list_sessions. rewrite sort_newest_first_perm.
  apply session_entries_NoDup, NoDup_fst_map_to_list.
Qed.

(** ** What cleanup removes *)

(** The entry [cleanup_old_sessions] removes: a directory without a
    leading dot whose modification time can be read and lies before the
    cutoff, and whose removal does not fail. *)
Definition expired (o : os) (cutoff : Z) (name : string) (n : node) : bool :=
  match n with
  | Dir d =>
      negb (dot_prefixed name) && negb (os_stat_fails o name)
      && (mtime d <? cutoff) && negb (os_rmtree_fails o name)
  | File _ => false
  end.

Lemma cleanup_entry_expired (o : os) (cutoff : Z) (acc : gmap string node * nat)
  (e : string * node) :
  cleanup_entry o cutoff acc e
  = if expired o cutoff e.1 e.2 then (delete e.1 acc.1, S acc.2) else acc.
Proof.
  unfold cleanup_entry, expired. destruct e as [k [d|f]]; [|done]. simpl.
  destruct (dot_prefixed k); [done|]. destruct (os_stat_fails o k); [done|].
  destruct (mtime d <? cutoff); [|done]. by destruct (os_rmtree_fails o k).
Qed.

Lemma cleanup_fold (o : os) (cutoff : Z) (l : list (string * node))
  (acc : gmap string node * nat) :
  NoDup l.*1 →
  (∀ k n, (k, n) ∈ l → acc.1 !! k = Some n) →
  let after := fold_left (cleanup_entry o cutoff) l acc in
  (∀ name, after.1 !! name
           = if existsb (λ e, bool_decide (e.1 = name) && expired o cutoff e.1 e.2) l
             then None else acc.1 !! name) ∧
  after.2 = (acc.2 + length (filter (λ e, expired o cutoff e.1 e.2 = true) l))%nat ∧
  (size after.1 + after.2 = size acc.1 + acc.2)%nat.
Proof.
  revert acc. induction l as [|[k n] l IH]; intros acc Hnodup Hin; simpl.
  - split; [done|]. split; lia.
  - apply NoDup_cons in Hnodup as [Hfresh Hnodup].
    rewrite cleanup_entry_expired. simpl.
    assert (acc.1 !! k = Some n) as Hk by (apply Hin; by left).
    assert (∀ k' n', (k', n') ∈ l → k' ≠ k) as Hother.
    { intros k' n' Hin' ->. apply Hfresh. apply list_elem_of_fmap.
      by exists (k, n'). }
    destruct (expired o cutoff k n) eqn:Hexp.
    + destruct (IH (delete k acc.1, S acc.2) Hnodup) as (Hlook & Hcount & Hsize).
      { intros k' n' Hin'. simpl. rewrite lookup_delete_ne by (symmetry; eauto).
        apply Hin. by right. }
      rewrite filter_cons_True by done. simpl in *. split; [|split].
      * intros name. rewrite Hlook.
        destruct (decide (k = name)) as [->|Hne].
        -- rewrite bool_decide_true by done. simpl.
           rewrite lookup_delete_eq. by destruct (existsb _ l).
        -- rewrite bool_decide_false by done. simpl.
           by rewrite lookup_delete_ne.
      * rewrite Hcount. simpl. lia.
      * rewrite Hsize. rewrite map_size_delete, Hk.
        assert (size acc.1 ≠ 0%nat); [|lia].
        intros Hzero. apply map_size_empty_inv in Hzero.
        rewrite Hzero, lookup_empty in Hk. done.
    + destruct (IH acc Hnodup) as (Hlook & Hcount & Hsize).
      { intros k' n' Hin'. apply Hin. by right. }
      rewrite filter_cons_False by (simpl; congruence).
      split; [|done]. intros name. rewrite Hlook.
      by rewrite andb_false_r.
Qed.

(** The listing and the count [cleanup_old_sessions] returns for a
    number of days that is not negative. *)
Lemma cleanup_spec (o : os) (st : gmap string node) (days : Z) :
  0 ≤ days →
  ∃ st' removed,
    cleanup_old_sessions o st days = (st', Ok removed) ∧
    (∀ name, st' !! name
             = n ← st !! name;
               if expired o (os_now o - days * 86400) name n then None else Some n) ∧
    removed = length (filter (λ e, expired o (os_now o - days * 86400) e.1 e.2 = true)
                        (map_to_list st)) ∧
    (size st' + removed = size st)%nat.
Proof.
  intros Hdays. unfold cleanup_old_sessions.
  rewrite (proj2 (Z.ltb_ge days 0)) by done.
  destruct (cleanup_fold o (os_now o - days * 86400) (map_to_list st) (st, 0%nat))
    as (Hlook & Hcount & Hsize).
  { apply NoDup_fst_map_to_list. }
  { intros k n Hin. by apply elem_of_map_to_list. }
  destruct (fold_left _ _ _) as [st' removed]. simpl in *.
  exists st', removed. split; [done|]. split; [|split; [done | lia]].
  intros name. rewrite Hlook.
  destruct (st !! name) as [n|] eqn:Hname; simpl.
  - destruct (expired o _ name n) eqn:Hexp.
    + rewrite (proj2 (existsb_exists _ _)); [done|].
      exists (name, n). split; [by apply list_elem_of_In, elem_of_map_to_list|].
      simpl. by rewrite bool_decide_true.
    + destruct (existsb _ _) eqn:Hex; [|done].
      apply existsb_exists in Hex as ([k n'] & Hin & Hkn). simpl in Hkn.
      apply andb_true_iff in Hkn as [Hk Hexp'].
      apply bool_decide_eq_true in Hk as ->.
      apply list_elem_of_In, elem_of_map_to_list in Hin. congruence.
  - by destruct (existsb _ _).
Qed.


Definition aged_store : gmap string node :=
  <["old" := Dir {| entries := ∅; mtime := 1600000000 |}]>
    (<["new" := Dir {| entries := ∅; mtime := 1699999000 |}]>
       (<["notes.txt" := File (Text [])]> ∅)).


(** X12: cleaning up twice is cleaning up once: with the same clock and
    the same failing calls, a second [cleanup_old_sessions] on the listing
    the first one left removes nothing, returns 0 and leaves the listing
    as it is. *)
Theorem cleanup_idempotent (o : os) (st st' : gmap string node) (days : Z)
  (removed : nat) :
  cleanup_old_sessions o st days = (st', Ok removed) →
  cleanup_old_sessions o st' days = (st', Ok 0%nat).
Proof.
  intros Hfirst.
  assert (0 ≤ days) as Hdays.
  { unfold cleanup_old_sessions in Hfirst.
    destruct (days <? 0) eqn:Hneg; [done|]. by apply Z.ltb_ge. }
  destruct (cleanup_spec o st days Hdays) as (st1 & r1 & Hrun1 & Hlook1 & _).
  rewrite Hfirst in Hrun1. injection Hrun1 as <- <-.
  destruct (cleanup_spec o st' days Hdays) as (st2 & r2 & Hrun2 & Hlook2 & _ & Hsize2).
  assert (st2 = st') as ->.
  { apply map_eq. intros name. rewrite Hlook2.
    destruct (st' !! name) as [n|] eqn:Hname; [|done]. simpl.
    rewrite Hlook1 in Hname. destruct (st !! name) as [n'|]; [|done].
    simpl in Hname. destruct (expired o _ name n') eqn:Hexp; [done|].
    injection Hname as <-. by rewrite Hexp. }
  rewrite Hrun2. do 2 f_equal. lia.
Qed.

Lemma cleanup_idempotent_witness :
  cleanup_old_sessions quiet_os (cleanup_old_sessions quiet_os aged_store 30).1 30
  = ((cleanup_old_sessions quiet_os aged_store 30).1, Ok 0%nat).
Proof.
  apply (cleanup_idempotent quiet_os aged_store _ 30 1%nat). by vm_compute.
Defined.

(** ** What the sanitizer guarantees *)

(** No mapping inside the value, at any depth of lists and mappings, has
    the key [thinking_block]. *)
Fixpoint free_of_thinking_block (v : value) : bool :=
  match v with
  | VDict d =>
      (fix entries (d : list (string * value)) : bool :=
         match d with
         | [] => true
         | (k, x) :: rest =>
             negb (bool_decide (k = "thinking_block"))
             && free_of_thinking_block x && entries rest
         end) d
  | VList l =>
      (fix items (l : list value) : bool :=
         match l with
         | [] => true
         | x :: rest => free_of_thinking_block x && items rest
         end) l
  | _ => true
  end.

Lemma free_of_thinking_block_list (l : list value) :
  free_of_thinking_block (VList l) = forallb free_of_thinking_block l.
Proof. induction l as [|x l IH]; [done|]. simpl in *. by rewrite IH. Qed.

Lemma free_of_thinking_block_dict (d : dict) :
  free_of_thinking_block (VDict d)
  = forallb (λ kv, negb (bool_decide (kv.1 = "thinking_block"))
                   && free_of_thinking_block kv.2) d.
Proof. induction d as [|[k x] d IH]; [done|]. simpl in *. by rewrite IH. Qed.








Lemma sanitize_entries_no_raw (k : string) (d acc : dict) :
  k ∈ ["thinking_block"; "content_blocks"] →
  dict_get k (sanitize_entries d acc) = dict_get k acc.
Proof.
  intros Hk. assert (k ≠ "thinking_text") as Htext.
  { intros ->. apply list_elem_of_In in Hk. simpl in Hk.
    by destruct Hk as [|[|]]. }
  revert acc. induction d as [|[key v] d IH]; intros acc; [done|].
  cbn [sanitize_entries]. case_bool_decide as Hkey; rewrite IH.
  - destruct (bool_decide (key = "thinking_block")); [|done].
    destruct v as [| | | | | |block|]; try done.
    destruct (dict_get "text" block); [|done]. by apply dict_get_set_ne.
  - destruct (_sanitize_value v); try done;
      (apply dict_get_set_ne; by intros ->).
Qed.

Lemma sanitize_entries_thinking_text (d acc : dict) :
  unique_keys d → dict_has "thinking_text" d = false →
  dict_get "thinking_text" (sanitize_entries d acc)
  = match dict_get "thinking_block" d with
    | Some (VDict block) =>
        match dict_get "text" block with
        | Some text => Some text
        | None => dict_get "thinking_text" acc
        end
    | _ => dict_get "thinking_text" acc
    end.
Proof.
  revert acc. induction d as [|[key v] d IH]; intros acc Huniq Hno; [done|].
  apply NoDup_cons in Huniq as [Hfresh Huniq]. simpl in Hfresh.
  rewrite dict_has_cons in Hno. apply orb_false_iff in Hno as [Hkey Hno].
  apply bool_decide_eq_false in Hkey.
  cbn [sanitize_entries dict_get].
  destruct (decide ("thinking_block" = key)) as [<-|Hne].
  - rewrite !bool_decide_true by first [done | by left]. rewrite IH by done.
    rewrite (proj2 (dict_get_None "thinking_block" d) Hfresh).
    destruct v as [| | | | | |block|]; try done.
    destruct (dict_get "text" block); [|done]. apply dict_get_set_eq.
  - case_bool_decide as Hspecial.
    + rewrite bool_decide_false by congruence. by rewrite IH.
    + rewrite IH by done.
      match goal with
      | |- context [dict_get "thinking_text" ?acc'] =>
          lazymatch acc' with
          | context [_sanitize_value] =>
              assert (dict_get "thinking_text" acc' = dict_get "thinking_text" acc)
                as ->; [|done]
          end
      end.
      destruct (_sanitize_value v); try done;
        (apply dict_get_set_ne; congruence).
Qed.

Lemma to_json_entries_values (d j : dict) :
  to_json_entries d = Some j → Forall (λ kv, is_Some (to_json kv.2)) d.
Proof.
  revert j. induction d as [|[k v] d IH]; intros j; [done|]. simpl.
  destruct (to_json v) as [v'|] eqn:Hv; [|done]. simpl.
  destruct (to_json_entries d) as [j'|]; [|done]. simpl. intros _.
  constructor; [by eexists | by eapply IH].
Qed.

Lemma dict_get_elem_of {V} (k : string) (v : V) (d : list (string * V)) :
  dict_get k d = Some v → (k, v) ∈ d.
Proof.
  induction d as [|[k' v'] d IH]; [done|]. simpl.
  case_decide as Hk; [intros [= <-]; subst; by left|].
  intros Hget. right. by apply IH.
Qed.

(** X14: the sanitized form of a message never has the keys
    [thinking_block] and [content_blocks].  The text of a thinking block
    is kept under [thinking_text] exactly as it is, without passing
    through the sanitizer: a text that cannot be serialized makes the
    sanitized message one that [json.dumps] refuses. *)
Theorem thinking_text_kept_raw (d : dict) :
  ∃ sanitized,
    _sanitize_message (VDict d) = VDict sanitized ∧
    dict_get "thinking_block" sanitized = None ∧
    dict_get "content_blocks" sanitized = None ∧
    (∀ block text,
       unique_keys d →
       dict_get "thinking_block" d = Some (VDict block) →
       dict_get "text" block = Some text →
       dict_has "thinking_text" d = false →
       dict_get "thinking_text" sanitized = Some text ∧
       (to_json text = None → to_json (_sanitize_message (VDict d)) = None)).
Proof.
  exists (sanitize_entries d []). split; [done|].
  split; [apply sanitize_entries_no_raw; by left|].
  split; [apply sanitize_entries_no_raw; right; by left|].
  intros block text Huniq Hblock Htext Hno.
  assert (dict_get "thinking_text" (sanitize_entries d []) = Some text) as Hkept.
  { rewrite sanitize_entries_thinking_text by done. by rewrite Hblock, Htext. }
  split; [done|]. intros Hraw. cbn [_sanitize_message].
  rewrite sanitize_value_dict, to_json_dict.
  destruct (to_json_entries (sanitize_entries d [])) as [j|] eqn:Hj; [|done].
  apply to_json_entries_values in Hj. rewrite Forall_forall in Hj.
  destruct (Hj _ (dict_get_elem_of _ _ _ Hkept)) as [j' Hj']. simpl in Hj'.
  congruence.
Qed.

Lemma thinking_text_kept_raw_witness :
  ∃ sanitized,
    _sanitize_message
      (VDict [("role", VStr "assistant");
              ("thinking_block",
               VDict [("text", VObject "ThinkingText" None None);
                      ("signature", VStr "s")]);
              ("content_blocks", VList [VObject "TextBlock" None None])])
    = VDict sanitized ∧
    dict_get "thinking_block" sanitized = None ∧
    dict_get "thinking_text" sanitized = Some (VObject "ThinkingText" None None) ∧
    to_json (VDict sanitized) = None.
Proof.
  destruct (thinking_text_kept_raw
              [("role", VStr "assistant");
               ("thinking_block",
                VDict [("text", VObject "ThinkingText" None None);
                       ("signature", VStr "s")]);
               ("content_blocks", VList [VObject "TextBlock" None None])])
    as (sanitized & Hsanitized & Hblock & _ & Hkept).
  destruct (Hkept [("text", VObject "ThinkingText" None None);
                   ("signature", VStr "s")]
              (VObject "ThinkingText" None None)) as [Htext Hraw].
  - by apply (bool_decide_unpack _).
  - reflexivity.
  - reflexivity.
  - reflexivity.
  - exists sanitized. split; [exact Hsanitized|]. split; [exact Hblock|].
    split; [exact Htext|]. rewrite <- Hsanitized. exact (Hraw eq_refl).
Defined.

(** ** What a save leaves alone *)

(** X15: [save] changes nothing but its own session, and in it nothing
    but the transcript file, the metadata file, their two backups and its
    two temporary files: every other session of the base directory and
    every other file of the session (a profile snapshot, say) is as it
    was, whether [save] returns or raises. *)
Theorem save_touches_only_its_files (o : os) (st : gmap string node)
  (session_id : string) (transcript : list value) (metadata : value) :
  (∀ other, other ≠ session_id →
     (save o st session_id transcript metadata).1 !! other = st !! other) ∧
  (∀ d0 d' name,
     st !! session_id = Some (Dir d0) →
     (save o st session_id transcript metadata).1 !! session_id = Some (Dir d') →
     name ∉ ["transcript.jsonl"; "transcript.jsonl.backup";
             "metadata.json"; "metadata.json.backup";
             "transcript_" +:+ os_random o +:+ ".tmp";
             "metadata_" +:+ os_random o +:+ ".tmp"] →
     entries d' !! name = entries d0 !! name).
Proof.
  unfold save. destruct (check_session_id session_id) as [[]|e].
  2: { cbn [fst]. split; [done|]. intros d0 d' name Hd0 Hd' _. congruence. }
  destruct (st !! session_id) as [[d0|f]|] eqn:Hst; cbn [mkdir];
    [| split; [done | intros ? ? ? [=]] |].
  - unfold _save_transcript, _save_metadata.
    pose proof (atomic_write_frame o (backup o d0 "transcript.jsonl")
                  "transcript.jsonl" (write_transcript transcript)
                  "transcript_" "Failed to save transcript") as Hframe1.
    destruct (_atomic_write o (backup o d0 "transcript.jsonl") _ _ _ _)
      as [d1 r1].
    assert (∀ name,
              name ∉ ["transcript.jsonl"; "transcript.jsonl.backup";
                      "metadata.json"; "metadata.json.backup";
                      "transcript_" +:+ os_random o +:+ ".tmp";
                      "metadata_" +:+ os_random o +:+ ".tmp"] →
              name ≠ "transcript.jsonl" ∧ name ≠ "transcript.jsonl.backup" ∧
              name ≠ "metadata.json" ∧ name ≠ "metadata.json.backup" ∧
              name ≠ "transcript_" +:+ os_random o +:+ ".tmp" ∧
              name ≠ "metadata_" +:+ os_random o +:+ ".tmp") as Hnames.
    { intros name Hname. repeat split; intros ->; apply Hname;
        apply list_elem_of_In; simpl; tauto. }
    assert (∀ name,
              name ∉ ["transcript.jsonl"; "transcript.jsonl.backup";
                      "metadata.json"; "metadata.json.backup";
                      "transcript_" +:+ os_random o +:+ ".tmp";
                      "metadata_" +:+ os_random o +:+ ".tmp"] →
              entries d1 !! name = entries d0 !! name) as Hd1.
    { intros name Hname. destruct (Hnames name Hname) as (? & ? & ? & ? & ? & ?).
      rewrite Hframe1 by done. by apply backup_lookup. }
    destruct r1 as [[]|e1].
    + pose proof (atomic_write_frame o (backup o d1 "metadata.json")
                    "metadata.json" (write_metadata metadata)
                    "metadata_" "Failed to save metadata") as Hframe2.
      destruct (_atomic_write o (backup o d1 "metadata.json") _ _ _ _)
        as [d2 r2]. cbn [fst snd] in *. split.
      * intros other Hother. by rewrite lookup_insert_ne.
      * intros d0' d' name [= <-]. rewrite lookup_insert_eq. intros [= <-] Hname.
        destruct (Hnames name Hname) as (? & ? & ? & ? & ? & ?).
        rewrite Hframe2 by done. rewrite backup_lookup by done. by apply Hd1.
    + cbn [fst snd]. split.
      * intros other Hother. by rewrite lookup_insert_ne.
      * intros d0' d' name [= <-]. rewrite lookup_insert_eq. intros [= <-].
        apply Hd1.
  - split; [|intros ? ? ? [=]].
    unfold _save_transcript, _save_metadata.
    destruct (_atomic_write o _ "transcript.jsonl" _ _ _) as [d1 [[]|e1]];
      [destruct (_atomic_write o _ "metadata.json" _ _ _) as [d2 r2]|];
      intros other Hother; cbn [fst snd]; by rewrite lookup_insert_ne.
Qed.

Definition session_with_profile : directory := {|
  entries := {[ "profile.md" := Text [CGarbage; CNewline] ]};
  mtime := 1600000000;
|}.

Lemma save_touches_only_its_files_witness :
  ∃ d',
    (save quiet_os (<["s1" := Dir session_with_profile]> ∅) "s1"
       [VDict [("role", VStr "user")]] (VDict [])).1 !! "s1" = Some (Dir d') ∧
    entries d' !! "profile.md" = Some (Text [CGarbage; CNewline]).
Proof.
  assert (∃ d', (save quiet_os (<["s1" := Dir session_with_profile]> ∅) "s1"
                   [VDict [("role", VStr "user")]] (VDict [])).1 !! "s1"
                = Some (Dir d')) as [d' Hd'] by (vm_compute; by eexists).
  exists d'. split; [exact Hd'|].
  destruct (save_touches_only_its_files quiet_os
              (<["s1" := Dir session_with_profile]> ∅) "s1"
              [VDict [("role", VStr "user")]] (VDict [])) as [_ Hfiles].
  rewrite (Hfiles session_with_profile d' "profile.md" eq_refl Hd'); [done|].
  intros Hin. apply list_elem_of_In in Hin. simpl in Hin.
  by destruct Hin as [|[|[|[|[|[|]]]]]].
Defined.

(** ** Profile snapshots *)

Lemma load_same_files (o : os) (st st' : gmap string node) (session_id : string)
  (d d' : directory) :
  st !! session_id = Some (Dir d) → st' !! session_id = Some (Dir d') →
  (∀ name, name ∈ ["transcript.jsonl"; "transcript.jsonl.backup";
                   "metadata.json"; "metadata.json.backup"] →
           entries d' !! name = entries d !! name) →
  load o st' session_id = load o st session_id.
Proof.
  intros Hd Hd' Hsame. unfold load. rewrite Hd, Hd'. cbn [files_under].
  unfold _load_transcript, _load_metadata.
  rewrite !Hsame; [done|..]; apply list_elem_of_In; simpl; tauto.
Qed.

(** X16: [save_profile] refuses the ids that [save] refuses, with the
    base directory untouched; and whatever it does otherwise, return or
    raise, it leaves every other session as it was and, for a session
    that is there, changes nothing of what [load] returns. *)
Theorem save_profile_keeps_session_content
  (yaml_dump : value → result (list chunk)) (o o' : os) (st : gmap string node)
  (session_id : string) (profile : value) :
  (refused_id session_id →
   ∃ msg, save_profile yaml_dump o st session_id profile
          = (st, Raise (ValueError msg))) ∧
  (∀ other, other ≠ session_id →
     (save_profile yaml_dump o st session_id profile).1 !! other = st !! other) ∧
  (∀ d0, st !! session_id = Some (Dir d0) →
     load o' (save_profile yaml_dump o st session_id profile).1 session_id
     = load o' st session_id).
Proof.
  split; [|split].
  - intros Hbad. destruct (check_session_id_refuses _ Hbad) as [msg Hmsg].
    exists msg. unfold save_profile. by rewrite Hmsg.
  - intros other Hother. unfold save_profile.
    destruct (check_session_id session_id) as [[]|]; [|done].
    destruct (mkdir o session_id (st !! session_id)) as [session_dir|]; [|done].
    destruct (_atomic_write o session_dir "profile.md" _ _ _) as [d' r].
    cbn [fst]. by rewrite lookup_insert_ne.
  - intros d0 Hd0. unfold save_profile.
    destruct (check_session_id session_id) as [[]|]; [|done].
    rewrite Hd0. cbn [mkdir].
    pose proof (atomic_write_frame o d0 "profile.md"
                  (write_profile (yaml_dump profile)) "profile_"
                  "Failed to save profile") as Hframe.
    destruct (_atomic_write o d0 "profile.md" _ _ _) as [d' r]. cbn [fst] in *.
    apply (load_same_files o' st _ session_id d0 d' Hd0); [apply lookup_insert_eq|].
    intros name Hname. apply Hframe.
    + intros ->. apply list_elem_of_In in Hname. simpl in Hname.
      by destruct Hname as [|[|[|[|]]]].
    + intros ->. apply list_elem_of_In in Hname. simpl in Hname.
      by destruct Hname as [|[|[|[|]]]].
Qed.

Lemma save_profile_keeps_session_content_witness :
  load quiet_os
    (save_profile (λ _, Ok [CGarbage; CNewline]) quiet_os
       (<["s1" := Dir one_session]> ∅) "s1" (VDict [])).1 "s1"
  = Ok ([VDict [("role", VStr "user")]],
        VDict [("session_id", VStr "s1"); ("recovered", VBool true);
               ("recovery_time", VStr "2023-11-14T22:13:20+00:00")]).
Proof.
  destruct (save_profile_keeps_session_content (λ _, Ok [CGarbage; CNewline])
              quiet_os quiet_os (<["s1" := Dir one_session]> ∅) "s1" (VDict []))
    as (_ & _ & Hload).
  rewrite (Hload one_session eq_refl). reflexivity.
Defined.

(** X17: a profile snapshot saved for an id that has no session yet
    creates the session: with the system calls going through and the
    profile encoded, [save_profile] returns, [exists] then answers true,
    and [load] returns the empty transcript with the minimal, recovered
    metadata, since the new directory holds the snapshot only. *)
Theorem save_profile_creates_session
  (yaml_dump : value → result (list chunk)) (o o' : os) (st : gmap string node)
  (session_id : string) (profile : value) (text : list chunk) :
  check_session_id session_id = Ok () →
  st !! session_id = None →
  calm o →
  yaml_dump profile = Ok text →
  ∃ d,
    save_profile yaml_dump o st session_id profile
    = (<[session_id := Dir d]> st, Ok ()) ∧
    entries d = {[ "profile.md" := Text (write_profile (Ok text)).1 ]} ∧
    exists_ (<[session_id := Dir d]> st) session_id = true ∧
    load o' (<[session_id := Dir d]> st) session_id
    = Ok ([], minimal_metadata o' session_id).
Proof.
  intros Hid Hnew Hcalm Hyaml. unfold save_profile.
  rewrite Hid, Hnew, Hyaml. cbn [mkdir].
  destruct (atomic_write_ok o {| entries := ∅; mtime := os_now o |} "profile.md"
              (write_profile (Ok text)).1 "profile_" "Failed to save profile" Hcalm)
    as (d & Hwrite & Hd); [done|].
  change (write_profile (Ok text)) with ((write_profile (Ok text)).1, @None exn).
  rewrite Hwrite. exists d. split; [done|]. cbn [entries] in Hd.
  split; [by rewrite Hd|]. split.
  - unfold exists_. by rewrite Hid, lookup_insert_eq.
  - unfold load. rewrite Hid, lookup_insert_eq. cbn [mbind result_bind files_under].
    unfold _load_transcript, _load_metadata. rewrite Hd.
    by rewrite !lookup_insert_ne by (by cbv).
Qed.

Lemma save_profile_creates_session_witness :
  ∃ d,
    save_profile (λ _, Ok [CGarbage; CNewline]) quiet_os ∅ "s1" (VDict [])
    = (<["s1" := Dir d]> ∅, Ok ()) ∧
    load quiet_os (<["s1" := Dir d]> ∅) "s1"
    = Ok ([], VDict [("session_id", VStr "s1"); ("recovered", VBool true);
                     ("recovery_time", VStr "2023-11-14T22:13:20+00:00")]).
Proof.
  destruct (save_profile_creates_session (λ _, Ok [CGarbage; CNewline])
              quiet_os quiet_os ∅ "s1" (VDict []) [CGarbage; CNewline])
    as (d & Hsave & _ & _ & Hload); try reflexivity.
  - by repeat split.
  - exists d. split; [exact Hsave | exact Hload].
Defined.

(** ** Validation of an agent configuration *)

(** X18: for a configuration whose [meta] and [system] sections, when
    present, are mappings, [validate_agent_config] returns [True] exactly
    when there is a name, at top level or in [meta], and raises the
    [ValueError] otherwise; it logs its one warning exactly when there
    is a [system] section without an [instruction]. *)
Theorem validate_agent_config_contract (config : dict) :
  (∀ v, dict_get "meta" config = Some v → ∃ meta, v = VDict meta) →
  (∀ v, dict_get "system" config = Some v → ∃ system, v = VDict system) →
  let named :=
    dict_has "name" config
    || match dict_get "meta" config with
       | Some (VDict meta) => dict_has "name" meta
       | _ => false
       end in
  let no_instruction :=
    match dict_get "system" config with
    | Some (VDict system) => negb (dict_has "instruction" system)
    | _ => false
    end in
  validate_agent_config config
  = if named
    then Ok (if no_instruction
             then ["Agent has 'system' section but no 'instruction'"]
             else [], true)
    else Raise (ValueError
                  "Agent config must have 'name' (either at top level or in 'meta' section)").
Proof.
  intros Hmeta Hsystem named no_instruction. subst named no_instruction.
  unfold validate_agent_config, dict_has.
  destruct (dict_get "name" config) as [name|];
    destruct (dict_get "meta" config) as [meta_value|];
    try (destruct (Hmeta meta_value eq_refl) as [meta ->]);
    destruct (dict_get "system" config) as [system_value|];
    try (destruct (Hsystem system_value eq_refl) as [system ->]);
    simpl; unfold dict_has; try destruct (dict_get "name" meta); simpl;
    try destruct (dict_get "instruction" system); done.
Qed.

Lemma validate_agent_config_contract_witness :
  validate_agent_config
    [("meta", VDict [("name", VStr "researcher")]);
     ("system", VDict [("prompt", VStr "You are a researcher.")])]
  = Ok (["Agent has 'system' section but no 'instruction'"], true).
Proof.
  apply (validate_agent_config_contract
           [("meta", VDict [("name", VStr "researcher")]);
            ("system", VDict [("prompt", VStr "You are a researcher.")])]).
  - intros v [= <-]. by eexists.
  - intros v [= <-]. by eexists.
Defined.

(** A value that is neither a string nor a container. *)
Definition not_a_container (v : value) : bool :=
  match v with
  | VNone | VBool _ | VInt _ | VFloat _ => true
  | _ => false
  end.

(** X19: a section that is present but empty is not tolerated.  When
    [meta] is [None] or a number, [validate_agent_config] raises a
    [TypeError], a top-level name notwithstanding, since the test on
    [meta] comes before the check; and so it does for such a [system]
    section of a configuration that has a top-level name and no [meta]. *)
Theorem validate_agent_config_null_section (config : dict) (v : value) :
  not_a_container v = true →
  (dict_get "meta" config = Some v →
   validate_agent_config config = Raise (TypeError "argument is not iterable")) ∧
  (dict_has "name" config = true → dict_get "meta" config = None →
   dict_get "system" config = Some v →
   validate_agent_config config = Raise (TypeError "argument is not iterable")).
Proof.
  intros Hv. unfold validate_agent_config. split.
  - intros Hmeta. unfold dict_has. rewrite Hmeta. by destruct v.
  - intros Hname Hmeta Hsystem. unfold dict_has in *.
    rewrite Hmeta, Hsystem. destruct (dict_get "name" config); [|done].
    by destruct v.
Qed.

Lemma validate_agent_config_null_section_witness :
  validate_agent_config [("name", VStr "researcher"); ("meta", VNone)]
  = Raise (TypeError "argument is not iterable").
Proof.
  destruct (validate_agent_config_null_section
              [("name", VStr "researcher"); ("meta", VNone)] VNone eq_refl)
    as [Hmeta _].
  exact (Hmeta eq_refl).
Defined.

(** ** Provenance of the agents slot *)

(** The labels of the chain members that have an [agents] key, in chain
    order. *)
Definition agents_setters (chain : list (dict * string)) : list string :=
  (filter (λ member, dict_has "agents" member.1 = true) chain).*2.

Lemma agents_setters_snoc (done : list (dict * string)) (p : dict) (n : string) :
  agents_setters (done ++ [(p, n)])
  = (agents_setters done ++ if dict_has "agents" p then [n] else [])%list.
Proof.
  unfold agents_setters. rewrite filter_app, fmap_app. f_equal.
  destruct (dict_has "agents" p) eqn:Hp.
  - by rewrite filter_cons_True.
  - rewrite filter_cons_False; [done|]. simpl. by rewrite Hp.
Qed.

Lemma merge_profile_dicts_has (k : string) (parent child : dict) :
  unique_keys child →
  dict_has k (merge_profile_dicts parent child)
  = dict_has k parent || dict_has k child.
Proof.
  intros Huniq. unfold dict_has. rewrite merge_profile_dicts_lookup by done.
  destruct (dict_get k child); [by rewrite orb_true_r|].
  by rewrite orb_false_r.
Qed.

(** The state of the [agents] slot after the members [done]. *)
Definition agents_inv (done : list (dict * string)) (merged : dict) (s : sources)
  : Prop :=
  src_agents s = default Unset (prov (agents_setters done)) ∧
  (dict_has "agents" merged = true ↔ is_Some (prov (agents_setters done))).

Lemma track_profile_agents (done : list (dict * string)) (merged : dict)
  (s : sources) (p : dict) (n : string) (merged' : dict) (s' : sources) :
  chain_inv done merged s → config_node p →
  track_profile (merged, s) (p, n) = Ok (merged', s') →
  src_agents s' = src_agents (track_agents p n merged s).
Proof.
  intros (Hsok & _ & _ & Hsecs & _) Hp. unfold track_profile.
  rewrite track_session_fields.
  destruct (fold_result (track_session_field n merged) s (session_of p))
    as [s1|] eqn:Hs1; [|done]. cbn [mbind result_bind].
  destruct (fold_result (track_section p n merged) s1 module_sections)
    as [s2|] eqn:Hs2; [|done]. cbn [mbind result_bind]. intros [= _ <-].
  destruct (track_session_fields_effect _ _ _ _ _ Hsok (config_node_session _ Hp) Hs1)
    as (_ & Hagents1 & _).
  destruct (Hsecs "providers") as (l & Hl & _); [by left|].
  destruct (track_sections_effect p n merged "providers" "" l module_sections s1 s2)
    as (_ & Hagents2 & _); try done.
  { intros sec' Hsec'. split; [done|].
    destruct (Hsecs sec' Hsec') as (l' & Hl' & _). by exists l'. }
  { apply NoDup_module_sections. }
  { by left. }
  unfold track_agents. rewrite Hagents2, Hagents1.
  destruct (dict_has "agents" p); [|congruence].
  by destruct (negb (dict_has "agents" merged)).
Qed.

Lemma walk_agents (rest done : list (dict * string)) (merged : dict)
  (s : sources) (merged' : dict) (s' : sources) :
  chain_inv done merged s → agents_inv done merged s →
  Forall (λ member, config_node member.1) rest →
  fold_result track_profile (merged, s) rest = Ok (merged', s') →
  agents_inv (done ++ rest) merged' s'.
Proof.
  revert done merged s.
  induction rest as [|[p n] rest IH]; intros done merged s Hinv Hagents Hnodes.
  - intros [= <- <-]. by rewrite app_nil_r.
  - apply Forall_cons in Hnodes as [Hp Hnodes]. simpl in Hp.
    destruct (track_profile_step done merged s p n Hinv Hp)
      as (s1 & Hstep & Hinv1 & _).
    cbn [fold_result]. rewrite Hstep. cbn [mbind result_bind]. intros Hrest.
    rewrite (cons_middle (p, n) done rest), app_assoc.
    apply (IH _ _ _ Hinv1); [|done|done].
    destruct Hagents as [Hsrc Hhas]. destruct Hp as [Huniq Hshape].
    unfold agents_inv.
    rewrite (track_profile_agents _ _ _ _ _ _ _ Hinv (conj Huniq Hshape) Hstep).
    rewrite agents_setters_snoc.
    rewrite merge_profile_dicts_has by done. unfold track_agents.
    destruct (dict_has "agents" p).
    + rewrite prov_snoc, orb_true_r. split; [|by split; [eexists|]].
      unfold prov_step. destruct (dict_has "agents" merged) eqn:Hm.
      * destruct (proj1 Hhas eq_refl) as [old Hold]. rewrite Hold in Hsrc |- *.
        simpl in *. by rewrite Hsrc.
      * destruct (prov (agents_setters done)) as [old|] eqn:Hold; [|done].
        assert (false = true) by (apply Hhas; by eexists). done.
    + by rewrite app_nil_r, orb_false_r.
Qed.

(** X20: the provenance of the [agents] slot follows the rule of the
    session fields.  For every chain of configuration nodes the walk
    returns, and the slot's provenance is the empty mapping it starts with
    when no member has an [agents] key, the label of the member when one
    has, and otherwise the pair of the last member that has one and the
    member that had one just before it. *)
Theorem agents_provenance_collapses (chain : list (dict * string)) :
  Forall (λ member, config_node member.1) chain →
  ∃ merged s,
    build_effective_config_with_sources chain.*1 chain.*2 = Ok (merged, s) ∧
    src_agents s
    = match reverse (agents_setters chain) with
      | [] => Unset
      | [only] => Label only
      | last :: before :: _ => Override last (Label before)
      end.
Proof.
  intros Hnodes.
  destruct (walk_members "providers" "" chain [] [] initial_sources)
    as (merged & s & Hfold & _);
    [by left | apply chain_inv_initial | done |].
  exists merged, s. rewrite build_walk. split; [done|].
  destruct (walk_agents chain [] [] initial_sources merged s chain_inv_initial)
    as [Hsrc _]; [|done|done|].
  { split; [done|]. split; [done | by intros [? ?]]. }
  rewrite app_nil_l in Hsrc. rewrite Hsrc, prov_collapsed.
  by destruct (reverse (agents_setters chain)) as [|last [|before ?]].
Qed.

Definition agents_chain : list (dict * string) :=
  [([("agents", VDict [("dirs", VList [VStr "./agents"])])], "base");
   ([("session", VDict [("orchestrator", VStr "loop-basic")])], "mid");
   ([("agents", VStr "all")], "top")].

Lemma agents_provenance_collapses_witness :
  ∃ merged s,
    build_effective_config_with_sources agents_chain.*1 agents_chain.*2
    = Ok (merged, s) ∧
    src_agents s = Override "top" (Label "base").
Proof.
  assert (Forall (λ member, config_node member.1) agents_chain) as Hnodes.
  { repeat apply List.Forall_cons; try apply List.Forall_nil;
      by apply config_nodeb_sound. }
  destruct (agents_provenance_collapses agents_chain Hnodes)
    as (merged & s & Hbuild & Hsrc).
  exists merged, s. split; [exact Hbuild | exact Hsrc].
Defined.

(** ** The modules that have a provenance *)

(** X21: provenance is recorded for exactly the modules of the merged
    configuration.  For every chain of configuration nodes and every
    module-list section, a module has an owner in the provenance exactly
    when some chain member has an entry for it, which is exactly when the
    merged section holds it. *)
Theorem module_provenance_exact (chain : list (dict * string)) (sec x : string) :
  Forall (λ member, config_node member.1) chain →
  sec ∈ module_sections →
  ∃ merged s,
    build_effective_config_with_sources chain.*1 chain.*2 = Ok (merged, s) ∧
    (is_Some (mod_src s sec x) ↔ existsb (mentions sec x) chain = true) ∧
    has_module x (items_of sec merged) = existsb (mentions sec x) chain.
Proof.
  intros Hnodes Hsec.
  destruct (walk_members sec x chain [] [] initial_sources Hsec chain_inv_initial Hnodes)
    as (merged & s & Hfold & Hinv & Hsame & _).
  rewrite app_nil_l in Hinv. destruct Hinv as (_ & _ & _ & Hsecs & Hmods).
  exists merged, s. rewrite build_walk. split; [done|].
  split; [|by apply Hmods]. split.
  - intros Hsome. destruct (existsb (mentions sec x) chain) eqn:Hex; [done|].
    destruct Hsame as [Hmod _].
    { apply Forall_forall. intros m Hm.
      destruct (mentions sec x m) eqn:Hmx; [|done].
      rewrite (proj2 (existsb_exists _ _)) in Hex; [done|].
      exists m. split; [by apply list_elem_of_In | done]. }
    rewrite Hmod in Hsome. destruct Hsome as [owner Howner].
    apply list_elem_of_In in Hsec. simpl in Hsec.
    by destruct Hsec as [<-|[<-|[<-|[]]]].
  - intros Hex. destruct (Hsecs sec Hsec) as (l & Hl & _ & Hdom).
    apply Hdom. rewrite <- (items_of_default _ _ _ Hl). by rewrite Hmods.
Qed.

Lemma module_provenance_exact_witness :
  ∃ merged s,
    build_effective_config_with_sources owner_chain.*1 owner_chain.*2
    = Ok (merged, s) ∧
    is_Some (mod_src s "providers" "x") ∧
    mod_src s "providers" "y" = None.
Proof.
  assert (Forall (λ member, config_node member.1) owner_chain) as Hnodes.
  { repeat apply List.Forall_cons; try apply List.Forall_nil;
      by apply config_nodeb_sound. }
  destruct (module_provenance_exact owner_chain "providers" "x" Hnodes)
    as (merged & s & Hbuild & Hx & _); [by left|].
  destruct (module_provenance_exact owner_chain "providers" "y" Hnodes)
    as (merged' & s' & Hbuild' & Hy & _); [by left|].
  rewrite Hbuild in Hbuild'. injection Hbuild' as <- <-.
  exists merged, s. split; [exact Hbuild|]. split; [by apply Hx|].
  destruct (mod_src s "providers" "y") as [owner|] eqn:Howner; [|done].
  assert (false = true) by (apply Hy; by eexists). done.
Defined.

(** ** The source line of a module *)






(** ** Sessions after a save and after a cleanup *)

(** X23: a session that was saved is there: after a [save] that went
    through, [exists] answers true for the id, [list_sessions] names it
    unless it starts with a dot, and a [cleanup_old_sessions] whose cutoff
    is not after the time of the save leaves it in place. *)
Theorem saved_session_is_listed (o o' : os) (st st' : gmap string node)
  (session_id : string) (transcript : list value) (metadata : value) (days : Z) :
  save o st session_id transcript metadata = (st', Ok ()) →
  exists_ st' session_id = true ∧
  (dot_prefixed session_id = false → session_id ∈ list_sessions o' st') ∧
  (0 ≤ days → os_now o' - days * 86400 ≤ os_now o →
   (cleanup_old_sessions o' st' days).1 !! session_id = st' !! session_id).
Proof.
  intros Hsave.
  destruct (save_ok_inv _ _ _ _ _ _ Hsave) as (d & j & Hid & Hdir & _).
  assert (mtime d = os_now o) as Hmtime.
  { unfold save in Hsave. rewrite Hid in Hsave.
    destruct (mkdir o session_id (st !! session_id)) as [d0|]; [|done].
    unfold _save_transcript, _save_metadata in Hsave.
    destruct (_atomic_write o (backup o d0 "transcript.jsonl") _ _ _ _)
      as [d1 [[]|]]; [|done].
    destruct (_atomic_write o (backup o d1 "metadata.json") _ _ _ _)
      as [d2 r2] eqn:Hw2.
    injection Hsave as <- ->. rewrite lookup_insert_eq in Hdir.
    injection Hdir as <-. unfold _atomic_write, write_failed in Hw2.
    repeat (first [case_decide | case_match]; try done).
    by injection Hw2 as <-. }
  split; [|split].
  - unfold exists_. by rewrite Hid, Hdir.
  - intros Hdot. apply list_sessions_listed. split; [by exists d | done].
  - intros Hdays Hcutoff.
    destruct (cleanup_spec o' st' days Hdays) as (st2 & removed & -> & Hlook & _).
    cbn [fst]. rewrite Hlook, Hdir. cbn [mbind option_bind expired].
    rewrite (proj2 (Z.ltb_ge _ _)) by lia. by rewrite andb_false_r.
Qed.

Lemma saved_session_is_listed_witness :
  let st' := (save quiet_os ∅ "s1" [] (VDict [])).1 in
  exists_ st' "s1" = true ∧ "s1" ∈ list_sessions quiet_os st' ∧
  (cleanup_old_sessions quiet_os st' 0).1 !! "s1" = st' !! "s1".
Proof.
  intros st'.
  destruct (saved_session_is_listed quiet_os quiet_os ∅ st' "s1" [] (VDict []) 0)
    as (Hexists & Hlisted & Hkept); [by vm_compute|].
  split; [exact Hexists|]. split; [by apply Hlisted|].
  apply Hkept; [lia | by vm_compute].
Defined.

(** X24: after a cleanup that could read every modification time and
    whose removals all went through, no session older than the cutoff is
    listed any more. *)
Theorem cleanup_leaves_no_old_session (o : os) (st st' : gmap string node)
  (days : Z) (removed : nat) (name : string) :
  (∀ k, os_stat_fails o k = false) → (∀ k, os_rmtree_fails o k = false) →
  cleanup_old_sessions o st days = (st', Ok removed) →
  name ∈ list_sessions o st' →
  os_now o - days * 86400 ≤ listed_time o st' name.
Proof.
  intros Hstat Hrmtree Hclean Hlisted.
  assert (0 ≤ days) as Hdays.
  { unfold cleanup_old_sessions in Hclean.
    destruct (days <? 0) eqn:Hneg; [done|]. by apply Z.ltb_ge. }
  destruct (cleanup_spec o st days Hdays) as (st1 & r1 & Hrun & Hlook & _).
  rewrite Hclean in Hrun. injection Hrun as <- <-.
  apply list_sessions_listed in Hlisted as [[d Hd] Hdot].
  unfold listed_time. rewrite Hd, Hstat.
  rewrite Hlook in Hd. destruct (st !! name) as [n|]; [|done]. simpl in Hd.
  destruct (expired o _ name n) eqn:Hexp; [done|]. injection Hd as ->.
  simpl in Hexp. rewrite Hdot, Hstat, Hrmtree in Hexp. simpl in Hexp.
  rewrite andb_true_r in Hexp. by apply Z.ltb_ge.
Qed.

Lemma cleanup_leaves_no_old_session_witness :
  os_now quiet_os - 30 * 86400
  ≤ listed_time quiet_os (cleanup_old_sessions quiet_os aged_store 30).1 "new".
Proof.
  apply (cleanup_leaves_no_old_session quiet_os aged_store
           (cleanup_old_sessions quiet_os aged_store 30).1 30 1%nat "new").
  - done.
  - done.
  - by vm_compute.
  - apply list_sessions_listed. split; [|reflexivity].
    eexists. by vm_compute.
Defined.

(** ** The ids the guard accepts *)



(** ** A config-only edit of an overridden module *)

(** One of the entries for module [x] has a [config] key. *)
Definition edits_config (x : string) (items : list value) : bool :=
  existsb (λ item, bool_decide (module_of item = Some x) && has_config item) items.

Lemma owner_after_edit (n x : string) (items : list value) (old : source) :
  sourced x items = false → edits_config x items = true →
  owner_after n x items old = first_of old.
Proof.
  revert old. induction items as [|item items IH]; intros old; [done|].
  change (owner_after n x (item :: items) old)
    with (owner_after n x items
            (if bool_decide (module_of item = Some x) then new_owner n item old
             else old)).
  change (sourced x (item :: items))
    with (bool_decide (module_of item = Some x) && has_source item
          || sourced x items).
  change (edits_config x (item :: items))
    with (bool_decide (module_of item = Some x) && has_config item
          || edits_config x items).
  destruct (bool_decide (module_of item = Some x)); cbn [andb orb]; [|apply IH].
  unfold new_owner. destruct (has_source item); [done|]. cbn [orb].
  destruct (has_config item); [|apply IH]. intros Hns _.
  pose proof (owner_after_spec n x items (first_of old)) as Hspec.
  rewrite Hns, first_of_idemp in Hspec. by destruct Hspec.
Qed.

(** X26: a config-only edit drops the override history of a module.
    When a member edits the configuration of a module that is already
    there, without giving it a source, the owner recorded for the module
    becomes the first component of what was recorded before: a pair left
    by an earlier override is reduced to the label of the overrider, and
    a plain label stays. *)
Theorem config_only_edit_collapses_owner (before post : list (dict * string))
  (C : dict) (c sec x : string) :
  Forall (λ member, config_node member.1) (before ++ (C, c) :: post)%list →
  sec ∈ module_sections →
  existsb (mentions sec x) before = true →
  sourced x (items_of sec C) = false →
  edits_config x (items_of sec C) = true →
  Forall (λ member, mentions sec x member = false) post →
  ∃ merged0 s0 merged s old,
    build_effective_config_with_sources before.*1 before.*2 = Ok (merged0, s0) ∧
    build_effective_config_with_sources
      (before ++ (C, c) :: post)%list.*1 (before ++ (C, c) :: post)%list.*2
    = Ok (merged, s) ∧
    mod_src s0 sec x = Some old ∧
    mod_src s sec x = Some (first_of old).
Proof.
  intros Hnodes Hsec Hex Hns Hedit Hpost.
  apply Forall_app in Hnodes as [Hnbefore Hnodes].
  apply Forall_cons in Hnodes as [HnC Hnpost]. simpl in HnC.
  destruct (walk_members sec x before [] [] initial_sources Hsec chain_inv_initial
              Hnbefore) as (m0 & s0 & Hfold0 & Hinv0 & _).
  rewrite app_nil_l in Hinv0.
  assert (is_Some (mod_src s0 sec x)) as [old Hold].
  { destruct Hinv0 as (_ & _ & _ & Hsecs & Hmods).
    destruct (Hsecs sec Hsec) as (l & Hl & _ & Hdom). apply Hdom.
    rewrite <- (items_of_default _ _ _ Hl). by rewrite Hmods. }
  destruct (track_profile_step before m0 s0 C c Hinv0 HnC)
    as (s1 & Hstep & Hinv1 & Hat).
  destruct (Hat sec x Hsec) as (_ & _ & Hown & _). rewrite Hex in Hown.
  specialize (Hown eq_refl old Hold). rewrite owner_after_edit in Hown by done.
  destruct (walk_members sec x post _ _ _ Hsec Hinv1 Hnpost)
    as (merged & s & Hfold & _ & Hsame & _).
  destruct (Hsame Hpost) as [Hmod _].
  exists m0, s0, merged, s, old. rewrite !build_walk. split; [done|].
  split; [|split; [done | by rewrite Hmod]].
  apply fold_result_app_Ok with (m0, s0); [done|].
  by apply fold_result_cons_Ok with (merge_profile_dicts m0 C, s1).
Qed.

Definition override_then_edit : list (dict * string) :=
  [([("tools", VList [VDict [("module", VStr "x"); ("source", VStr "S1")]])], "base");
   ([("tools", VList [VDict [("module", VStr "x"); ("source", VStr "S2")]])], "mid");
   ([("tools",
      VList [VDict [("module", VStr "x");
                    ("config", VDict [("timeout", VInt 30)])]])], "top")].

Lemma config_only_edit_collapses_owner_witness :
  ∃ merged0 s0 merged s,
    build_effective_config_with_sources
      (take 2 override_then_edit).*1 (take 2 override_then_edit).*2
    = Ok (merged0, s0) ∧
    build_effective_config_with_sources override_then_edit.*1 override_then_edit.*2
    = Ok (merged, s) ∧
    mod_src s0 "tools" "x" = Some (Override "mid" (Label "base")) ∧
    mod_src s "tools" "x" = Some (Label "mid").
Proof.
  assert (Forall (λ member, config_node member.1) override_then_edit) as Hnodes.
  { repeat apply List.Forall_cons; try apply List.Forall_nil;
      by apply config_nodeb_sound. }
  destruct (config_only_edit_collapses_owner (take 2 override_then_edit) []
              [("tools",
                VList [VDict [("module", VStr "x");
                              ("config", VDict [("timeout", VInt 30)])]])]
              "top" "tools" "x" Hnodes)
    as (merged0 & s0 & merged & s & old & Hbuild0 & Hbuild & Hold & Hnew).
  - right. by left.
  - reflexivity.
  - reflexivity.
  - reflexivity.
  - apply List.Forall_nil.
  - exists merged0, s0, merged, s. split; [exact Hbuild0|].
    split; [exact Hbuild|].
    assert (mod_src s0 "tools" "x" = Some (Override "mid" (Label "base"))) as Hs0.
    { vm_compute in Hbuild0. injection Hbuild0 as _ <-. by vm_compute. }
    split; [exact Hs0|]. rewrite Hs0 in Hold. injection Hold as <-. exact Hnew.
Defined.

(** ** Sanitizing twice *)

Lemma dict_set_fresh {V} (k : string) (v : V) (d : list (string * V)) :
  k ∉ d.*1 → dict_set k v d = (d ++ [(k, v)])%list.
Proof.
  induction d as [|[k' v'] d IH]; [done|]. cbn [fmap list_fmap].
  rewrite not_elem_of_cons. intros [Hne Hk]. simpl.
  rewrite decide_False by done. by rewrite IH.
Qed.

Lemma dict_set_keys {V} (k k' : string) (v : V) (d : list (string * V)) :
  k' ∈ (dict_set k v d).*1 ↔ k' = k ∨ k' ∈ d.*1.
Proof.
  induction d as [|[k0 v0] d IH]; simpl.
  - rewrite list_elem_of_singleton. split; [by left | intros [|Hin]; [done|]].
    by apply elem_of_nil in Hin.
  - case_decide as Hk; subst; cbn [fmap list_fmap]; rewrite !elem_of_cons.
    + tauto.
    + rewrite IH. tauto.
Qed.

Lemma dict_set_NoDup {V} (k : string) (v : V) (d : list (string * V)) :
  NoDup d.*1 → NoDup (dict_set k v d).*1.
Proof.
  induction d as [|[k0 v0] d IH]; simpl.
  - intros _. apply NoDup_singleton.
  - cbn [fmap list_fmap]. rewrite NoDup_cons. intros [Hfresh Hd].
    case_decide as Hk; subst; cbn [fmap list_fmap]; apply NoDup_cons.
    + done.
    + split; [|by apply IH]. rewrite dict_set_keys. intros [?|?]; done.
Qed.

(** An entry the sanitizer leaves as it is. *)
Definition settled (kv : string * value) : Prop :=
  (kv.1 ∉ ["thinking_block"; "content_blocks"]) ∧
  _sanitize_value kv.2 = kv.2 ∧ is_none kv.2 = false.

Lemma sanitize_entries_settled (sanitized acc : dict) :
  NoDup sanitized.*1 → Forall settled sanitized →
  (∀ k, k ∈ sanitized.*1 → k ∉ acc.*1) →
  sanitize_entries sanitized acc = (acc ++ sanitized)%list.
Proof.
  revert acc. induction sanitized as [|[k v] d IH]; intros acc Hnodup Hall Hfresh.
  - by rewrite app_nil_r.
  - cbn [fmap list_fmap] in Hnodup, Hfresh.
    apply NoDup_cons in Hnodup as [Hk Hnodup].
    apply Forall_cons in Hall as [(Hplain & Hfix & Hsome) Hall].
    cbn [fst snd] in Hplain, Hfix, Hsome.
    rewrite sanitize_entries_step by done. rewrite Hfix, Hsome.
    rewrite dict_set_fresh by (apply Hfresh; by left).
    rewrite IH; [by rewrite <- app_assoc | done | done |].
    intros k' Hk'. rewrite fmap_app, elem_of_app. intros [Hin|Hin].
    + by apply (Hfresh k'); [right|].
    + apply list_elem_of_singleton in Hin. simpl in Hin. by subst.
Qed.

Lemma sanitize_entries_settles (d acc : dict) :
  Forall (λ kv, free_of_thinking_block kv.2 = true →
                _sanitize_value (_sanitize_value kv.2) = _sanitize_value kv.2) d →
  forallb (λ kv, negb (bool_decide (kv.1 = "thinking_block"))
                 && free_of_thinking_block kv.2) d = true →
  NoDup acc.*1 → Forall settled acc →
  NoDup (sanitize_entries d acc).*1 ∧ Forall settled (sanitize_entries d acc).
Proof.
  intros IH. revert acc. induction IH as [|[k x] d Hx _ IHd];
    intros acc Hfree Hnodup Hall; [done|].
  simpl in Hfree. apply andb_true_iff in Hfree as [Hkx Hfd].
  apply andb_true_iff in Hkx as [Hk Hfx]. apply negb_true_iff in Hk.
  apply bool_decide_eq_false in Hk. specialize (Hx Hfx). simpl in Hx.
  destruct (decide (k ∈ ["thinking_block"; "content_blocks"])) as [Hspecial|Hplain].
  - cbn [sanitize_entries]. rewrite bool_decide_true by done.
    rewrite bool_decide_false by done. by apply IHd.
  - rewrite sanitize_entries_step by done.
    destruct (is_none (_sanitize_value x)) eqn:Hnone; [by apply IHd|].
    apply IHd; [done | by apply dict_set_NoDup |].
    clear -Hall Hplain Hx Hnone. induction Hall as [|[k0 v0] acc Hkv Hacc IH]; simpl.
    + by repeat constructor.
    + case_decide; constructor; try done.
Qed.

(** X27: sanitizing twice is sanitizing once, for every value without a
    [thinking_block] key at any depth: what [_sanitize_value] returns it
    returns unchanged when given it again. *)
Theorem sanitizer_idempotent (v : value) :
  free_of_thinking_block v = true →
  _sanitize_value (_sanitize_value v) = _sanitize_value v.
Proof.
  induction v as [| | | | |l IH|d IH|name json md _ _] using value_rect_nested;
    try done.
  - rewrite free_of_thinking_block_list, !sanitize_value_list. intros Hfree.
    f_equal.
    induction IH as [|x l Hx _ IHl]; [done|].
    simpl in Hfree. apply andb_true_iff in Hfree as [Hfx Hfl].
    specialize (IHl Hfl). specialize (Hx Hfx). cbn [sanitize_list].
    destruct (_sanitize_value x) eqn:Hs; [exact IHl|..];
      (cbn [sanitize_list]; rewrite Hx; by f_equal).
  - rewrite free_of_thinking_block_dict, !sanitize_value_dict. intros Hfree.
    f_equal.
    destruct (sanitize_entries_settles d [] IH Hfree) as [Hnodup Hall];
      [apply NoDup_nil_2 | done |].
    rewrite sanitize_entries_settled; [done | done | done |].
    intros k _. apply not_elem_of_nil.
  - intros _. cbn [_sanitize_value].
    destruct (to_json (VObject name json md)) as [j|] eqn:Hj; [|done].
    cbn [_sanitize_value]. by rewrite Hj.
Qed.

Lemma sanitizer_idempotent_witness :
  _sanitize_value
    (_sanitize_value
       (VDict [("role", VStr "assistant"); ("content", VNone);
               ("content_blocks", VList [VObject "TextBlock" None None]);
               ("parts", VList [VInt 1; VObject "ToolCall" None None])]))
  = VDict [("role", VStr "assistant"); ("parts", VList [VInt 1])].
Proof.
  rewrite (sanitizer_idempotent
             (VDict [("role", VStr "assistant"); ("content", VNone);
                     ("content_blocks", VList [VObject "TextBlock" None None]);
                     ("parts", VList [VInt 1; VObject "ToolCall" None None])])
             eq_refl).
  reflexivity.
Defined.
